(** * Inventory, ledger and purchase coordination of the reseller bot

    A shallow embedding of [database.py] (class [Database]), of the catalogue
    in [config.py] and of the purchase and delete flows of [bot.py], followed
    by the properties proved about them.

    Conventions of the embedding.
    - A Python [str] is a [string]; a character is a code point below 256.
    - The key files are a finite map from path to file content.  Reading a
      file follows Python's text mode (universal newlines), [readlines] and
      [str.strip].  Input/output errors on key files are not modelled.
    - SQLite tables are lists of rows in rowid order.  A [REAL] column holds
      the rational its double denotes ([Q]; infinities and [NULL] are not
      among the rows).  The additions SQLite makes on these columns are
      exact here; the properties below that speak about amounts are those
      that hold of the rounded sums as well (what is untouched, what is
      recorded, in which direction a balance moves).  The arithmetic and the
      comparisons that Python makes on floats, on which the replies of the
      commands depend, are parameters of the handlers.
    - A timestamp is the point of time its text denotes, in microseconds
      from 0001-01-01 00:00:00 (SQLite compares the texts, which is the
      order of these points).  Every statement that reads
      [CURRENT_TIMESTAMP], and every [datetime.now()], takes its own reading
      as an input: [CURRENT_TIMESTAMP] is UTC with a resolution of one
      second, so two statements may read the same value, and
      [datetime.now()] is local time with microseconds.
    - An integer bound to a statement has to fit SQLite's 64-bit [INTEGER].
      The ids Discord gives and the ids read from a row do; an id typed by a
      user may not.  In every flow such an id is bound first by a statement
      of [create_user], [get_user], [update_user_activity],
      [update_balance], [create_license] or [make_reseller]: these raise as
      SQLite does ([binding]).
    - A database error is injected by a [fault]: the number of calls on the
      connection that succeed before one raises. *)

From Stdlib Require Import ZArith QArith Qabs List Ascii String Bool Lia Sorted.
From stdpp Require Import base gmap strings.
Import ListNotations.
Local Open Scope string_scope.

(* ================================================================== *)
(** * Part I. The embedding                                            *)
(* ================================================================== *)

(** ** Python strings *)

Definition LF : ascii := "010"%char.
Definition CR : ascii := "013"%char.

(** The line terminator written by the code, ['\n']. *)
Definition NL : string := String LF EmptyString.

(** [str.isspace] on code points below 256: 0x09-0x0D, 0x1C-0x20, 0x85 and
    0xA0. *)
Definition isspace (c : ascii) : bool :=
  let n := nat_of_ascii c in
  ((9 <=? n)%nat && (n <=? 13)%nat) || ((28 <=? n)%nat && (n <=? 32)%nat)
  || (n =? 133)%nat || (n =? 160)%nat.

Fixpoint lstrip (s : string) : string :=
  match s with
  | EmptyString => EmptyString
  | String c s' => if isspace c then lstrip s' else s
  end.

Fixpoint rstrip (s : string) : string :=
  match s with
  | EmptyString => EmptyString
  | String c s' =>
      match rstrip s' with
      | EmptyString => if isspace c then EmptyString else String c EmptyString
      | r => String c r
      end
  end.

(** [s.strip()] *)
Definition strip (s : string) : string := lstrip (rstrip s).

(** Truth value of a [str]: non-empty. *)
Definition truthy (s : string) : bool :=
  match s with EmptyString => false | String _ _ => true end.

(** Text mode with [newline=None]: on input ['\r\n'] and a lone ['\r'] are
    both translated to ['\n']. *)
Fixpoint universal_newlines (s : string) : string :=
  match s with
  | EmptyString => EmptyString
  | String c s' =>
      if Ascii.eqb c CR then
        match s' with
        | String c' _ =>
            if Ascii.eqb c' LF then universal_newlines s'
            else String LF (universal_newlines s')
        | EmptyString => NL
        end
      else String c (universal_newlines s')
  end.

(** Lines of a translated text, each keeping its terminating ['\n']. *)
Fixpoint splitlines_keepends (s : string) : list string :=
  match s with
  | EmptyString => []
  | String c s' =>
      if Ascii.eqb c LF then String c EmptyString :: splitlines_keepends s'
      else match splitlines_keepends s' with
           | [] => [String c EmptyString]
           | l :: ls => String c l :: ls
           end
  end.

(** [f.readlines()] of a file opened with [open(key_file, 'r')]. *)
Definition readlines (content : string) : list string :=
  splitlines_keepends (universal_newlines content).

(** [[line.strip() for line in f.readlines() if line.strip()]] *)
Definition read_keys (content : string) : list string :=
  map strip (filter (fun line => truthy (strip line) = true) (readlines content)).

(** [sep.join(l)] *)
Fixpoint join (sep : string) (l : list string) : string :=
  match l with
  | [] => EmptyString
  | x :: rest =>
      match rest with
      | [] => x
      | _ :: _ => x ++ sep ++ join sep rest
      end
  end.

(** What [f.write('\n'.join(keys))] followed by [if keys: f.write('\n')]
    leaves in a file opened with ['w']. *)
Definition write_keys (keys : list string) : string :=
  join NL keys ++ (match keys with [] => EmptyString | _ :: _ => NL end).

(** Every character of [s] satisfies [P]. *)
Fixpoint string_forall (P : ascii -> bool) (s : string) : bool :=
  match s with
  | EmptyString => true
  | String c s' => P c && string_forall P s'
  end.

Definition not_LF (c : ascii) : bool := negb (Ascii.eqb c LF).
Definition not_CR (c : ascii) : bool := negb (Ascii.eqb c CR).

(** A key as a line of a key file holds it: not empty, no white space at
    either end, no line break inside. *)
Definition well_formed_key (k : string) : bool :=
  truthy k && String.eqb (lstrip k) k && String.eqb (rstrip k) k
  && string_forall not_LF k && string_forall not_CR k.

(** The content is empty or its last character is ['\n']: the shape every
    write of the code leaves. *)
Fixpoint ends_with_newline (s : string) : bool :=
  match s with
  | EmptyString => true
  | String c s' =>
      match s' with
      | EmptyString => Ascii.eqb c LF
      | String _ _ => ends_with_newline s'
      end
  end.

(** ** config.py *)

Record key_config := { file : string; prefix : string }.

Definition KEYS_CONFIG : list (string * key_config) :=
  [ ("vallifetime", {| file := "keys/vallifetime_keys.txt"; prefix := "VAL-LT-" |});
    ("val1month", {| file := "keys/val1month_keys.txt"; prefix := "VAL-1M-" |});
    ("val1week", {| file := "keys/val1week_keys.txt"; prefix := "VAL-1W-" |});
    ("wooflifetime", {| file := "keys/wooflifetime_keys.txt"; prefix := "WOOF-LT-" |});
    ("woof1month", {| file := "keys/woof1month_keys.txt"; prefix := "WOOF-1M-" |});
    ("woof1week", {| file := "keys/woof1week_keys.txt"; prefix := "WOOF-1W-" |}) ].

(** Display names are given without their leading emoji. *)
Record product := {
  name : string;
  price : Q;
  duration : Z;
  description : string
}.

Definition PRODUCTS : list (string * product) :=
  [ ("vallifetime", {| name := "Valorant LifeTime License"; price := 495;
                       duration := 365; description := "Valorant LifeTime Access" |});
    ("val1month", {| name := "Valorant 1 Month License"; price := 285;
                     duration := 30; description := "Valorant 1 Month Access" |});
    ("val1week", {| name := "Valorant 1 Week License"; price := 100;
                    duration := 7; description := "Valorant 1 Week Access" |});
    ("wooflifetime", {| name := "Spoofer LifeTime License"; price := 495;
                        duration := 365; description := "Woofer LifeTime Access" |});
    ("woof1month", {| name := "Spoofer 1 Month License"; price := 360;
                      duration := 30; description := "Woofer 1 Month Access" |});
    ("woof1week", {| name := "Spoofer 1 Week License"; price := 100;
                     duration := 7; description := "Woofer 1 Week Access" |}) ].

Definition ADMIN_IDS : list Z := [1091441605430493185%Z].

(** [d[k]] guarded by [k in d], for a dict written as an association list. *)
Fixpoint dict_get {V : Type} (d : list (string * V)) (k : string) : option V :=
  match d with
  | [] => None
  | (k', v) :: d' => if String.eqb k k' then Some v else dict_get d' k
  end.

(** ** Key management ([Database], KEY MANAGEMENT) *)

(** The key files: path to content; an absent path is a file that does not
    exist. *)
Abbreviation files := (gmap string string).

(** The keys a product's file holds, as every operation below reads them;
    empty when the product is unknown or its file is missing. *)
Definition pool (fs : files) (product_type : string) : list string :=
  match dict_get KEYS_CONFIG product_type with
  | None => []
  | Some cfg =>
      match fs !! file cfg with
      | None => []
      | Some content => read_keys content
      end
  end.

Definition get_available_key (fs : files) (product_type : string)
  : option string * files :=
  match dict_get KEYS_CONFIG product_type with
  | None => (None, fs)
  | Some cfg =>
      let key_file := file cfg in
      match fs !! key_file with
      | None => (None, fs)
      | Some content =>
          match read_keys content with
          | [] => (None, fs)
          | selected_key :: remaining_keys =>
              (Some selected_key, <[key_file := write_keys remaining_keys]> fs)
          end
      end
  end.

Definition return_key (fs : files) (product_type key : string) : bool * files :=
  match dict_get KEYS_CONFIG product_type with
  | None => (false, fs)
  | Some cfg =>
      let key_file := file cfg in
      let existing_keys :=
        match fs !! key_file with
        | Some content => read_keys content
        | None => []
        end in
      if decide (key ∈ existing_keys) then (true, fs)
      else (true, <[key_file := write_keys (key :: existing_keys)]> fs)
  end.

Definition get_key_count (fs : files) (product_type : string) : Z :=
  match dict_get KEYS_CONFIG product_type with
  | None => 0%Z
  | Some cfg =>
      match fs !! file cfg with
      | None => 0%Z
      | Some content => Z.of_nat (length (read_keys content))
      end
  end.

(** [open(key_file, 'a')] creates a missing file and writes at its end. *)
Definition add_key (fs : files) (product_type key : string) : bool * files :=
  match dict_get KEYS_CONFIG product_type with
  | None => (false, fs)
  | Some cfg =>
      let key_file := file cfg in
      let existing_keys :=
        match fs !! key_file with
        | Some content => read_keys content
        | None => []
        end in
      if decide (key ∈ existing_keys) then (false, fs)
      else (true, <[key_file := default EmptyString (fs !! key_file) ++ key ++ NL]> fs)
  end.

(** The file of [p], when it exists, is empty or ends with ['\n']. *)
Definition key_file_terminated (fs : files) (p : string) : Prop :=
  match dict_get KEYS_CONFIG p with
  | None => True
  | Some cfg =>
      match fs !! file cfg with
      | None => True
      | Some content => ends_with_newline content = true
      end
  end.

(** ** The relational store ([Database.init_db]) *)

(** The tables the operations below use, with their columns; [hwid_resets]
    and [settings] are not embedded. *)

Module User.
Record row := {
  user_id : Z;
  username : string;
  balance : Q;
  total_spent : Q;
  total_earned : Q;
  is_reseller : bool;
  commission_rate : Q;
  reseller_code : option string;
  created_at : Z;
  last_activity : Z
}.
End User.

Module License.
Record row := {
  license_id : string;
  user_id : Z;
  product_type : string;
  product_name : option string;
  hwid : option string;
  hwid_limit : Z;
  created_at : Z;
  expires_at : Z;
  created_by : Z;
  is_active : bool
}.
End License.

Module Transaction.
Record row := {
  id : Z;
  user_id : Z;
  amount : Q;
  transaction_type : string;
  description : option string;
  created_at : Z
}.
End Transaction.

Module AdminLog.
Record row := {
  id : Z;
  admin_id : Z;
  admin_username : option string;
  action : string;
  target_user : option Z;
  target_license : option string;
  details : option string;
  created_at : Z
}.
End AdminLog.

Record DB := {
  users : list User.row;
  licenses : list License.row;
  transactions : list Transaction.row;
  admin_logs : list AdminLog.row
}.

(** [INTEGER PRIMARY KEY AUTOINCREMENT]: one more than the largest id; rows
    of these tables are never deleted. *)
Definition next_id (ids : list Z) : Z := (1 + fold_right Z.max 0 ids)%Z.

(** *** A connection: [async with aiosqlite.connect(self.db_path) as db] *)

(** [work] is what the statements of the connection see, [durable] what the
    last [commit] left on disk; [calls_left] is how many more calls succeed
    before the injected fault ([None]: no fault). *)
Record conn := {
  calls_left : option nat;
  work : DB;
  durable : DB
}.

Inductive outcome (A : Type) : Type :=
| Returned (a : A)
| Raised.
Arguments Returned {A} a.
Arguments Raised {A}.

Definition Sql (A : Type) : Type := conn -> outcome A * conn.

Definition sql_ret {A : Type} (a : A) : Sql A := fun c => (Returned a, c).

Definition sql_bind {A B : Type} (m : Sql A) (k : A -> Sql B) : Sql B :=
  fun c =>
    match m c with
    | (Returned a, c') => k a c'
    | (Raised, c') => (Raised, c')
    end.

Declare Scope sql_scope.
Delimit Scope sql_scope with sql.
Notation "x <- m ;; k" := (sql_bind m (fun x => k))
  (at level 100, m at next level, right associativity) : sql_scope.
Notation "m ;;; k" := (sql_bind m (fun _ => k))
  (at level 100, right associativity) : sql_scope.

(** [await db.execute(...)]: raises when the fault strikes or when the
    statement violates a constraint ([stmt] gives [None]). *)
Definition execute {A : Type} (stmt : DB -> option (A * DB)) : Sql A :=
  fun c =>
    match calls_left c with
    | Some O => (Raised, c)
    | budget =>
        match stmt (work c) with
        | None => (Raised, c)
        | Some (a, d) =>
            (Returned a, {| calls_left := Nat.pred <$> budget; work := d; durable := durable c |})
        end
    end.

(** [await db.commit()] *)
Definition commit : Sql unit :=
  fun c =>
    match calls_left c with
    | Some O => (Raised, c)
    | budget =>
        (Returned tt, {| calls_left := Nat.pred <$> budget; work := work c; durable := work c |})
    end.

(** The whole [async with] block.  Opening the connection is the first call
    that can raise; when the block is left, by its end or by an exception,
    the connection is closed and what was not committed is lost. *)
Definition connect {A : Type} (fault : option nat) (body : Sql A) (d : DB)
  : outcome A * DB :=
  match fault with
  | Some O => (Raised, d)
  | _ =>
      let '(r, c) := body {| calls_left := Nat.pred <$> fault; work := d; durable := d |} in
      (r, durable c)
  end.

(** A statement that reads. *)
Definition query {A : Type} (q : DB -> A) : DB -> option (A * DB) :=
  fun d => Some (q d, d).

(** A statement that writes and cannot fail. *)
Definition update (f : DB -> DB) : DB -> option (unit * DB) :=
  fun d => Some (tt, f d).

(** SQLite's [INTEGER] has 64 bits. *)
Definition fits_sqlite_integer (n : Z) : bool :=
  (- 2 ^ 63 <=? n)%Z && (n <? 2 ^ 63)%Z.

(** A statement with the Python [int] [n] among its parameters: when [n]
    does not fit, executing it raises [OverflowError]. *)
Definition binding {A : Type} (n : Z) (stmt : DB -> option (A * DB))
  : DB -> option (A * DB) :=
  fun d => if fits_sqlite_integer n then stmt d else None.

(** An exception that Python raises inside the block. *)
Definition sql_raise {A : Type} : Sql A := fun c => (Raised, c).

(** *** Statements *)

Definition Qltb (a b : Q) : bool := negb (Qle_bool b a).

Definition set_users (f : list User.row -> list User.row) (d : DB) : DB :=
  {| users := f (users d); licenses := licenses d;
     transactions := transactions d; admin_logs := admin_logs d |}.

Definition set_licenses (f : list License.row -> list License.row) (d : DB) : DB :=
  {| users := users d; licenses := f (licenses d);
     transactions := transactions d; admin_logs := admin_logs d |}.

Definition set_transactions (f : list Transaction.row -> list Transaction.row) (d : DB) : DB :=
  {| users := users d; licenses := licenses d;
     transactions := f (transactions d); admin_logs := admin_logs d |}.

Definition set_admin_logs (f : list AdminLog.row -> list AdminLog.row) (d : DB) : DB :=
  {| users := users d; licenses := licenses d;
     transactions := transactions d; admin_logs := f (admin_logs d) |}.

(** [UPDATE users SET ... WHERE user_id = ?] *)
Definition update_user (user_id : Z) (f : User.row -> User.row) : DB -> DB :=
  set_users (map (fun r => if (User.user_id r =? user_id)%Z then f r else r)).

(** [balance = balance + ?], and likewise for the two totals: exact here,
    where SQLite rounds the sum to a double. *)
Definition add_balance (amount : Q) (r : User.row) : User.row :=
  {| User.user_id := User.user_id r; User.username := User.username r;
     User.balance := User.balance r + amount;
     User.total_spent := User.total_spent r; User.total_earned := User.total_earned r;
     User.is_reseller := User.is_reseller r; User.commission_rate := User.commission_rate r;
     User.reseller_code := User.reseller_code r; User.created_at := User.created_at r;
     User.last_activity := User.last_activity r |}.

Definition add_total_earned (amount : Q) (r : User.row) : User.row :=
  {| User.user_id := User.user_id r; User.username := User.username r;
     User.balance := User.balance r;
     User.total_spent := User.total_spent r;
     User.total_earned := User.total_earned r + amount;
     User.is_reseller := User.is_reseller r; User.commission_rate := User.commission_rate r;
     User.reseller_code := User.reseller_code r; User.created_at := User.created_at r;
     User.last_activity := User.last_activity r |}.

Definition add_total_spent (amount : Q) (r : User.row) : User.row :=
  {| User.user_id := User.user_id r; User.username := User.username r;
     User.balance := User.balance r;
     User.total_spent := User.total_spent r + amount;
     User.total_earned := User.total_earned r;
     User.is_reseller := User.is_reseller r; User.commission_rate := User.commission_rate r;
     User.reseller_code := User.reseller_code r; User.created_at := User.created_at r;
     User.last_activity := User.last_activity r |}.

Definition set_last_activity (now : Z) (r : User.row) : User.row :=
  {| User.user_id := User.user_id r; User.username := User.username r;
     User.balance := User.balance r;
     User.total_spent := User.total_spent r; User.total_earned := User.total_earned r;
     User.is_reseller := User.is_reseller r; User.commission_rate := User.commission_rate r;
     User.reseller_code := User.reseller_code r; User.created_at := User.created_at r;
     User.last_activity := now |}.

(** [SELECT * FROM users WHERE user_id = ?], [fetchone] *)
Definition select_user (user_id : Z) (d : DB) : option User.row :=
  find (fun r => (User.user_id r =? user_id)%Z) (users d).

(** [INSERT OR IGNORE INTO users (user_id, username) VALUES (?, ?)]: the
    other columns take their defaults; a taken [user_id] is ignored. *)
Definition insert_or_ignore_user (now user_id : Z) (username : string) (d : DB) : DB :=
  match select_user user_id d with
  | Some _ => d
  | None =>
      set_users (fun us => us ++
        [{| User.user_id := user_id; User.username := username;
            User.balance := 0; User.total_spent := 0; User.total_earned := 0;
            User.is_reseller := false; User.commission_rate := 0;
            User.reseller_code := None; User.created_at := now;
            User.last_activity := now |}])%list d
  end.

(** The row that [INSERT INTO transactions (user_id, amount,
    transaction_type, description) VALUES (?, ?, ?, ?)] adds to the rows
    [ts]: [id] and [created_at] take their defaults. *)
Definition transaction_row (ts : list Transaction.row) (now user_id : Z) (amount : Q)
    (transaction_type : string) (description : option string) : Transaction.row :=
  {| Transaction.id := next_id (map Transaction.id ts);
     Transaction.user_id := user_id; Transaction.amount := amount;
     Transaction.transaction_type := transaction_type;
     Transaction.description := description;
     Transaction.created_at := now |}.

Definition insert_transaction (now user_id : Z) (amount : Q)
    (transaction_type : string) (description : option string) : DB -> DB :=
  set_transactions (fun ts =>
    ts ++ [transaction_row ts now user_id amount transaction_type description])%list.

(** [SELECT * FROM licenses WHERE license_id = ?], [fetchone] *)
Definition select_license (license_id : string) (d : DB) : option License.row :=
  find (fun r => String.eqb (License.license_id r) license_id) (licenses d).

(** [SELECT * FROM licenses WHERE license_id = ? AND user_id = ?] *)
Definition select_license_of (license_id : string) (user_id : Z) (d : DB)
  : option License.row :=
  find (fun r => String.eqb (License.license_id r) license_id
                 && (License.user_id r =? user_id)%Z) (licenses d).

(** The row that [INSERT INTO licenses (license_id, user_id, product_type,
    product_name, hwid_limit, expires_at, created_by) VALUES (...)] adds:
    [hwid], [created_at] and [is_active] take their defaults. *)
Definition license_row (now : Z) (license_id : string) (user_id : Z)
    (product_type : string) (product_name : option string) (hwid_limit expires_at
    created_by : Z) : License.row :=
  {| License.license_id := license_id; License.user_id := user_id;
     License.product_type := product_type;
     License.product_name := product_name; License.hwid := None;
     License.hwid_limit := hwid_limit; License.created_at := now;
     License.expires_at := expires_at; License.created_by := created_by;
     License.is_active := true |}.

(** [license_id] is the primary key: a second row with the same one is
    refused. *)
Definition insert_license (now : Z) (license_id : string) (user_id : Z)
    (product_type : string) (product_name : option string) (hwid_limit expires_at
    created_by : Z) (d : DB) : option (unit * DB) :=
  match select_license license_id d with
  | Some _ => None
  | None =>
      Some (tt, set_licenses (fun ls =>
        ls ++ [license_row now license_id user_id product_type product_name
                 hwid_limit expires_at created_by])%list d)
  end.

(** [DELETE FROM licenses WHERE license_id = ? AND user_id = ?] *)
Definition delete_license_row (license_id : string) (user_id : Z) : DB -> DB :=
  set_licenses (filter (fun r => ~ (License.license_id r = license_id
                                    /\ License.user_id r = user_id))).

Definition set_inactive (r : License.row) : License.row :=
  {| License.license_id := License.license_id r; License.user_id := License.user_id r;
     License.product_type := License.product_type r;
     License.product_name := License.product_name r; License.hwid := License.hwid r;
     License.hwid_limit := License.hwid_limit r; License.created_at := License.created_at r;
     License.expires_at := License.expires_at r; License.created_by := License.created_by r;
     License.is_active := false |}.

(** [SELECT COUNT( * ) FROM licenses WHERE expires_at <= CURRENT_TIMESTAMP
    AND is_active = TRUE] *)
Definition count_expired_active (now : Z) (d : DB) : Z :=
  Z.of_nat (length (filter (fun r => (License.expires_at r <= now)%Z
                                     /\ License.is_active r = true) (licenses d))).

(** [UPDATE licenses SET is_active = FALSE WHERE expires_at <=
    CURRENT_TIMESTAMP] *)
Definition deactivate_expired (now : Z) : DB -> DB :=
  set_licenses (map (fun r => if (License.expires_at r <=? now)%Z
                              then set_inactive r else r)).

(** [ORDER BY created_at DESC] over the rows in rowid order.  SQL leaves the
    order of rows with equal [created_at] open; SQLite returns them in the
    order of the scan, which this stable insertion reproduces. *)
Fixpoint insert_desc (t : Transaction.row) (sorted : list Transaction.row)
  : list Transaction.row :=
  match sorted with
  | [] => [t]
  | x :: rest =>
      if (Transaction.created_at x <? Transaction.created_at t)%Z
      then t :: sorted
      else x :: insert_desc t rest
  end.

Definition order_by_created_at_desc (rows : list Transaction.row)
  : list Transaction.row :=
  fold_left (fun sorted t => insert_desc t sorted) rows [].

(** [LIMIT ?]: a negative limit is no limit. *)
Definition sql_limit {A : Type} (limit : Z) (rows : list A) : list A :=
  if (limit <? 0)%Z then rows else firstn (Z.to_nat limit) rows.

(** [INSERT INTO admin_logs (admin_id, action, target_user, target_license,
    details) VALUES (?, ?, ?, ?, ?)] *)
Definition insert_admin_log (now admin_id : Z) (action : string)
    (target_user : option Z) (target_license details : option string) : DB -> DB :=
  set_admin_logs (fun ls => ls ++
    [{| AdminLog.id := next_id (map AdminLog.id ls); AdminLog.admin_id := admin_id;
        AdminLog.admin_username := None; AdminLog.action := action;
        AdminLog.target_user := target_user; AdminLog.target_license := target_license;
        AdminLog.details := details; AdminLog.created_at := now |}])%list.

(** ** [Database]: user, license, transaction and admin operations *)

(** Every method takes the fault of its connection and the clock reading of
    each of its statements that reads the clock; [except Exception] turns
    [Raised] into the method's failure value. *)

Local Open Scope sql_scope.

Definition create_user (d : DB) (fault : option nat) (now user_id : Z)
    (username : string) : bool * DB :=
  let '(r, d') := connect fault
    (execute (binding user_id (update (insert_or_ignore_user now user_id username))) ;;;
     commit ;;;
     sql_ret true) d in
  (match r with Returned b => b | Raised => false end, d').

Definition get_user (d : DB) (fault : option nat) (user_id : Z) : option User.row :=
  let '(r, _) := connect fault
    (row <- execute (binding user_id (query (select_user user_id))) ;;
     sql_ret row) d in
  match r with Returned row => row | Raised => None end.

Definition update_user_activity (d : DB) (fault : option nat) (now user_id : Z)
  : bool * DB :=
  let '(r, d') := connect fault
    (execute (binding user_id (update (update_user user_id (set_last_activity now)))) ;;;
     commit ;;;
     sql_ret true) d in
  (match r with Returned b => b | Raised => false end, d').

Definition update_balance (d : DB) (fault : option nat) (now user_id : Z)
    (amount : Q) (transaction_type : string) (description : option string)
  : bool * DB :=
  let '(r, d') := connect fault
    (execute (binding user_id (update (update_user user_id (add_balance amount)))) ;;;
     execute (update (insert_transaction now user_id amount transaction_type description)) ;;;
     (if Qltb 0 amount
      then execute (update (update_user user_id (add_total_earned amount)))
      else execute (update (update_user user_id (add_total_spent (Qabs amount))))) ;;;
     commit ;;;
     sql_ret true) d in
  (match r with Returned b => b | Raised => false end, d').

(** What differs between two rows of [users] apart from the balance and the
    two totals: nothing. *)
Definition same_user_apart_from_amounts (r r' : User.row) : Prop :=
  User.user_id r' = User.user_id r /\ User.username r' = User.username r
  /\ User.is_reseller r' = User.is_reseller r
  /\ User.commission_rate r' = User.commission_rate r
  /\ User.reseller_code r' = User.reseller_code r
  /\ User.created_at r' = User.created_at r
  /\ User.last_activity r' = User.last_activity r.

Definition get_license_by_id (d : DB) (fault : option nat) (license_id : string)
  : option License.row :=
  let '(r, _) := connect fault
    (row <- execute (query (select_license license_id)) ;;
     sql_ret row) d in
  match r with Returned row => row | Raised => None end.

Definition get_user_transactions (d : DB) (fault : option nat) (user_id limit : Z)
  : list Transaction.row :=
  let '(r, _) := connect fault
    (rows <- execute (query (fun d =>
       sql_limit limit (order_by_created_at_desc
         (filter (fun t => Transaction.user_id t = user_id) (transactions d))))) ;;
     sql_ret rows) d in
  match r with Returned rows => rows | Raised => [] end.

Definition log_admin_action (d : DB) (fault : option nat) (now admin_id : Z)
    (action : string) (target_user : option Z) (target_license details : option string)
  : bool * DB :=
  let '(r, d') := connect fault
    (execute (update (insert_admin_log now admin_id action target_user target_license details)) ;;;
     commit ;;;
     sql_ret true) d in
  (match r with Returned b => b | Raised => false end, d').

(** [cleanup_expired_licenses]: the [SELECT COUNT] and the [UPDATE] are two
    statements, each with its own reading of [CURRENT_TIMESTAMP]. *)
Definition cleanup_expired_licenses (d : DB) (fault : option nat)
    (count_now update_now : Z) : Z * DB :=
  let '(r, d') := connect fault
    (count <- execute (query (count_expired_active count_now)) ;;
     execute (update (deactivate_expired update_now)) ;;;
     commit ;;;
     sql_ret count) d in
  (match r with Returned count => count | Raised => 0%Z end, d').

(** The key files and the database together. *)
Record state := {
  fs : files;
  db : DB
}.

Definition microseconds_per_day : Z := 86400000000.

(** [datetime.max], 9999-12-31 23:59:59.999999. *)
Definition datetime_max : Z := 3652059 * microseconds_per_day - 1.

(** [datetime.datetime.now() + datetime.timedelta(days=duration_days)], at
    the reading [datetime_now] of Python's clock: [None] for the
    [OverflowError] of a [timedelta] of more than 999999999 days or of a
    date out of range. *)
Definition expiry (datetime_now duration_days : Z) : option Z :=
  if (Z.abs duration_days <=? 999999999)%Z then
    let expires_at := (datetime_now + microseconds_per_day * duration_days)%Z in
    if (0 <=? expires_at)%Z && (expires_at <=? datetime_max)%Z
    then Some expires_at else None
  else None.

(** [create_license]: the key is taken before the connection is opened; the
    handler returns it, [license_id] being bound whenever the [try] block got
    past its first statement.  [created_at] is the [CURRENT_TIMESTAMP] of the
    [INSERT], [now]; [expires_at] comes from Python's clock. *)
Definition create_license (s : state) (fault : option nat) (now datetime_now user_id : Z)
    (product_type : string) (duration_days created_by hwid_limit : Z)
    (product_name : option string) : option string * state :=
  let '(taken, fs1) := get_available_key (fs s) product_type in
  match taken with
  | None => (None, {| fs := fs1; db := db s |})
  | Some license_id =>
      if negb (truthy license_id) then (None, {| fs := fs1; db := db s |})
      else
        let '(r, d') := connect fault
          (match expiry datetime_now duration_days with
           | None => sql_raise
           | Some expires_at =>
               execute (binding user_id (binding hwid_limit (binding created_by
                 (insert_license now license_id user_id product_type product_name
                    hwid_limit expires_at created_by)))) ;;;
               commit ;;;
               sql_ret license_id
           end) (db s) in
        match r with
        | Returned id => (Some id, {| fs := fs1; db := d' |})
        | Raised =>
            let '(_, fs2) := return_key fs1 product_type license_id in
            (None, {| fs := fs2; db := d' |})
        end
  end.

(** [delete_license]: after its commit, and still inside the [async with]
    block, the method itself returns the key of the deleted row to the
    stock. *)
Definition delete_license (s : state) (fault : option nat) (license_id : string)
    (user_id : Z) : bool * state :=
  let '(r, d') := connect fault
    (license_data <- execute (query (select_license_of license_id user_id)) ;;
     match license_data with
     | None => sql_ret None
     | Some row =>
         execute (update (delete_license_row license_id user_id)) ;;;
         commit ;;;
         sql_ret (Some row)
     end) (db s) in
  match r with
  | Returned (Some license_data) =>
      let '(_, fs') := return_key (fs s) (License.product_type license_data) license_id in
      (true, {| fs := fs'; db := d' |})
  | Returned None => (false, {| fs := fs s; db := d' |})
  | Raised => (false, {| fs := fs s; db := d' |})
  end.

(** ** bot.py: the purchase and delete flows *)

(** The faults of the two connections of [ensure_user_exists]. *)
Record ensure_faults := {
  create_user_fault : option nat;
  update_user_activity_fault : option nat
}.

(** The clock readings of the two statements of [ensure_user_exists]. *)
Record ensure_clocks := {
  create_user_now : Z;
  update_user_activity_now : Z
}.

Definition ensure_user_exists (d : DB) (faults : ensure_faults) (clocks : ensure_clocks)
    (user_id : Z) (username : string) : DB :=
  let '(_, d1) := create_user d (create_user_fault faults) (create_user_now clocks)
                    user_id username in
  let '(_, d2) := update_user_activity d1 (update_user_activity_fault faults)
                    (update_user_activity_now clocks) user_id in
  d2.

(** What the nested class [PurchaseView] captures from the [purchase]
    command that builds it. *)
Module PurchaseView.
Record t := {
  interaction_user_id : Z;
  user_data : User.row;
  product_type : string;
  product : product;
  reseller_price : Q;
  commission : Q;
  target_user_id : Z;
  target_username : string
}.
End PurchaseView.

Inductive purchase_reply : Type :=
| Unauthorized_Access
| Invalid_Product
| Out_of_Stock
| Insufficient_Balance
| Invalid_User_ID
| Purchase_Confirmation (view : PurchaseView.t).

Inductive purchase_click : Type :=
| Only_the_command_user
| Purchase_Failed
| Payment_Failed
| Purchase_Successful (license_id : string).

Module DeleteConfirmView.
Record t := {
  interaction_user_id : Z;
  license_id : string;
  license_data : License.row;
  reason : string
}.
End DeleteConfirmView.

Inductive deletelicense_reply : Type :=
| Delete_Unauthorized_Access
| License_Not_Found
| Deletion_Confirmation (view : DeleteConfirmView.t).

Inductive delete_click : Type :=
| Only_the_command_admin
| License_Deleted
| Deletion_Failed.

Section Bot.

(** Python's and Discord's part: [int(user_id)] ([None] for [ValueError]),
    [str] of an integer, the [:.2f] format of an amount, and the display
    name the client's cache holds for a user id ([bot.get_user]). *)
Variable int_of_str : string -> option Z.
Variable str_of_int : Z -> string.
Variable format_money : Q -> string.
Variable cached_display_name : Z -> option string.

(** Python's [*], [-] and [<] on floats: the operations of IEEE doubles, on
    the numbers the doubles denote. *)
Variable float_mul : Q -> Q -> Q.
Variable float_sub : Q -> Q -> Q.
Variable float_lt : Q -> Q -> bool.

(** The [/purchase] command, up to the confirmation message it sends. *)
Definition purchase (s : state) (faults : ensure_faults) (get_user_fault : option nat)
    (clocks : ensure_clocks) (interaction_user_id : Z)
    (interaction_user_display_name : string)
    (product_type : string) (user_id : option string) : purchase_reply * state :=
  let d := ensure_user_exists (db s) faults clocks interaction_user_id
             interaction_user_display_name in
  let s1 := {| fs := fs s; db := d |} in
  match get_user d get_user_fault interaction_user_id with
  | None => (Unauthorized_Access, s1)
  | Some user_data =>
      if negb (User.is_reseller user_data) then (Unauthorized_Access, s1)
      else
        match dict_get PRODUCTS product_type with
        | None => (Invalid_Product, s1)
        | Some product =>
            let original_price := price product in
            let reseller_price :=
              float_mul original_price (float_sub 1 (User.commission_rate user_data)) in
            let commission := float_sub original_price reseller_price in
            let key_count := get_key_count (fs s1) product_type in
            if (key_count <=? 0)%Z then (Out_of_Stock, s1)
            else if float_lt (User.balance user_data) reseller_price
            then (Insufficient_Balance, s1)
            else
              let confirmation target_user_id target_username :=
                (Purchase_Confirmation
                   {| PurchaseView.interaction_user_id := interaction_user_id;
                      PurchaseView.user_data := user_data;
                      PurchaseView.product_type := product_type;
                      PurchaseView.product := product;
                      PurchaseView.reseller_price := reseller_price;
                      PurchaseView.commission := commission;
                      PurchaseView.target_user_id := target_user_id;
                      PurchaseView.target_username := target_username |}, s1) in
              match user_id with
              | Some (String c rest) =>
                  match int_of_str (String c rest) with
                  | None => (Invalid_User_ID, s1)
                  | Some target_user_id =>
                      confirmation target_user_id
                        (default ("User " ++ str_of_int target_user_id)
                                 (cached_display_name target_user_id))
                  end
              | _ => confirmation interaction_user_id interaction_user_display_name
              end
        end
  end.

(** [PurchaseView.purchase], the handler of the Purchase button, with the
    clock readings of the calls it makes.  The direct message to the target
    user has no effect on the state. *)
Definition PurchaseView_purchase (s : state) (view : PurchaseView.t)
    (button_user_id : Z) (faults : ensure_faults)
    (create_license_fault update_balance_fault log_admin_action_fault : option nat)
    (clocks : ensure_clocks)
    (create_license_now datetime_now update_balance_now log_admin_action_now : Z)
  : purchase_click * state :=
  if negb (button_user_id =? PurchaseView.interaction_user_id view)%Z
  then (Only_the_command_user, s)
  else
    let target_user_id := PurchaseView.target_user_id view in
    let product_type := PurchaseView.product_type view in
    let product := PurchaseView.product view in
    let reseller_price := PurchaseView.reseller_price view in
    let d1 := ensure_user_exists (db s) faults clocks target_user_id
                (PurchaseView.target_username view) in
    let '(license_id, s2) :=
      create_license {| fs := fs s; db := d1 |} create_license_fault create_license_now
        datetime_now target_user_id product_type (duration product)
        (PurchaseView.interaction_user_id view) 1 (Some (name product)) in
    match license_id with
    | None => (Purchase_Failed, s2)
    | Some license_id =>
        if negb (truthy license_id) then (Purchase_Failed, s2)
        else
          let '(success, d3) :=
            update_balance (db s2) update_balance_fault update_balance_now
              (PurchaseView.interaction_user_id view) (- reseller_price)%Q "purchase"
              (Some ("Reseller purchase: " ++ name product ++ " for user "
                     ++ str_of_int target_user_id)) in
          if negb success then
            let '(_, fs4) := return_key (fs s2) product_type license_id in
            (Payment_Failed, {| fs := fs4; db := d3 |})
          else
            let '(_, d5) :=
              log_admin_action d3 log_admin_action_fault log_admin_action_now
                (PurchaseView.interaction_user_id view) "reseller_purchase"
                (Some target_user_id) (Some license_id)
                (Some ("Product: " ++ product_type ++ ", Price: "
                       ++ format_money reseller_price)) in
            (Purchase_Successful license_id, {| fs := fs s2; db := d5 |})
    end.

(** The [/deletelicense] command, up to its confirmation message. *)
Definition deletelicense (s : state) (get_license_fault : option nat)
    (interaction_user_id : Z) (license_id reason : string) : deletelicense_reply :=
  if negb (bool_decide (interaction_user_id ∈ ADMIN_IDS)) then Delete_Unauthorized_Access
  else
    match get_license_by_id (db s) get_license_fault license_id with
    | None => License_Not_Found
    | Some license_data =>
        Deletion_Confirmation
          {| DeleteConfirmView.interaction_user_id := interaction_user_id;
             DeleteConfirmView.license_id := license_id;
             DeleteConfirmView.license_data := license_data;
             DeleteConfirmView.reason := reason |}
    end.

(** [DeleteConfirmView.confirm_delete], the handler of the Delete button. *)
Definition DeleteConfirmView_confirm_delete (s : state) (view : DeleteConfirmView.t)
    (button_user_id : Z) (delete_license_fault log_admin_action_fault : option nat)
    (now : Z) : delete_click * state :=
  if negb (button_user_id =? DeleteConfirmView.interaction_user_id view)%Z
  then (Only_the_command_admin, s)
  else
    let license_id := DeleteConfirmView.license_id view in
    let license_data := DeleteConfirmView.license_data view in
    let '(success, s1) :=
      delete_license s delete_license_fault license_id (License.user_id license_data) in
    if success then
      let '(_, d2) :=
        log_admin_action (db s1) log_admin_action_fault now
          (DeleteConfirmView.interaction_user_id view) "license_delete"
          (Some (License.user_id license_data)) (Some license_id)
          (Some ("Reason: " ++ DeleteConfirmView.reason view)) in
      (License_Deleted, {| fs := fs s1; db := d2 |})
    else (Deletion_Failed, s1).

End Bot.

(** ** Vocabulary of the statements *)

(** The number of rows that are active in [before] and inactive at the same
    place in [after]. *)
Definition transitioned (before after : list License.row) : Z :=
  Z.of_nat (length (filter (fun rr => License.is_active (fst rr) = true
                                      /\ License.is_active (snd rr) = false)
                           (combine before after))).

(** [n] calls of [get_available_key] one after the other, with what each
    returned. *)
Fixpoint take_many (n : nat) (fs : files) (product_type : string)
  : list (option string) * files :=
  match n with
  | O => ([], fs)
  | S n' =>
      let '(taken, fs1) := get_available_key fs product_type in
      let '(rest, fs2) := take_many n' fs1 product_type in
      (taken :: rest, fs2)
  end.

(** ** Sample states, for the examples *)

(** Key files in which only the file of ["val1week"] exists. *)
Definition val1week_files (content : string) : files :=
  <["keys/val1week_keys.txt" := content]> ∅.

(** A reseller with a balance of 1000 and a commission rate of 20%, as
    [setup_database.py] creates one. *)
Definition sample_reseller : User.row :=
  {| User.user_id := 7; User.username := "Admin"; User.balance := 1000;
     User.total_spent := 0; User.total_earned := 1000; User.is_reseller := true;
     User.commission_rate := 1 # 5; User.reseller_code := Some "RSLSAMPLE01";
     User.created_at := 0; User.last_activity := 0 |}.

Definition sample_db : DB :=
  {| users := [sample_reseller]; licenses := []; transactions := []; admin_logs := [] |}.

(** Two keys in stock for ["val1week"]. *)
Definition sample_state : state :=
  {| fs := val1week_files ("K1" ++ NL ++ "K2" ++ NL); db := sample_db |}.

Definition no_faults : ensure_faults :=
  {| create_user_fault := None; update_user_activity_fault := None |}.

(** The two statements of [ensure_user_exists] read the same second. *)
Definition ensure_at (now : Z) : ensure_clocks :=
  {| create_user_now := now; update_user_activity_now := now |}.

(** What [/purchase val1week] captures for the sample reseller at clock
    reading 100: a price of 100 * (1 - 1/5). *)
Definition sample_view : PurchaseView.t :=
  {| PurchaseView.interaction_user_id := 7;
     PurchaseView.user_data := set_last_activity 100 sample_reseller;
     PurchaseView.product_type := "val1week";
     PurchaseView.product :=
       {| name := "Valorant 1 Week License"; price := 100; duration := 7;
          description := "Valorant 1 Week Access" |};
     PurchaseView.reseller_price := 100 * (1 - (1 # 5));
     PurchaseView.commission := 100 - 100 * (1 - (1 # 5));
     PurchaseView.target_user_id := 7;
     PurchaseView.target_username := "Admin" |}.

(** The license of key ["K9"] issued to user 7, while ["K1"] is in stock. *)
Definition sample_issued_state : state :=
  {| fs := val1week_files ("K1" ++ NL);
     db := {| users := [sample_reseller];
              licenses := [license_row 50 "K9" 7 "val1week" None 1 604850 7];
              transactions := []; admin_logs := [] |} |}.

(** The same reseller with a balance of 50. *)
Definition sample_poor_reseller : User.row :=
  {| User.user_id := 7; User.username := "Admin"; User.balance := 50;
     User.total_spent := 0; User.total_earned := 50; User.is_reseller := true;
     User.commission_rate := 1 # 5; User.reseller_code := Some "RSLSAMPLE01";
     User.created_at := 0; User.last_activity := 0 |}.

Definition sample_poor_state : state :=
  {| fs := val1week_files ("K1" ++ NL ++ "K2" ++ NL);
     db := {| users := [sample_poor_reseller]; licenses := [];
              transactions := []; admin_logs := [] |} |}.

(** A reseller with a commission rate of 25% and a balance of 100, enough
    for one ["val1week"] license at 75 and not for two.  On these amounts
    the operations of doubles are exact. *)
Definition sample_tight_reseller : User.row :=
  {| User.user_id := 7; User.username := "Admin"; User.balance := 100;
     User.total_spent := 0; User.total_earned := 100; User.is_reseller := true;
     User.commission_rate := 1 # 4; User.reseller_code := Some "RSLSAMPLE01";
     User.created_at := 0; User.last_activity := 0 |}.

Definition sample_tight_state : state :=
  {| fs := val1week_files ("K1" ++ NL ++ "K2" ++ NL);
     db := {| users := [sample_tight_reseller]; licenses := [];
              transactions := []; admin_logs := [] |} |}.

(** One active license, which expires half a second after the clock
    reading 1000000 (one second). *)
Definition sample_expiring_db : DB :=
  {| users := [sample_reseller];
     licenses := [license_row 0 "K9" 7 "val1week" None 1 1500000 7];
     transactions := []; admin_logs := [] |}.

(** ** The rest of the key management *)

(** [ensure_key_files]: every product whose file is missing gets an empty
    one ([os.makedirs] has no effect on the files). *)
Definition ensure_key_files (fs : files) : files :=
  fold_left
    (fun fs entry =>
       let key_file := file (snd entry) in
       match fs !! key_file with
       | Some _ => fs
       | None => <[key_file := EmptyString]> fs
       end)
    KEYS_CONFIG fs.

(** [s.split('\n')] *)
Fixpoint split_LF (s : string) : list string :=
  match s with
  | EmptyString => [EmptyString]
  | String c s' =>
      if Ascii.eqb c LF then EmptyString :: split_LF s'
      else match split_LF s' with
           | [] => [String c EmptyString]
           | piece :: pieces => String c piece :: pieces
           end
  end.

(** [[key.strip() for key in keys.split('\n') if key.strip()]] of the
    [/addkeys] command. *)
Definition addkeys_key_list (keys : string) : list string :=
  map strip (filter (fun key => truthy (strip key) = true) (split_LF keys)).

(** The loop of [/addkeys] over [key_list], with its two counters. *)
Fixpoint addkeys_loop (fs : files) (product_type : string) (key_list : list string)
    (added_count duplicate_count : Z) : files * Z * Z :=
  match key_list with
  | [] => (fs, added_count, duplicate_count)
  | key :: rest =>
      let '(success, fs') := add_key fs product_type key in
      if success
      then addkeys_loop fs' product_type rest (added_count + 1)%Z duplicate_count
      else addkeys_loop fs' product_type rest added_count (duplicate_count + 1)%Z
  end.

Inductive addkeys_reply : Type :=
| Addkeys_Unauthorized_Access
| Addkeys_Invalid_Input
| Key_Addition_Complete (added_count duplicate_count new_stock : Z)
| Addkeys_KeyError.

Section AddKeys.

Variable str_of_int : Z -> string.

(** The [/addkeys] command.  The reply is built after the log entry is
    written; [PRODUCTS[product_type]] raises [KeyError] for a product that
    is not in the catalogue. *)
Definition addkeys (s : state) (log_admin_action_fault : option nat)
    (now interaction_user_id : Z) (product_type keys : string)
  : addkeys_reply * state :=
  if negb (bool_decide (interaction_user_id ∈ ADMIN_IDS))
  then (Addkeys_Unauthorized_Access, s)
  else
    let key_list := addkeys_key_list keys in
    match key_list with
    | [] => (Addkeys_Invalid_Input, s)
    | _ :: _ =>
        let '(fs', added_count, duplicate_count) :=
          addkeys_loop (fs s) product_type key_list 0 0 in
        let '(_, d') :=
          log_admin_action (db s) log_admin_action_fault now interaction_user_id
            "keys_added" None None
            (Some ("Product: " ++ product_type ++ ", Added: " ++ str_of_int added_count
                   ++ ", Duplicates: " ++ str_of_int duplicate_count)) in
        let s' := {| fs := fs'; db := d' |} in
        match dict_get PRODUCTS product_type with
        | None => (Addkeys_KeyError, s')
        | Some _ =>
            (Key_Addition_Complete added_count duplicate_count
               (get_key_count fs' product_type), s')
        end
    end.

End AddKeys.

(** ** The rest of the reads of [Database] *)

(** [ORDER BY col DESC] over the rows in rowid order, for any table; rows
    with equal [col] stay in the order of the scan. *)
Fixpoint insert_by_desc {A : Type} (col : A -> Z) (x : A) (sorted : list A) : list A :=
  match sorted with
  | [] => [x]
  | y :: rest =>
      if (col y <? col x)%Z then x :: sorted else y :: insert_by_desc col x rest
  end.

Definition order_by_desc {A : Type} (col : A -> Z) (rows : list A) : list A :=
  fold_left (fun sorted x => insert_by_desc col x sorted) rows [].

(** [get_user_licenses]: with [include_expired] every license of the user,
    without it those with [expires_at > CURRENT_TIMESTAMP]; [is_active] is
    not looked at. *)
Definition get_user_licenses (d : DB) (fault : option nat) (now user_id : Z)
    (include_expired : bool) : list License.row :=
  let '(r, _) := connect fault
    (rows <-
       (if include_expired
        then execute (query (fun d =>
               order_by_desc License.created_at
                 (filter (fun r => License.user_id r = user_id) (licenses d))))
        else execute (query (fun d =>
               order_by_desc License.created_at
                 (filter (fun r => License.user_id r = user_id
                                   /\ (now < License.expires_at r)%Z) (licenses d))))) ;;
     sql_ret rows) d in
  match r with Returned rows => rows | Raised => [] end.

Definition get_admin_logs (d : DB) (fault : option nat) (limit : Z) : list AdminLog.row :=
  let '(r, _) := connect fault
    (rows <- execute (query (fun d =>
       sql_limit limit (order_by_desc AdminLog.created_at (admin_logs d)))) ;;
     sql_ret rows) d in
  match r with Returned rows => rows | Raised => [] end.

(** The dict [get_bot_statistics] returns. *)
Module Statistics.
Record t := {
  total_users : Z;
  total_resellers : Z;
  active_licenses : Z;
  total_licenses : Z;
  monthly_licenses : Z;
  total_revenue : Q;
  monthly_revenue : Q
}.
End Statistics.

(** [SELECT COUNT( * ) FROM t WHERE ...] *)
Definition count_where {A : Type} (P : A -> Prop) `{forall x, Decision (P x)}
    (rows : list A) : Z :=
  Z.of_nat (length (filter P rows)).

(** [SELECT SUM(ABS(amount)) FROM transactions WHERE ...], with
    [result[0] if result[0] else 0.0]: the sum over no row is 0.  The sum is
    exact here, where SQLite rounds; what is proved about it are its sign
    and comparisons between sums. *)
Definition sum_abs_amount (rows : list Transaction.row) : Q :=
  fold_right (fun t acc => (Qabs (Transaction.amount t) + acc)%Q) 0%Q rows.

(** [get_bot_statistics]; [month_start] is what [date('now', 'start of
    month')] gives at the clock reading [now].  An exception gives the empty
    dict, [None]. *)
Definition get_bot_statistics (d : DB) (fault : option nat) (now month_start : Z)
  : option Statistics.t :=
  let '(r, _) := connect fault
    (total_users <- execute (query (fun d => count_where (fun _ => True) (users d))) ;;
     total_resellers <- execute (query (fun d =>
       count_where (fun r => User.is_reseller r = true) (users d))) ;;
     active_licenses <- execute (query (fun d =>
       count_where (fun r => (now < License.expires_at r)%Z) (licenses d))) ;;
     total_licenses <- execute (query (fun d =>
       count_where (fun _ => True) (licenses d))) ;;
     monthly_licenses <- execute (query (fun d =>
       count_where (fun r => (month_start <= License.created_at r)%Z) (licenses d))) ;;
     total_revenue <- execute (query (fun d =>
       sum_abs_amount
         (filter (fun t => Transaction.transaction_type t = "purchase")
                 (transactions d)))) ;;
     monthly_revenue <- execute (query (fun d =>
       sum_abs_amount
         (filter (fun t => Transaction.transaction_type t = "purchase"
                           /\ (month_start <= Transaction.created_at t)%Z)
                 (transactions d)))) ;;
     sql_ret {| Statistics.total_users := total_users;
                Statistics.total_resellers := total_resellers;
                Statistics.active_licenses := active_licenses;
                Statistics.total_licenses := total_licenses;
                Statistics.monthly_licenses := monthly_licenses;
                Statistics.total_revenue := total_revenue;
                Statistics.monthly_revenue := monthly_revenue |}) d in
  match r with Returned stats => Some stats | Raised => None end.

(** Each operation on the files of a product leaves the key files as they
    were or writes the file of that product. *)
Definition writes_only_file_of (p : string) (fs fs' : files) : Prop :=
  fs' = fs \/ exists cfg content,
    dict_get KEYS_CONFIG p = Some cfg /\ fs' = <[file cfg := content]> fs.

(** ** [make_reseller] *)

(** [string.ascii_uppercase + string.digits] *)
Definition reseller_code_chars : string := "ABCDEFGHIJKLMNOPQRSTUVWXYZ0123456789".

(** [random.choice(chars)]: an element of [chars]; the draw of the
    generator is a number, taken modulo the length. *)
Definition random_choice (chars : string) (draw : nat) : ascii :=
  match String.get (draw mod String.length chars) chars with
  | Some c => c
  | None => "000"%char
  end.

(** [''.join(random.choice(chars) for _ in range(n))]: the generator is the
    sequence [rng] of its draws, read from position [pos]. *)
Fixpoint random_chars (rng : nat -> nat) (pos n : nat) : string :=
  match n with
  | O => EmptyString
  | S n' => String (random_choice reseller_code_chars (rng pos)) (random_chars rng (S pos) n')
  end.

Definition generate_reseller_code (rng : nat -> nat) (pos : nat) : string :=
  "RSL" ++ random_chars rng pos 8.

(** The [while True] loop of [make_reseller]: codes are drawn until one is
    held by no user.  [attempts] bounds the rounds that are run; [None]
    stands for a loop that has not ended within them. *)
Fixpoint unique_reseller_code (rng : nat -> nat) (attempts pos : nat)
  : Sql (option string) :=
  match attempts with
  | O => sql_ret None
  | S attempts' =>
      let reseller_code := generate_reseller_code rng pos in
      count <- execute (query (fun d =>
        count_where (fun r => User.reseller_code r = Some reseller_code) (users d))) ;;
      if (count =? 0)%Z then sql_ret (Some reseller_code)
      else unique_reseller_code rng attempts' (pos + 8)
  end.

Definition set_reseller (commission_rate : Q) (reseller_code : string) (r : User.row)
  : User.row :=
  {| User.user_id := User.user_id r; User.username := User.username r;
     User.balance := User.balance r;
     User.total_spent := User.total_spent r; User.total_earned := User.total_earned r;
     User.is_reseller := true; User.commission_rate := commission_rate;
     User.reseller_code := Some reseller_code; User.created_at := User.created_at r;
     User.last_activity := User.last_activity r |}.

(** [UPDATE users SET is_reseller = TRUE, commission_rate = ?, reseller_code
    = ? WHERE user_id = ?]: [reseller_code] is [UNIQUE], the update of a row
    is refused when another row holds the code ([user_id] is the primary
    key: at most one row is updated). *)
Definition update_reseller (user_id : Z) (commission_rate : Q) (reseller_code : string)
    (d : DB) : option (unit * DB) :=
  if existsb (fun r => (User.user_id r =? user_id)%Z) (users d)
     && existsb (fun r => negb (User.user_id r =? user_id)%Z
                          && bool_decide (User.reseller_code r = Some reseller_code))
                (users d)
  then None
  else Some (tt, update_user user_id (set_reseller commission_rate reseller_code) d).

(** [make_reseller]: [None] when the loop has not ended within [attempts]
    rounds, otherwise the pair the method returns and the database. *)
Definition make_reseller (d : DB) (fault : option nat) (rng : nat -> nat)
    (attempts : nat) (user_id : Z) (commission_rate : Q)
  : option ((bool * option string) * DB) :=
  let '(r, d') := connect fault
    (drawn <- unique_reseller_code rng attempts 0 ;;
     match drawn with
     | None => sql_ret None
     | Some reseller_code =>
         execute (binding user_id
                    (update_reseller user_id commission_rate reseller_code)) ;;;
         commit ;;;
         sql_ret (Some reseller_code)
     end) d in
  match r with
  | Returned (Some reseller_code) => Some ((true, Some reseller_code), d')
  | Returned None => None
  | Raised => Some ((false, None), d')
  end.

(** An upper-case letter or a digit. *)
Definition is_upper_or_digit (c : ascii) : bool :=
  let n := nat_of_ascii c in
  ((65 <=? n)%nat && (n <=? 90)%nat) || ((48 <=? n)%nat && (n <=? 57)%nat).

(** Newest first: each row is at least as new as the next one. *)
Definition newest_first {A : Type} (col : A -> Z) : list A -> Prop :=
  Sorted (fun a b => (col b <= col a)%Z).

(** ** bot.py: the modals of the admin panel *)

(** [str.lower] on the code points below 256. *)
Definition lower_char (c : ascii) : ascii :=
  let n := nat_of_ascii c in
  if ((65 <=? n)%nat && (n <=? 90)%nat)
     || ((192 <=? n)%nat && (n <=? 222)%nat && negb (n =? 215)%nat)
  then ascii_of_nat (n + 32)
  else c.

Fixpoint lower (s : string) : string :=
  match s with
  | EmptyString => EmptyString
  | String c s' => String (lower_char c) (lower s')
  end.

(** What [float(text)] gives when it does not raise: a number, an infinity
    or [nan]. *)
Inductive float_value : Type :=
| Finite (q : Q)
| Infinite (negative : bool)
| NaN.

Inductive balance_modal_reply : Type :=
| Balance_Operation_Successful (amount : Q)
| Balance_Operation_Failed
| Balance_Invalid_Value.

Inductive license_modal_reply : Type :=
| License_Created (license_id : string) (duration_days : Z)
| License_Creation_Failed
| Invalid_Product_Type
| License_Invalid_Value.

Inductive reseller_modal_reply : Type :=
| Reseller_Created (commission : Q) (reseller_code : option string)
| Reseller_Creation_Failed
| Invalid_Commission
| Reseller_Invalid_Value.

Section Modals.

(** Python's and Discord's part: [int(...)] and [float(...)] of a text input
    ([None] for [ValueError]), the formats of the log details, the display
    name the client's cache holds for a user id, and the operations [/],
    [*] and [<] of Python's floats (IEEE doubles, on the numbers the
    doubles denote). *)
Variable int_of_str : string -> option Z.
Variable float_of_str : string -> option float_value.
Variable str_of_int : Z -> string.
Variable str_of_float : Q -> string.
Variable format_percent : Q -> string.
Variable cached_display_name : Z -> option string.
Variable float_div : Q -> Q -> Q.
Variable float_mul : Q -> Q -> Q.
Variable float_lt : Q -> Q -> bool.

(** [user.display_name if user else "Unknown User"] *)
Definition modal_username (user_id : Z) : string :=
  default "Unknown User" (cached_display_name user_id).

(** [BalanceModal.on_submit].  For [nan] the amount is [nan]: SQLite binds
    it as [NULL], the [INSERT] into [transactions] violates [NOT NULL] and
    [update_balance] returns [False].  An infinite amount would leave an
    infinity in the [REAL] columns, which the rows here cannot hold: [None]
    stands for an outcome that is not modelled. *)
Definition BalanceModal_on_submit (d : DB) (operation_type : string)
    (user_id_value amount_value reason_value : string) (interaction_user_id : Z)
    (faults : ensure_faults) (update_balance_fault log_admin_action_fault : option nat)
    (clocks : ensure_clocks) (update_balance_now log_admin_action_now : Z)
  : option (balance_modal_reply * DB) :=
  match int_of_str user_id_value with
  | None => Some (Balance_Invalid_Value, d)
  | Some user_id =>
      match float_of_str amount_value with
      | None => Some (Balance_Invalid_Value, d)
      | Some typed =>
          let d1 := ensure_user_exists d faults clocks user_id (modal_username user_id) in
          match typed with
          | NaN => Some (Balance_Operation_Failed, d1)
          | Infinite _ => None
          | Finite amount =>
              let amount :=
                if String.eqb operation_type "remove" then (- Qabs amount)%Q
                else Qabs amount in
              let '(success, d2) :=
                update_balance d1 update_balance_fault update_balance_now user_id amount
                  (if Qltb 0 amount then "admin_add" else "admin_remove")
                  (Some (if truthy reason_value then reason_value
                         else "Manual operation by admin")) in
              if success then
                let '(_, d3) :=
                  log_admin_action d2 log_admin_action_fault log_admin_action_now
                    interaction_user_id ("balance_" ++ operation_type) (Some user_id)
                    None
                    (Some ("Amount: " ++ str_of_float amount ++ ", Reason: "
                           ++ reason_value)) in
                Some (Balance_Operation_Successful amount, d3)
              else Some (Balance_Operation_Failed, d2)
          end
      end
  end.

(** [LicenseCreateModal.on_submit].  The direct message to the user has no
    effect on the state. *)
Definition LicenseCreateModal_on_submit (s : state)
    (user_id_value product_type_value duration_value : string)
    (interaction_user_id : Z) (faults : ensure_faults)
    (create_license_fault log_admin_action_fault : option nat)
    (clocks : ensure_clocks) (create_license_now datetime_now log_admin_action_now : Z)
  : license_modal_reply * state :=
  match int_of_str user_id_value with
  | None => (License_Invalid_Value, s)
  | Some user_id =>
      let product_type := lower product_type_value in
      match dict_get PRODUCTS product_type with
      | None => (Invalid_Product_Type, s)
      | Some product =>
          match (if truthy (strip duration_value) then int_of_str duration_value
                 else Some (duration product)) with
          | None => (License_Invalid_Value, s)
          | Some duration_days =>
              let d1 := ensure_user_exists (db s) faults clocks user_id
                          (modal_username user_id) in
              let '(license_id, s2) :=
                create_license {| fs := fs s; db := d1 |} create_license_fault
                  create_license_now datetime_now user_id product_type duration_days
                  interaction_user_id 1 (Some (name product)) in
              match license_id with
              | None => (License_Creation_Failed, s2)
              | Some license_id =>
                  if negb (truthy license_id) then (License_Creation_Failed, s2)
                  else
                    let '(_, d3) :=
                      log_admin_action (db s2) log_admin_action_fault
                        log_admin_action_now interaction_user_id "license_create"
                        (Some user_id) (Some license_id)
                        (Some ("Created " ++ product_type ++ " for "
                               ++ str_of_int duration_days ++ " days")) in
                    (License_Created license_id duration_days,
                     {| fs := fs s2; db := d3 |})
              end
          end
      end
  end.

(** [ResellerCreateModal.on_submit].  An infinite rate divided by 100 is
    infinite and fails one of the two tests.  For [nan] both tests are false:
    the code goes on, stores [NULL] as commission rate and replies "Reseller
    Created"; the rows here cannot hold that.  [None] stands for an outcome
    that is not modelled: a rate of [nan], or a loop of [make_reseller] that
    has not ended within [attempts] rounds.  The direct message to the user
    has no effect on the state. *)
Definition ResellerCreateModal_on_submit (d : DB)
    (user_id_value commission_rate_value : string) (interaction_user_id : Z)
    (faults : ensure_faults) (make_reseller_fault log_admin_action_fault : option nat)
    (rng : nat -> nat) (attempts : nat)
    (clocks : ensure_clocks) (log_admin_action_now : Z)
  : option (reseller_modal_reply * DB) :=
  match int_of_str user_id_value with
  | None => Some (Reseller_Invalid_Value, d)
  | Some user_id =>
      match float_of_str commission_rate_value with
      | None => Some (Reseller_Invalid_Value, d)
      | Some NaN => None
      | Some (Infinite _) => Some (Invalid_Commission, d)
      | Some (Finite rate) =>
          let commission := float_div rate 100 in
          if float_lt commission 0 || float_lt 1 commission
          then Some (Invalid_Commission, d)
          else
            let d1 := ensure_user_exists d faults clocks user_id
                        (modal_username user_id) in
            match make_reseller d1 make_reseller_fault rng attempts user_id
                    commission with
            | None => None
            | Some ((success, reseller_code), d2) =>
                if success then
                  let '(_, d3) :=
                    log_admin_action d2 log_admin_action_fault log_admin_action_now
                      interaction_user_id "reseller_create" (Some user_id) None
                      (Some ("Commission rate: "
                             ++ format_percent (float_mul commission 100)
                             ++ "%, Code: " ++ default "None" reseller_code)) in
                  Some (Reseller_Created commission reseller_code, d3)
                else Some (Reseller_Creation_Failed, d2)
            end
      end
  end.

End Modals.

(** ** The tables [hwid_resets] and [settings] *)

Module HwidReset.
Record row := {
  id : Z;
  license_id : string;
  user_id : Z;
  reset_by : option Z;
  reason : string;
  created_at : Z
}.
End HwidReset.

(** [settings]: [key] is the primary key, the table is a map from keys to
    the other two columns. *)
Module Setting.
Record row := {
  value : string;
  updated_at : Z
}.
End Setting.

(** The whole database: the four tables above and the two that only
    [reset_hwid], the settings and [init_db] use. *)
Record Store := {
  tables : DB;
  hwid_resets : list HwidReset.row;
  settings : gmap string Setting.row
}.

(** The connection of [conn], over any type of database. *)
Section Connection.

Variable S : Type.

Record conn_on := {
  calls_left_on : option nat;
  work_on : S;
  durable_on : S
}.

Definition SqlOn (A : Type) : Type := conn_on -> outcome A * conn_on.

Definition ret_on {A : Type} (a : A) : SqlOn A := fun c => (Returned a, c).

Definition bind_on {A B : Type} (m : SqlOn A) (k : A -> SqlOn B) : SqlOn B :=
  fun c =>
    match m c with
    | (Returned a, c') => k a c'
    | (Raised, c') => (Raised, c')
    end.

Definition execute_on {A : Type} (stmt : S -> option (A * S)) : SqlOn A :=
  fun c =>
    match calls_left_on c with
    | Some O => (Raised, c)
    | budget =>
        match stmt (work_on c) with
        | None => (Raised, c)
        | Some (a, d) =>
            (Returned a,
             {| calls_left_on := Nat.pred <$> budget; work_on := d;
                durable_on := durable_on c |})
        end
    end.

Definition commit_on : SqlOn unit :=
  fun c =>
    match calls_left_on c with
    | Some O => (Raised, c)
    | budget =>
        (Returned tt,
         {| calls_left_on := Nat.pred <$> budget; work_on := work_on c;
            durable_on := work_on c |})
    end.

Definition connect_on {A : Type} (fault : option nat) (body : SqlOn A) (d : S)
  : outcome A * S :=
  match fault with
  | Some O => (Raised, d)
  | _ =>
      let '(r, c) := body {| calls_left_on := Nat.pred <$> fault; work_on := d;
                             durable_on := d |} in
      (r, durable_on c)
  end.

Definition query_on {A : Type} (q : S -> A) : S -> option (A * S) :=
  fun d => Some (q d, d).

Definition update_on (f : S -> S) : S -> option (unit * S) :=
  fun d => Some (tt, f d).

End Connection.

Arguments calls_left_on {S} _.
Arguments work_on {S} _.
Arguments durable_on {S} _.
Arguments ret_on {S A} a.
Arguments bind_on {S A B} m k.
Arguments execute_on {S A} stmt.
Arguments commit_on {S}.
Arguments connect_on {S A} fault body d.
Arguments query_on {S A} q.
Arguments update_on {S} f.

Definition set_tables (f : DB -> DB) (st : Store) : Store :=
  {| tables := f (tables st); hwid_resets := hwid_resets st; settings := settings st |}.

Definition set_hwid_resets (f : list HwidReset.row -> list HwidReset.row) (st : Store)
  : Store :=
  {| tables := tables st; hwid_resets := f (hwid_resets st); settings := settings st |}.

Definition set_settings (f : gmap string Setting.row -> gmap string Setting.row)
    (st : Store) : Store :=
  {| tables := tables st; hwid_resets := hwid_resets st; settings := f (settings st) |}.

Definition clear_hwid (r : License.row) : License.row :=
  {| License.license_id := License.license_id r; License.user_id := License.user_id r;
     License.product_type := License.product_type r;
     License.product_name := License.product_name r; License.hwid := None;
     License.hwid_limit := License.hwid_limit r; License.created_at := License.created_at r;
     License.expires_at := License.expires_at r; License.created_by := License.created_by r;
     License.is_active := License.is_active r |}.

(** [UPDATE licenses SET hwid = NULL WHERE license_id = ? AND user_id = ?] *)
Definition update_hwid_null (license_id : string) (user_id : Z) : DB -> DB :=
  set_licenses (map (fun r =>
    if String.eqb (License.license_id r) license_id && (License.user_id r =? user_id)%Z
    then clear_hwid r else r)).

(** [INSERT INTO hwid_resets (license_id, user_id, reason) VALUES (?, ?, ?)]:
    [reset_by] is left [NULL]. *)
Definition insert_hwid_reset (now : Z) (license_id : string) (user_id : Z)
    (reason : string) : Store -> Store :=
  set_hwid_resets (fun rs => rs ++
    [{| HwidReset.id := next_id (map HwidReset.id rs);
        HwidReset.license_id := license_id; HwidReset.user_id := user_id;
        HwidReset.reset_by := None; HwidReset.reason := reason;
        HwidReset.created_at := now |}])%list.

(** [reset_hwid] *)
Definition reset_hwid (st : Store) (fault : option nat) (now : Z) (license_id : string)
    (user_id : Z) (reason : string) : bool * Store :=
  let '(r, st') := connect_on fault
    (bind_on (execute_on (update_on (set_tables (update_hwid_null license_id user_id))))
       (fun _ =>
     bind_on (execute_on (update_on (insert_hwid_reset now license_id user_id reason)))
       (fun _ =>
     bind_on commit_on (fun _ => ret_on true)))) st in
  (match r with Returned b => b | Raised => false end, st').

(** [get_hwid_reset_count]; [since] is what [datetime('now', '-{} days')]
    gives for the [days] of the call at the clock reading, [None] for the
    [NULL] of a modifier that SQLite does not accept (negative [days]) or
    of a date out of its range: no row compares to [NULL]. *)
Definition get_hwid_reset_count (st : Store) (fault : option nat) (since : option Z)
    (user_id : Z) : Z :=
  let '(r, _) := connect_on fault
    (bind_on (execute_on (query_on (fun st =>
       match since with
       | None => 0%Z
       | Some t =>
           count_where (fun r => HwidReset.user_id r = user_id
                                 /\ (t <= HwidReset.created_at r)%Z) (hwid_resets st)
       end))) (fun count => ret_on count)) st in
  match r with Returned count => count | Raised => 0%Z end.

(** [get_setting] *)
Definition get_setting (st : Store) (fault : option nat) (key : string) : option string :=
  let '(r, _) := connect_on fault
    (bind_on (execute_on (query_on (fun st => settings st !! key)))
       (fun row => ret_on (Setting.value <$> row))) st in
  match r with Returned v => v | Raised => None end.

(** [set_setting]: [INSERT OR REPLACE INTO settings (key, value, updated_at)
    VALUES (?, ?, CURRENT_TIMESTAMP)] *)
Definition set_setting (st : Store) (fault : option nat) (now : Z) (key value : string)
  : bool * Store :=
  let '(r, st') := connect_on fault
    (bind_on (execute_on (update_on (set_settings
       (insert key {| Setting.value := value; Setting.updated_at := now |}))))
       (fun _ => bind_on commit_on (fun _ => ret_on true))) st in
  (match r with Returned b => b | Raised => false end, st').

(** The rows of [INSERT OR IGNORE INTO settings (key, value) VALUES ...] in
    [init_db]. *)
Definition default_settings : list (string * string) :=
  [("max_hwid_resets_per_day", "3"); ("bot_status", "active");
   ("maintenance_mode", "false")].

(** [INSERT OR IGNORE]: a key that is there keeps its row. *)
Definition insert_or_ignore_settings (now : Z) (rows : list (string * string))
  : gmap string Setting.row -> gmap string Setting.row :=
  fun m =>
    fold_left (fun m row =>
      match m !! fst row with
      | Some _ => m
      | None => <[fst row := {| Setting.value := snd row; Setting.updated_at := now |}]> m
      end) rows m.

(** [CREATE TABLE IF NOT EXISTS]: the tables are there, empty at first. *)
Definition create_table_if_not_exists : Store -> option (unit * Store) :=
  update_on (fun st => st).

(** [init_db]: it has no [try]; an exception leaves the block before the
    commit and [ensure_key_files] is not reached. *)
Definition init_db (fs : files) (st : Store) (fault : option nat) (now : Z)
  : outcome unit * (files * Store) :=
  let '(r, st') := connect_on fault
    (bind_on (execute_on create_table_if_not_exists) (fun _ =>
     bind_on (execute_on create_table_if_not_exists) (fun _ =>
     bind_on (execute_on create_table_if_not_exists) (fun _ =>
     bind_on (execute_on create_table_if_not_exists) (fun _ =>
     bind_on (execute_on create_table_if_not_exists) (fun _ =>
     bind_on (execute_on create_table_if_not_exists) (fun _ =>
     bind_on (execute_on (update_on (set_settings
                (insert_or_ignore_settings now default_settings)))) (fun _ =>
     commit_on)))))))) st in
  match r with
  | Returned _ => (Returned tt, (ensure_key_files fs, st'))
  | Raised => (Raised, (fs, st'))
  end.

Inductive resethwid_reply : Type :=
| Resethwid_Unauthorized_Access
| Resethwid_License_Not_Found
| HWID_Reset
| HWID_Reset_Failed.

(** The [/resethwid] command.  The direct message to the user has no effect
    on the state. *)
Definition resethwid (st : Store)
    (get_license_fault reset_hwid_fault log_admin_action_fault : option nat)
    (now interaction_user_id : Z) (license_id reason : string)
  : resethwid_reply * Store :=
  if negb (bool_decide (interaction_user_id ∈ ADMIN_IDS))
  then (Resethwid_Unauthorized_Access, st)
  else
    match get_license_by_id (tables st) get_license_fault license_id with
    | None => (Resethwid_License_Not_Found, st)
    | Some license_data =>
        let '(success, st1) :=
          reset_hwid st reset_hwid_fault now license_id (License.user_id license_data)
            reason in
        if success then
          let '(_, d2) :=
            log_admin_action (tables st1) log_admin_action_fault now interaction_user_id
              "hwid_reset" (Some (License.user_id license_data)) (Some license_id)
              (Some ("Reason: " ++ reason)) in
          (HWID_Reset, set_tables (fun _ => d2) st1)
        else (HWID_Reset_Failed, st1)
    end.

(** ** bot.py: the [/prices] command *)

(** What one field of the price list shows for a product: the list price,
    the duration and the description ([product]), the stock, and for a
    reseller the price and the commission of that reseller. *)
Module PriceField.
Record t := {
  product_id : string;
  product : product;
  key_count : Z;
  your_price : option (Q * Q)
}.
End PriceField.

Section Prices.

(** Python's [*] and [-] on floats. *)
Variable float_mul : Q -> Q -> Q.
Variable float_sub : Q -> Q -> Q.

(** One of the two loops of [/prices], over the product ids of a group. *)
Definition prices_fields (fs : files) (is_reseller : bool) (commission_rate : Q)
    (product_ids : list string) : list PriceField.t :=
  flat_map (fun product_id =>
    match dict_get PRODUCTS product_id with
    | None => []
    | Some product =>
        let original_price := price product in
        let reseller_price :=
          if is_reseller then float_mul original_price (float_sub 1 commission_rate)
          else original_price in
        [{| PriceField.product_id := product_id;
            PriceField.product := product;
            PriceField.key_count := get_key_count fs product_id;
            PriceField.your_price :=
              if is_reseller
              then Some (reseller_price, float_sub original_price reseller_price)
              else None |}]
    end) product_ids.

(** The [/prices] command: the fields of the two groups of products, and
    for a reseller the commission rate and the balance of the last field. *)
Definition prices (s : state) (faults : ensure_faults) (get_user_fault : option nat)
    (clocks : ensure_clocks) (interaction_user_id : Z)
    (interaction_user_display_name : string)
  : (list PriceField.t * option (Q * Q)) * state :=
  let d := ensure_user_exists (db s) faults clocks interaction_user_id
             interaction_user_display_name in
  let s1 := {| fs := fs s; db := d |} in
  let user_data := get_user d get_user_fault interaction_user_id in
  let is_reseller :=
    match user_data with
    | Some row => User.is_reseller row
    | None => false
    end in
  let commission_rate :=
    match user_data with
    | Some row => if is_reseller then User.commission_rate row else 0%Q
    | None => 0%Q
    end in
  (prices_fields (fs s1) is_reseller commission_rate
     ["vallifetime"; "val1month"; "val1week"]
   ++ prices_fields (fs s1) is_reseller commission_rate
        ["wooflifetime"; "woof1month"; "woof1week"],
   match user_data with
   | Some row => if is_reseller then Some (commission_rate, User.balance row) else None
   | None => None
   end, s1)%list.

End Prices.

(* ================================================================== *)
(** * Part II. Properties                                              *)
(* ================================================================== *)

(** ** Python strings *)

Lemma isspace_LF : isspace LF = true.
Proof. reflexivity. Qed.

Lemma append_cons c (s t : string) : String c s ++ t = String c (s ++ t).
Proof. reflexivity. Qed.

Lemma append_nil_l (s : string) : EmptyString ++ s = s.
Proof. reflexivity. Qed.

Lemma append_nil_r (s : string) : s ++ EmptyString = s.
Proof.
  induction s as [|c s IH]; [reflexivity|]. now rewrite append_cons, IH.
Qed.

Lemma append_assoc (a b c : string) : (a ++ b) ++ c = a ++ (b ++ c).
Proof.
  induction a as [|x a IH]; [reflexivity|]. now rewrite !append_cons, IH.
Qed.

Lemma string_forall_app P a b :
  string_forall P (a ++ b) = string_forall P a && string_forall P b.
Proof.
  induction a as [|c a IH]; [reflexivity|].
  rewrite append_cons. simpl. rewrite IH. now rewrite andb_assoc.
Qed.

Lemma string_forall_lstrip P s :
  string_forall P s = true -> string_forall P (lstrip s) = true.
Proof.
  induction s as [|c s IH]; simpl; [auto|].
  intros H. apply andb_true_iff in H as [Hc Hs].
  destruct (isspace c); [auto|]. simpl. now rewrite Hc, Hs.
Qed.

Lemma string_forall_rstrip P s :
  string_forall P s = true -> string_forall P (rstrip s) = true.
Proof.
  induction s as [|c s IH]; simpl; [auto|].
  intros H. apply andb_true_iff in H as [Hc Hs]. specialize (IH Hs).
  destruct (rstrip s) as [|d r].
  - destruct (isspace c); simpl; [reflexivity | now rewrite Hc].
  - simpl in *. now rewrite Hc, IH.
Qed.

Lemma string_forall_strip P s :
  string_forall P s = true -> string_forall P (strip s) = true.
Proof. intros H. now apply string_forall_lstrip, string_forall_rstrip. Qed.

Lemma lstrip_idem s : lstrip (lstrip s) = lstrip s.
Proof.
  induction s as [|c s IH]; simpl; [reflexivity|].
  destruct (isspace c) eqn:E; [exact IH|]. simpl. now rewrite E.
Qed.

Lemma rstrip_idem s : rstrip (rstrip s) = rstrip s.
Proof.
  induction s as [|c s IH]; simpl; [reflexivity|].
  destruct (rstrip s) as [|d r] eqn:E.
  - destruct (isspace c) eqn:Ec; simpl; [reflexivity | now rewrite Ec].
  - change (rstrip (String c (String d r))) with
      (match rstrip (String d r) with
       | EmptyString => if isspace c then EmptyString else String c EmptyString
       | String x y => String c (String x y)
       end).
    now rewrite IH.
Qed.

Lemma rstrip_fixed_lstrip s : rstrip s = s -> rstrip (lstrip s) = lstrip s.
Proof.
  induction s as [|c s IH]; simpl; [auto|].
  intros H. destruct (isspace c) eqn:Ec.
  - apply IH. destruct (rstrip s) as [|d r]; [discriminate | congruence].
  - simpl. rewrite Ec. exact H.
Qed.

Lemma lstrip_strip s : lstrip (strip s) = strip s.
Proof. apply lstrip_idem. Qed.

Lemma rstrip_strip s : rstrip (strip s) = strip s.
Proof. apply rstrip_fixed_lstrip, rstrip_idem. Qed.

Lemma rstrip_app_space s c :
  isspace c = true -> rstrip (s ++ String c EmptyString) = rstrip s.
Proof.
  intros Hc. induction s as [|d s IH].
  - rewrite append_nil_l. simpl. now rewrite Hc.
  - rewrite append_cons. simpl. now rewrite IH.
Qed.

Lemma strip_line s : strip (s ++ NL) = strip s.
Proof. unfold strip, NL. now rewrite rstrip_app_space. Qed.

Lemma well_formed_key_spec k :
  well_formed_key k = true <->
  k <> EmptyString /\ lstrip k = k /\ rstrip k = k
  /\ string_forall not_LF k = true /\ string_forall not_CR k = true.
Proof.
  unfold well_formed_key. rewrite !andb_true_iff, !String.eqb_eq.
  destruct k; simpl; intuition congruence.
Qed.

Lemma well_formed_key_strip k : well_formed_key k = true -> strip k = k.
Proof.
  rewrite well_formed_key_spec. intros (_ & Hl & Hr & _).
  unfold strip. now rewrite Hr.
Qed.

(** *** Reading a key file *)

Lemma universal_newlines_cons c s :
  universal_newlines (String c s) =
  if Ascii.eqb c CR then
    match s with
    | String c' _ =>
        if Ascii.eqb c' LF then universal_newlines s
        else String LF (universal_newlines s)
    | EmptyString => NL
    end
  else String c (universal_newlines s).
Proof. destruct s; reflexivity. Qed.

Lemma string_forall_cons P c s :
  string_forall P (String c s) = P c && string_forall P s.
Proof. reflexivity. Qed.

Lemma universal_newlines_not_CR s :
  string_forall not_CR (universal_newlines s) = true.
Proof.
  induction s as [|c s IH]; [reflexivity|].
  rewrite universal_newlines_cons.
  destruct (Ascii.eqb c CR) eqn:Ec.
  - destruct s as [|c' s']; [reflexivity|].
    destruct (Ascii.eqb c' LF); [exact IH|].
    now rewrite string_forall_cons, IH.
  - rewrite string_forall_cons, IH. unfold not_CR. now rewrite Ec.
Qed.

Lemma universal_newlines_clean a b :
  string_forall not_CR a = true ->
  universal_newlines (a ++ b) = a ++ universal_newlines b.
Proof.
  induction a as [|c a IH]; [reflexivity|].
  rewrite string_forall_cons. intros H. apply andb_true_iff in H as [Hc Ha].
  rewrite !append_cons, universal_newlines_cons.
  unfold not_CR in Hc. apply negb_true_iff in Hc. rewrite Hc.
  now rewrite IH.
Qed.

Lemma universal_newlines_cons_nonempty s :
  forall c, universal_newlines (String c s) <> EmptyString.
Proof.
  induction s as [|c' s IH]; intros c; rewrite universal_newlines_cons.
  - destruct (Ascii.eqb c CR); discriminate.
  - destruct (Ascii.eqb c CR); [|discriminate].
    destruct (Ascii.eqb c' LF); [apply IH | discriminate].
Qed.

Lemma universal_newlines_LF b :
  universal_newlines (String LF b) = String LF (universal_newlines b).
Proof. now rewrite universal_newlines_cons. Qed.

Lemma splitlines_keepends_cons c s :
  splitlines_keepends (String c s) =
  if Ascii.eqb c LF then String c EmptyString :: splitlines_keepends s
  else match splitlines_keepends s with
       | [] => [String c EmptyString]
       | l :: ls => String c l :: ls
       end.
Proof. reflexivity. Qed.

Lemma splitlines_keepends_cons_nonempty c s : splitlines_keepends (String c s) <> [].
Proof.
  rewrite splitlines_keepends_cons.
  destruct (Ascii.eqb c LF); [discriminate|].
  destruct (splitlines_keepends s); discriminate.
Qed.

Lemma splitlines_keepends_line k t :
  string_forall not_LF k = true ->
  splitlines_keepends (k ++ NL ++ t) = (k ++ NL) :: splitlines_keepends t.
Proof.
  induction k as [|c k IH].
  - intros _. reflexivity.
  - rewrite string_forall_cons. intros H. apply andb_true_iff in H as [Hc Hk].
    rewrite !append_cons, splitlines_keepends_cons.
    unfold not_LF in Hc. apply negb_true_iff in Hc. rewrite Hc.
    now rewrite (IH Hk).
Qed.

(** A line returned by [readlines] is a body without ['\n'], followed or
    not by one ['\n']; its characters are characters of the text. *)
Lemma splitlines_keepends_shape t l :
  l ∈ splitlines_keepends t ->
  exists body, (l = body \/ l = body ++ NL)
    /\ string_forall not_LF body = true
    /\ forall P, string_forall P t = true -> string_forall P body = true.
Proof.
  revert l. induction t as [|c t IH]; intros l Hl.
  - simpl in Hl. inversion Hl.
  - rewrite splitlines_keepends_cons in Hl.
    destruct (Ascii.eqb c LF) eqn:Ec.
    + apply elem_of_cons in Hl as [->|Hl].
      * apply Ascii.eqb_eq in Ec as ->.
        exists EmptyString. split; [right; reflexivity|]. split; [reflexivity|].
        intros P _. reflexivity.
      * destruct (IH l Hl) as (body & Hb & Hn & HP).
        exists body. split; [exact Hb|]. split; [exact Hn|].
        intros P H. rewrite string_forall_cons in H.
        apply andb_true_iff in H as [_ H]. now apply HP.
    + assert (Hc : not_LF c = true) by (unfold not_LF; now rewrite Ec).
      destruct (splitlines_keepends t) as [|l0 ls] eqn:El.
      * apply list_elem_of_singleton in Hl as ->.
        exists (String c EmptyString). split; [left; reflexivity|].
        split; [rewrite string_forall_cons, Hc; reflexivity|].
        intros P H. rewrite string_forall_cons in H.
        apply andb_true_iff in H as [H _]. rewrite string_forall_cons, H. reflexivity.
      * apply elem_of_cons in Hl as [->|Hl].
        -- destruct (IH l0) as (body & Hb & Hn & HP); [left|].
           exists (String c body). split.
           { destruct Hb as [->| ->]; [left | right]; reflexivity. }
           split; [rewrite string_forall_cons, Hc, Hn; reflexivity|].
           intros P H. rewrite string_forall_cons in H.
           apply andb_true_iff in H as [H1 H2].
           rewrite string_forall_cons, H1, (HP P H2). reflexivity.
        -- destruct (IH l) as (body & Hb & Hn & HP); [right; exact Hl|].
           exists body. split; [exact Hb|]. split; [exact Hn|].
           intros P H. rewrite string_forall_cons in H.
           apply andb_true_iff in H as [_ H]. now apply HP.
Qed.

(** Every key read from a file, whatever the file holds, is well formed. *)
Lemma read_keys_well_formed content k :
  k ∈ read_keys content -> well_formed_key k = true.
Proof.
  unfold read_keys, readlines. intros Hk.
  apply list_elem_of_In, in_map_iff in Hk as (l & <- & Hl).
  apply list_elem_of_In, list_elem_of_filter in Hl as [Ht Hl].
  apply splitlines_keepends_shape in Hl as (body & Hb & Hn & HP).
  assert (Hs : strip l = strip body).
  { destruct Hb as [->| ->]; [reflexivity | apply strip_line]. }
  rewrite Hs in *. apply well_formed_key_spec.
  split; [destruct (strip body); [discriminate | discriminate]|].
  split; [apply lstrip_strip|]. split; [apply rstrip_strip|].
  split; apply string_forall_strip; [exact Hn|].
  apply HP, universal_newlines_not_CR.
Qed.

Lemma write_keys_cons k ks : write_keys (k :: ks) = k ++ NL ++ write_keys ks.
Proof.
  unfold write_keys. destruct ks as [|k' ks].
  - simpl join. now rewrite append_nil_r.
  - change (join NL (k :: k' :: ks)) with (k ++ NL ++ join NL (k' :: ks)).
    now rewrite !append_assoc.
Qed.

Lemma read_keys_line k rest :
  well_formed_key k = true -> read_keys (k ++ NL ++ rest) = k :: read_keys rest.
Proof.
  intros Hk. pose proof (well_formed_key_strip k Hk) as Hs.
  apply well_formed_key_spec in Hk as (Hne & _ & _ & Hlf & Hcr).
  unfold read_keys, readlines.
  rewrite (universal_newlines_clean k _ Hcr).
  change (NL ++ rest) with (String LF rest).
  rewrite universal_newlines_LF.
  change (String LF (universal_newlines rest)) with (NL ++ universal_newlines rest).
  rewrite (splitlines_keepends_line k _ Hlf).
  rewrite filter_cons_True.
  - simpl map. now rewrite strip_line, Hs.
  - rewrite strip_line, Hs. destruct k; [congruence | reflexivity].
Qed.

(** Reading back what the code writes gives the keys written. *)
Lemma read_write_keys ks :
  (forall k, k ∈ ks -> well_formed_key k = true) ->
  read_keys (write_keys ks) = ks.
Proof.
  induction ks as [|k ks IH]; intros H; [reflexivity|].
  rewrite write_keys_cons, read_keys_line.
  - f_equal. apply IH. intros k' Hk'. apply H. now right.
  - apply H. now left.
Qed.

(** A file with a Windows line end, padding, an empty line and no final
    newline. *)
Example read_keys_sample :
  read_keys ("K1" ++ String CR NL ++ "  K2 " ++ NL ++ NL ++ "K3") = ["K1"; "K2"; "K3"].
Proof. vm_compute. reflexivity. Qed.

Example write_keys_sample : write_keys ["K1"; "K2"] = "K1" ++ NL ++ "K2" ++ NL.
Proof. reflexivity. Qed.

(** *** Appending to a key file *)

Lemma ends_with_newline_cons c s :
  ends_with_newline (String c s) =
  match s with
  | EmptyString => Ascii.eqb c LF
  | String _ _ => ends_with_newline s
  end.
Proof. reflexivity. Qed.

Lemma ends_with_newline_app_NL s : ends_with_newline (s ++ NL) = true.
Proof.
  induction s as [|c s IH]; [reflexivity|].
  rewrite append_cons, ends_with_newline_cons.
  destruct s as [|d s]; [reflexivity | exact IH].
Qed.

Lemma ends_with_newline_write_keys ks : ends_with_newline (write_keys ks) = true.
Proof.
  unfold write_keys. destruct ks; [reflexivity | apply ends_with_newline_app_NL].
Qed.

Lemma ends_with_newline_universal s :
  ends_with_newline s = true -> ends_with_newline (universal_newlines s) = true.
Proof.
  induction s as [|c s IH]; [auto|].
  rewrite ends_with_newline_cons, universal_newlines_cons.
  destruct s as [|c' s'].
  - intros ->%Ascii.eqb_eq. reflexivity.
  - intros H. specialize (IH H).
    pose proof (universal_newlines_cons_nonempty s' c') as Hne.
    destruct (Ascii.eqb c CR).
    + destruct (Ascii.eqb c' LF); [exact IH|].
      rewrite ends_with_newline_cons.
      destruct (universal_newlines (String c' s')); [congruence | exact IH].
    + rewrite ends_with_newline_cons.
      destruct (universal_newlines (String c' s')); [congruence | exact IH].
Qed.

Lemma universal_newlines_app a b :
  ends_with_newline a = true ->
  universal_newlines (a ++ b) = universal_newlines a ++ universal_newlines b.
Proof.
  induction a as [|c a IH]; [reflexivity|].
  rewrite ends_with_newline_cons, append_cons.
  destruct a as [|c' a'].
  - intros ->%Ascii.eqb_eq. rewrite append_nil_l, universal_newlines_LF. reflexivity.
  - intros H. specialize (IH H).
    rewrite (universal_newlines_cons c (String c' a' ++ b)).
    rewrite (universal_newlines_cons c (String c' a')).
    rewrite (append_cons c' a' b) at 1.
    destruct (Ascii.eqb c CR).
    + destruct (Ascii.eqb c' LF); [exact IH|]. now rewrite IH.
    + now rewrite IH.
Qed.

Lemma splitlines_keepends_app a b :
  ends_with_newline a = true ->
  splitlines_keepends (a ++ b) = (splitlines_keepends a ++ splitlines_keepends b)%list.
Proof.
  induction a as [|c a IH]; [reflexivity|].
  rewrite ends_with_newline_cons, append_cons, !splitlines_keepends_cons.
  destruct a as [|c' a'].
  - intros H. rewrite H. reflexivity.
  - intros H. rewrite (IH H).
    destruct (Ascii.eqb c LF); [reflexivity|].
    pose proof (splitlines_keepends_cons_nonempty c' a') as Hne.
    destruct (splitlines_keepends (String c' a')); [congruence | reflexivity].
Qed.

(** After a content that is empty or ends with ['\n'], what follows is read
    on its own. *)
Lemma read_keys_app a b :
  ends_with_newline a = true ->
  read_keys (a ++ b) = (read_keys a ++ read_keys b)%list.
Proof.
  intros H. unfold read_keys, readlines.
  rewrite (universal_newlines_app a b H).
  rewrite (splitlines_keepends_app _ _ (ends_with_newline_universal a H)).
  now rewrite filter_app, map_app.
Qed.

Lemma read_keys_append_line content key :
  ends_with_newline content = true -> well_formed_key key = true ->
  read_keys (content ++ key ++ NL) = (read_keys content ++ [key])%list.
Proof.
  intros Hc Hk. rewrite (read_keys_app _ _ Hc). f_equal.
  rewrite <- (append_nil_r NL), read_keys_line; [reflexivity | exact Hk].
Qed.

(** ** The key pool *)

(** The six products keep their keys in six different files. *)
Lemma KEYS_CONFIG_files_distinct p q cp cq :
  dict_get KEYS_CONFIG p = Some cp -> dict_get KEYS_CONFIG q = Some cq ->
  file cp = file cq -> p = q.
Proof.
  unfold KEYS_CONFIG. simpl dict_get. intros Hp Hq.
  repeat match type of Hp with
         | (if String.eqb ?a ?b then _ else _) = _ =>
             destruct (String.eqb_spec a b) as [->|?]
         end;
  repeat match type of Hq with
         | (if String.eqb ?a ?b then _ else _) = _ =>
             destruct (String.eqb_spec a b) as [->|?]
         end;
  try discriminate; try reflexivity;
  injection Hp as <-; injection Hq as <-; simpl; discriminate.
Qed.

Lemma get_key_count_pool fs p : get_key_count fs p = Z.of_nat (length (pool fs p)).
Proof.
  unfold get_key_count, pool.
  destruct (dict_get KEYS_CONFIG p) as [cfg|]; [|reflexivity].
  destruct (fs !! file cfg); reflexivity.
Qed.

Lemma pool_well_formed fs p k : k ∈ pool fs p -> well_formed_key k = true.
Proof.
  unfold pool. destruct (dict_get KEYS_CONFIG p) as [cfg|]; [|inversion 1].
  destruct (fs !! file cfg) as [content|]; [|inversion 1].
  apply read_keys_well_formed.
Qed.

(** Writing the file of [p] sets the pool of [p] and no other pool. *)
Lemma pool_write fs p cfg content :
  dict_get KEYS_CONFIG p = Some cfg ->
  pool (<[file cfg := content]> fs) p = read_keys content.
Proof. intros H. unfold pool. now rewrite H, lookup_insert_eq. Qed.

Lemma pool_write_other fs p q cfg content :
  dict_get KEYS_CONFIG p = Some cfg -> q <> p ->
  pool (<[file cfg := content]> fs) q = pool fs q.
Proof.
  intros Hp Hne. unfold pool.
  destruct (dict_get KEYS_CONFIG q) as [cq|] eqn:Hq; [|reflexivity].
  rewrite lookup_insert_ne; [reflexivity|].
  intros Hf. apply Hne. symmetry. exact (KEYS_CONFIG_files_distinct _ _ _ _ Hp Hq Hf).
Qed.

Lemma get_available_key_empty fs p :
  pool fs p = [] -> get_available_key fs p = (None, fs).
Proof.
  unfold pool, get_available_key.
  destruct (dict_get KEYS_CONFIG p) as [cfg|]; [|reflexivity].
  destruct (fs !! file cfg) as [content|]; [|reflexivity].
  now intros ->.
Qed.

Lemma get_available_key_head fs p k ks :
  pool fs p = k :: ks ->
  exists fs', get_available_key fs p = (Some k, fs')
    /\ pool fs' p = ks
    /\ (forall q, q <> p -> pool fs' q = pool fs q).
Proof.
  intros Hpool.
  assert (Hwf : forall k', k' ∈ ks -> well_formed_key k' = true).
  { intros k' Hk'. apply (pool_well_formed fs p). rewrite Hpool. now right. }
  unfold pool in Hpool.
  destruct (dict_get KEYS_CONFIG p) as [cfg|] eqn:Hcfg; [|discriminate].
  destruct (fs !! file cfg) as [content|] eqn:Hf; [|discriminate].
  exists (<[file cfg := write_keys ks]> fs). split; [|split].
  - unfold get_available_key. now rewrite Hcfg, Hf, Hpool.
  - rewrite (pool_write _ _ _ _ Hcfg). now apply read_write_keys.
  - intros q Hq. now apply (pool_write_other fs p q cfg).
Qed.

Lemma return_key_present fs p k : k ∈ pool fs p -> return_key fs p k = (true, fs).
Proof.
  unfold pool, return_key.
  destruct (dict_get KEYS_CONFIG p) as [cfg|]; [|inversion 1].
  destruct (fs !! file cfg) as [content|]; [|inversion 1].
  intros H. now rewrite decide_True.
Qed.

Lemma return_key_absent fs p cfg k :
  dict_get KEYS_CONFIG p = Some cfg -> k ∉ pool fs p -> well_formed_key k = true ->
  exists fs', return_key fs p k = (true, fs')
    /\ pool fs' p = k :: pool fs p
    /\ (forall q, q <> p -> pool fs' q = pool fs q).
Proof.
  intros Hcfg Hk Hwf.
  assert (Hall : forall k', k' ∈ k :: pool fs p -> well_formed_key k' = true).
  { intros k' [->|Hk']%elem_of_cons; [exact Hwf | now apply (pool_well_formed fs p)]. }
  exists (<[file cfg := write_keys (k :: pool fs p)]> fs). split; [|split].
  - unfold pool in *. unfold return_key. rewrite Hcfg in *.
    now rewrite decide_False by exact Hk.
  - rewrite (pool_write _ _ _ _ Hcfg). now apply read_write_keys.
  - intros q Hq. now apply (pool_write_other fs p q cfg).
Qed.

Lemma return_key_unknown_product fs p k :
  dict_get KEYS_CONFIG p = None -> return_key fs p k = (false, fs).
Proof. intros H. unfold return_key. now rewrite H. Qed.

Lemma add_key_present fs p k : k ∈ pool fs p -> add_key fs p k = (false, fs).
Proof.
  unfold pool, add_key.
  destruct (dict_get KEYS_CONFIG p) as [cfg|]; [|inversion 1].
  destruct (fs !! file cfg) as [content|]; [|inversion 1].
  intros H. now rewrite decide_True.
Qed.

Lemma add_key_absent fs p cfg k :
  dict_get KEYS_CONFIG p = Some cfg -> k ∉ pool fs p -> well_formed_key k = true ->
  key_file_terminated fs p ->
  exists fs', add_key fs p k = (true, fs')
    /\ pool fs' p = (pool fs p ++ [k])%list
    /\ key_file_terminated fs' p
    /\ (forall q, q <> p -> pool fs' q = pool fs q).
Proof.
  intros Hcfg Hk Hwf Hterm.
  exists (<[file cfg := default EmptyString (fs !! file cfg) ++ k ++ NL]> fs).
  unfold key_file_terminated in *. unfold pool in Hk. rewrite Hcfg in *.
  split; [|split; [|split]].
  - unfold add_key. rewrite Hcfg. now rewrite decide_False by exact Hk.
  - rewrite (pool_write _ _ _ _ Hcfg). unfold pool. rewrite Hcfg.
    destruct (fs !! file cfg) as [content|]; simpl default.
    + now apply read_keys_append_line.
    + now apply (read_keys_append_line EmptyString).
  - rewrite lookup_insert_eq, <- append_assoc. apply ends_with_newline_app_NL.
  - intros q Hq. now apply (pool_write_other fs p q cfg).
Qed.

(** ** Taking, returning and stocking keys *)

Lemma create_license_empty_pool s fault now datetime_now user_id p duration_days created_by
    hwid_limit product_name :
  pool (fs s) p = [] ->
  create_license s fault now datetime_now user_id p duration_days created_by hwid_limit
    product_name
  = (None, s).
Proof.
  intros Hpool. unfold create_license.
  rewrite (get_available_key_empty _ _ Hpool). now destruct s.
Qed.

(** C9. On a non-empty pool [get_available_key] removes and returns the head
    of the queue and the count goes down by one.  On an empty pool it
    returns [None] and leaves the key files as they were, and
    [create_license] then returns [None] and changes nothing: no license is
    created.  In terms of the key file itself: when the file of the product
    holds the lines of the well-formed keys [k :: ks], the pool is [k :: ks],
    the key taken is [k] and the file is rewritten with the lines of [ks];
    when the file is empty, nothing is taken and nothing is written. *)
Theorem take_head_or_no_stock (s : state) (p : string) :
  match pool (fs s) p with
  | k :: ks =>
      exists fs', get_available_key (fs s) p = (Some k, fs')
        /\ pool fs' p = ks
        /\ get_key_count fs' p = (get_key_count (fs s) p - 1)%Z
  | [] =>
      get_available_key (fs s) p = (None, fs s)
      /\ forall fault now datetime_now user_id duration_days created_by hwid_limit
                product_name,
           create_license s fault now datetime_now user_id p duration_days created_by
             hwid_limit product_name = (None, s)
  end
  /\ forall cfg,
       dict_get KEYS_CONFIG p = Some cfg ->
       (forall k ks,
          (forall k', k' ∈ k :: ks -> well_formed_key k' = true) ->
          fs s !! file cfg = Some (write_keys (k :: ks)) ->
          pool (fs s) p = k :: ks
          /\ get_key_count (fs s) p = Z.of_nat (S (length ks))
          /\ get_available_key (fs s) p
             = (Some k, <[file cfg := write_keys ks]> (fs s))
          /\ get_key_count (<[file cfg := write_keys ks]> (fs s)) p
             = Z.of_nat (length ks))
       /\ (fs s !! file cfg = Some EmptyString ->
           pool (fs s) p = []
           /\ get_key_count (fs s) p = 0%Z
           /\ get_available_key (fs s) p = (None, fs s)).
Proof.
  split.
  - destruct (pool (fs s) p) as [|k ks] eqn:Hpool.
    + split; [now apply get_available_key_empty|].
      intros. now apply create_license_empty_pool.
    + destruct (get_available_key_head _ _ _ _ Hpool) as (fs' & Htake & Hks & _).
      exists fs'. split; [exact Htake|]. split; [exact Hks|].
      rewrite !get_key_count_pool, Hks, Hpool. simpl length. lia.
  - intros cfg Hcfg. split.
    + intros k ks Hwf Hfile.
      assert (Hpool : pool (fs s) p = k :: ks).
      { unfold pool. rewrite Hcfg, Hfile. now apply read_write_keys. }
      split; [exact Hpool|].
      split; [rewrite get_key_count_pool, Hpool; reflexivity|].
      split.
      * unfold get_available_key. rewrite Hcfg, Hfile.
        rewrite (read_write_keys (k :: ks) Hwf). reflexivity.
      * rewrite get_key_count_pool, (pool_write _ _ _ _ Hcfg), read_write_keys;
          [reflexivity|].
        intros k' Hk'. apply Hwf. now right.
    + intros Hfile.
      assert (Hpool : pool (fs s) p = []).
      { unfold pool. now rewrite Hcfg, Hfile. }
      split; [exact Hpool|].
      split; [rewrite get_key_count_pool, Hpool; reflexivity|].
      now apply get_available_key_empty.
Qed.

(** On a file with the two lines [K1] and [K2]: [K1] is taken and the file
    is left with the line [K2]. *)
Lemma take_head_or_no_stock_witness :
  pool (fs sample_state) "val1week" = ["K1"; "K2"]
  /\ get_key_count (fs sample_state) "val1week" = 2%Z
  /\ get_available_key (fs sample_state) "val1week"
     = (Some "K1", <["keys/val1week_keys.txt" := "K2" ++ NL]> (fs sample_state))
  /\ get_key_count (<["keys/val1week_keys.txt" := "K2" ++ NL]> (fs sample_state)) "val1week"
     = 1%Z.
Proof.
  destruct (take_head_or_no_stock sample_state "val1week") as [_ H].
  destruct (H {| file := "keys/val1week_keys.txt"; prefix := "VAL-1W-" |} eq_refl) as [Hfile _].
  apply (Hfile "K1" ["K2"]).
  - intros k' Hk'. apply elem_of_cons in Hk' as [->|Hk']; [reflexivity|].
    apply list_elem_of_singleton in Hk' as ->. reflexivity.
  - reflexivity.
Defined.

(** A pool in which the head key occurs twice: after a take and the return
    of the taken key the count is one less than before. *)
Lemma take_return_duplicate_head :
  let fs0 := val1week_files ("K1" ++ NL ++ "K1" ++ NL) in
  let fs1 := snd (get_available_key fs0 "val1week") in
  let fs2 := snd (return_key fs1 "val1week" "K1") in
  pool fs0 "val1week" = ["K1"; "K1"]
  /\ fst (get_available_key fs0 "val1week") = Some "K1"
  /\ fst (return_key fs1 "val1week" "K1") = true
  /\ get_key_count fs0 "val1week" = 2%Z
  /\ get_key_count fs2 "val1week" = 1%Z.
Proof. vm_compute. repeat split. Qed.

(** C4, amended.  When the head key of the pool does not occur again in the
    pool, a take followed by the return of the taken key restores the pool,
    hence the count, and the next take returns the same key.  Returning a
    key that is in the pool reports success and leaves the key files as they
    were. *)
Theorem take_then_return_key (fs : files) (p : string) :
  (forall k ks, pool fs p = k :: ks -> k ∉ ks ->
     exists fs1 fs2,
       get_available_key fs p = (Some k, fs1)
       /\ return_key fs1 p k = (true, fs2)
       /\ pool fs2 p = pool fs p
       /\ get_key_count fs2 p = get_key_count fs p
       /\ fst (get_available_key fs2 p) = Some k)
  /\ (forall k, k ∈ pool fs p -> return_key fs p k = (true, fs)).
Proof.
  split; [|intros k; apply return_key_present].
  intros k ks Hpool Hk.
  assert (Hwf : well_formed_key k = true).
  { apply (pool_well_formed fs p). rewrite Hpool. now left. }
  destruct (get_available_key_head _ _ _ _ Hpool) as (fs1 & Htake & Hks & _).
  assert (Hcfg : exists cfg, dict_get KEYS_CONFIG p = Some cfg).
  { unfold pool in Hpool. destruct (dict_get KEYS_CONFIG p); [eauto | discriminate]. }
  destruct Hcfg as [cfg Hcfg].
  destruct (return_key_absent fs1 p cfg k Hcfg) as (fs2 & Hret & Hpool2 & _);
    [now rewrite Hks | exact Hwf |].
  rewrite Hks in Hpool2.
  exists fs1, fs2. split; [exact Htake|]. split; [exact Hret|].
  split; [congruence|]. split.
  - rewrite !get_key_count_pool. congruence.
  - destruct (get_available_key_head _ _ _ _ Hpool2) as (fs3 & -> & _). reflexivity.
Qed.

Lemma take_then_return_key_witness :
  let fs0 := val1week_files ("K1" ++ NL ++ "K2" ++ NL) in
  pool fs0 "val1week" = ["K1"; "K2"]
  /\ (exists fs1 fs2,
        get_available_key fs0 "val1week" = (Some "K1", fs1)
        /\ return_key fs1 "val1week" "K1" = (true, fs2)
        /\ pool fs2 "val1week" = pool fs0 "val1week"
        /\ get_key_count fs2 "val1week" = get_key_count fs0 "val1week"
        /\ fst (get_available_key fs2 "val1week") = Some "K1")
  /\ return_key fs0 "val1week" "K2" = (true, fs0).
Proof.
  intros fs0.
  assert (Hpool : pool fs0 "val1week" = ["K1"; "K2"]) by (vm_compute; reflexivity).
  split; [exact Hpool|]. split.
  - apply (proj1 (take_then_return_key fs0 "val1week") "K1" ["K2"] Hpool).
    apply (bool_decide_unpack _). vm_compute. exact I.
  - apply (proj2 (take_then_return_key fs0 "val1week") "K2").
    apply (bool_decide_unpack _). vm_compute. exact I.
Defined.

(** What the code writes is empty or ends with ['\n']. *)
Lemma key_file_terminated_write fs p cfg ks :
  dict_get KEYS_CONFIG p = Some cfg ->
  key_file_terminated (<[file cfg := write_keys ks]> fs) p.
Proof.
  intros H. unfold key_file_terminated.
  rewrite H, lookup_insert_eq. apply ends_with_newline_write_keys.
Qed.

(** Stocking a key with a trailing blank next to the same key without it
    gives a pool that holds the key twice; stocking into a file whose last
    line has no ['\n'] glues the new key to the last one. *)
Lemma stock_padded_key_or_open_last_line :
  let fs0 := val1week_files ("K1" ++ NL) in
  let fs1 := snd (add_key fs0 "val1week" "K1 ") in
  let fs2 := val1week_files "K1" in
  let fs3 := snd (add_key fs2 "val1week" "K2") in
  (pool fs0 "val1week" = ["K1"]
   /\ fst (add_key fs0 "val1week" "K1 ") = true
   /\ pool fs1 "val1week" = ["K1"; "K1"]
   /\ ~ NoDup (pool fs1 "val1week"))
  /\ (pool fs2 "val1week" = ["K1"]
      /\ fst (add_key fs2 "val1week" "K2") = true
      /\ pool fs3 "val1week" = ["K1K2"]).
Proof.
  intros fs0 fs1 fs2 fs3.
  assert (H1 : pool fs1 "val1week" = ["K1"; "K1"]) by (vm_compute; reflexivity).
  split; [|vm_compute; repeat split].
  split; [vm_compute; reflexivity|]. split; [vm_compute; reflexivity|].
  split; [exact H1|]. rewrite H1. intros [Hin _]%NoDup_cons. apply Hin. now left.
Qed.

(** C7, amended.  In a pool without duplicates: a take leaves no duplicate;
    [return_key] leaves the files as they were when the key is in the pool,
    and leaves no duplicate when the key is well formed; [add_key] refuses a
    key that is in the pool and leaves the files as they were, and for a
    well-formed key and a key file that is empty or ends with a newline it
    leaves no duplicate and, the key being new, puts it at the tail. *)
Theorem pool_stays_duplicate_free (fs : files) (p : string) (cfg : key_config) :
  dict_get KEYS_CONFIG p = Some cfg ->
  NoDup (pool fs p) ->
  NoDup (pool (snd (get_available_key fs p)) p)
  /\ (forall k,
        (k ∈ pool fs p -> return_key fs p k = (true, fs))
        /\ (well_formed_key k = true -> NoDup (pool (snd (return_key fs p k)) p)))
  /\ (forall k,
        (k ∈ pool fs p -> add_key fs p k = (false, fs))
        /\ (well_formed_key k = true -> key_file_terminated fs p ->
            NoDup (pool (snd (add_key fs p k)) p)
            /\ (k ∉ pool fs p ->
                fst (add_key fs p k) = true
                /\ pool (snd (add_key fs p k)) p = (pool fs p ++ [k])%list))).
Proof.
  intros Hcfg Hnd. split; [|split].
  - destruct (pool fs p) as [|k ks] eqn:Hpool.
    + rewrite (get_available_key_empty _ _ Hpool). simpl. now rewrite Hpool.
    + destruct (get_available_key_head _ _ _ _ Hpool) as (fs' & -> & Hks & _).
      simpl. rewrite Hks. now apply NoDup_cons in Hnd as [_ Hnd].
  - intros k. split; [apply return_key_present|]. intros Hwf.
    destruct (decide (k ∈ pool fs p)) as [Hin|Hout].
    + now rewrite (return_key_present _ _ _ Hin).
    + destruct (return_key_absent fs p cfg k Hcfg Hout Hwf) as (fs' & -> & Hp & _).
      simpl. rewrite Hp. now apply NoDup_cons.
  - intros k. split; [apply add_key_present|]. intros Hwf Hterm.
    destruct (decide (k ∈ pool fs p)) as [Hin|Hout].
    + rewrite (add_key_present _ _ _ Hin). split; [exact Hnd | contradiction].
    + destruct (add_key_absent fs p cfg k Hcfg Hout Hwf Hterm) as (fs' & -> & Hp & _).
      simpl. rewrite Hp. split; [|intros _; split; reflexivity].
      apply NoDup_app. split; [exact Hnd|]. split; [|apply NoDup_singleton].
      intros x Hx ->%list_elem_of_singleton. contradiction.
Qed.

Lemma pool_stays_duplicate_free_witness :
  let fs0 := val1week_files ("K1" ++ NL ++ "K2" ++ NL) in
  NoDup (pool fs0 "val1week")
  /\ NoDup (pool (snd (get_available_key fs0 "val1week")) "val1week")
  /\ NoDup (pool (snd (return_key fs0 "val1week" "K3")) "val1week")
  /\ add_key fs0 "val1week" "K2" = (false, fs0)
  /\ pool (snd (add_key fs0 "val1week" "K3")) "val1week" = ["K1"; "K2"; "K3"].
Proof.
  intros fs0.
  assert (Hnd : NoDup (pool fs0 "val1week")).
  { apply (bool_decide_unpack _). vm_compute. exact I. }
  pose proof (pool_stays_duplicate_free fs0 "val1week" _ eq_refl Hnd)
    as (Htake & Hret & Hadd).
  split; [exact Hnd|]. split; [exact Htake|]. split; [|split].
  - apply (Hret "K3"). vm_compute. reflexivity.
  - apply (Hadd "K2"). apply (bool_decide_unpack _). vm_compute. exact I.
  - apply (Hadd "K3"); [vm_compute; reflexivity | vm_compute; reflexivity |].
    apply (bool_decide_unpack _). vm_compute. exact I.
Defined.

(** ** Connections and faults *)

(** Runs the calls of a connection; used after a case analysis on the
    fault. *)
Ltac run_sql :=
  cbv [connect sql_bind sql_ret sql_raise execute commit update query fmap option_fmap
       option_map Nat.pred calls_left work durable].

(** The same for a statement that binds the integer [n]. *)
Ltac run_bound n :=
  unfold binding; destruct (fits_sqlite_integer n); run_sql.

(** Splits a fault into: no fault, a fault at one of the first calls, a
    fault that comes after the last call. *)
Ltac fault_cases fault :=
  destruct fault as [[|[|[|[|[|[|?]]]]]]|].

Lemma get_user_no_fault d user_id :
  fits_sqlite_integer user_id = true ->
  get_user d None user_id = select_user user_id d.
Proof. intros H. unfold get_user, binding. now rewrite H. Qed.

Lemma get_user_cases d fault user_id :
  get_user d fault user_id = select_user user_id d \/ get_user d fault user_id = None.
Proof. unfold get_user. fault_cases fault; run_bound user_id; auto. Qed.

Lemma get_license_by_id_no_fault d license_id :
  get_license_by_id d None license_id = select_license license_id d.
Proof. reflexivity. Qed.

Lemma create_user_cases d fault now user_id username :
  create_user d fault now user_id username
    = (true, insert_or_ignore_user now user_id username d)
  \/ create_user d fault now user_id username = (false, d).
Proof. unfold create_user. fault_cases fault; run_bound user_id; auto. Qed.

Lemma update_user_activity_cases d fault now user_id :
  update_user_activity d fault now user_id
    = (true, update_user user_id (set_last_activity now) d)
  \/ update_user_activity d fault now user_id = (false, d).
Proof. unfold update_user_activity. fault_cases fault; run_bound user_id; auto. Qed.

Lemma log_admin_action_cases d fault now admin_id action target_user target_license details :
  log_admin_action d fault now admin_id action target_user target_license details
    = (true, insert_admin_log now admin_id action target_user target_license details d)
  \/ log_admin_action d fault now admin_id action target_user target_license details
    = (false, d).
Proof. unfold log_admin_action. fault_cases fault; run_sql; auto. Qed.

(** The three updates of [update_balance], in the order of the code. *)
Lemma update_balance_no_fault d now user_id amount transaction_type description :
  fits_sqlite_integer user_id = true ->
  update_balance d None now user_id amount transaction_type description =
  (true,
   (if Qltb 0 amount
    then update_user user_id (add_total_earned amount)
    else update_user user_id (add_total_spent (Qabs amount)))
     (insert_transaction now user_id amount transaction_type description
        (update_user user_id (add_balance amount) d))).
Proof.
  intros H. unfold update_balance, binding. rewrite H. run_sql.
  destruct (Qltb 0 amount); reflexivity.
Qed.

(** A [user_id] that SQLite cannot bind: the first statement raises. *)
Lemma update_balance_unbound d fault now user_id amount transaction_type description :
  fits_sqlite_integer user_id = false ->
  update_balance d fault now user_id amount transaction_type description = (false, d).
Proof.
  intros H. unfold update_balance, binding. rewrite H.
  fault_cases fault; run_sql; reflexivity.
Qed.

(** All or nothing: whatever the fault, [update_balance] either applies the
    three updates and returns [True], or returns [False] and leaves the
    database as it was. *)
Lemma update_balance_cases d fault now user_id amount transaction_type description :
  update_balance d fault now user_id amount transaction_type description
    = update_balance d None now user_id amount transaction_type description
  \/ update_balance d fault now user_id amount transaction_type description = (false, d).
Proof.
  unfold update_balance.
  fault_cases fault; run_bound user_id; destruct (Qltb 0 amount); auto.
Qed.

(** When [update_balance] returns [False] the database is as it was. *)
Lemma update_balance_false d fault now user_id amount transaction_type description d' :
  update_balance d fault now user_id amount transaction_type description = (false, d') ->
  d' = d.
Proof.
  destruct (fits_sqlite_integer user_id) eqn:Hfits;
    [|rewrite update_balance_unbound by exact Hfits; now intros [= <-]].
  destruct (update_balance_cases d fault now user_id amount transaction_type description)
    as [-> | ->]; [|now intros [= <-]].
  rewrite update_balance_no_fault by exact Hfits. discriminate.
Qed.

(** When [update_balance] returns [True] the [user_id] fits and the
    database is the one the three updates leave. *)
Lemma update_balance_true d fault now user_id amount transaction_type description d' :
  update_balance d fault now user_id amount transaction_type description = (true, d') ->
  fits_sqlite_integer user_id = true
  /\ update_balance d None now user_id amount transaction_type description = (true, d').
Proof.
  destruct (fits_sqlite_integer user_id) eqn:Hfits;
    [|rewrite update_balance_unbound by exact Hfits; discriminate].
  destruct (update_balance_cases d fault now user_id amount transaction_type description)
    as [-> | ->]; [auto | discriminate].
Qed.

Lemma expiry_Some datetime_now duration_days expires_at :
  expiry datetime_now duration_days = Some expires_at ->
  expires_at = (datetime_now + microseconds_per_day * duration_days)%Z
  /\ (0 <= expires_at <= datetime_max)%Z
  /\ (Z.abs duration_days <= 999999999)%Z.
Proof.
  unfold expiry.
  destruct (Z.abs duration_days <=? 999999999)%Z eqn:Hd; [|discriminate]. cbv zeta.
  destruct (0 <=? _)%Z eqn:H0; [|discriminate].
  destruct (_ <=? datetime_max)%Z eqn:H1; [|discriminate].
  intros [= <-]. apply Z.leb_le in Hd, H0, H1. lia.
Qed.

Lemma cleanup_expired_licenses_no_fault d count_now update_now :
  cleanup_expired_licenses d None count_now update_now
  = (count_expired_active count_now d, deactivate_expired update_now d).
Proof. reflexivity. Qed.

Lemma cleanup_expired_licenses_cases d fault count_now update_now :
  cleanup_expired_licenses d fault count_now update_now
    = cleanup_expired_licenses d None count_now update_now
  \/ cleanup_expired_licenses d fault count_now update_now = (0%Z, d).
Proof. unfold cleanup_expired_licenses. fault_cases fault; run_sql; auto. Qed.

(** ** The expiry sweep *)

Lemma set_inactive_of_inactive r : License.is_active r = false -> set_inactive r = r.
Proof. destruct r; simpl; intros ->; reflexivity. Qed.

Lemma deactivate_expired_active_only now l :
  map (fun r => if (License.expires_at r <=? now)%Z then set_inactive r else r) l
  = map (fun r => if License.is_active r && (License.expires_at r <=? now)%Z
                  then set_inactive r else r) l.
Proof.
  apply map_ext. intros r.
  destruct (License.expires_at r <=? now)%Z; [|now rewrite andb_false_r].
  destruct (License.is_active r) eqn:E; [reflexivity|].
  now apply set_inactive_of_inactive.
Qed.

Lemma count_expired_active_transitioned now l :
  Z.of_nat (length (filter (fun r => (License.expires_at r <= now)%Z
                                     /\ License.is_active r = true) l))
  = transitioned l
      (map (fun r => if (License.expires_at r <=? now)%Z then set_inactive r else r) l).
Proof.
  unfold transitioned. f_equal.
  induction l as [|r l IH]; [reflexivity|].
  simpl map. simpl combine. rewrite !filter_cons. simpl fst. simpl snd.
  destruct (Z.leb_spec (License.expires_at r) now) as [Hle|Hgt].
  - destruct (License.is_active r) eqn:E.
    + rewrite !decide_True by (split; [assumption || reflexivity | reflexivity]).
      simpl. now rewrite IH.
    + rewrite !decide_False by (intros [? ?]; congruence). exact IH.
  - rewrite decide_False by (intros [? ?]; lia).
    rewrite decide_False by (intros [? ?]; congruence). exact IH.
Qed.

Lemma deactivate_expired_idempotent now l :
  let g := fun r => if (License.expires_at r <=? now)%Z then set_inactive r else r in
  map g (map g l) = map g l.
Proof.
  intros g. rewrite map_map. apply map_ext. intros r. unfold g.
  destruct (License.expires_at r <=? now)%Z eqn:E; [|now rewrite E].
  simpl License.expires_at. now rewrite E.
Qed.

Lemma count_expired_active_after now l :
  filter (fun r => (License.expires_at r <= now)%Z /\ License.is_active r = true)
    (map (fun r => if (License.expires_at r <=? now)%Z then set_inactive r else r) l)
  = [].
Proof.
  induction l as [|r l IH]; [reflexivity|].
  simpl map. rewrite filter_cons_False; [exact IH|].
  destruct (Z.leb_spec (License.expires_at r) now); intros [? ?]; [discriminate | lia].
Qed.

(** A sweep whose two statements read the same clock value and that runs
    without a database error sets [is_active] to false in exactly the rows
    that are active and whose [expires_at] is at or before that value,
    returns the number of rows that went from active to inactive, changes no
    [expires_at] and no other table; a second sweep at the same clock value
    returns 0 and leaves the database as it is.  With a database error the
    sweep returns 0 and changes nothing. *)
Lemma sweep_within_one_clock_value (d : DB) (now : Z) :
  let '(count, d') := cleanup_expired_licenses d None now now in
  licenses d' = map (fun r => if License.is_active r && (License.expires_at r <=? now)%Z
                              then set_inactive r else r) (licenses d)
  /\ count = transitioned (licenses d) (licenses d')
  /\ map License.expires_at (licenses d') = map License.expires_at (licenses d)
  /\ users d' = users d /\ transactions d' = transactions d
  /\ admin_logs d' = admin_logs d
  /\ cleanup_expired_licenses d' None now now = (0%Z, d')
  /\ forall fault,
       cleanup_expired_licenses d fault now now = (count, d')
       \/ cleanup_expired_licenses d fault now now = (0%Z, d).
Proof.
  rewrite cleanup_expired_licenses_no_fault.
  split; [apply deactivate_expired_active_only|].
  split; [apply count_expired_active_transitioned|].
  split.
  { simpl. rewrite map_map. apply map_ext. intros r.
    now destruct (License.expires_at r <=? now)%Z. }
  split; [reflexivity|]. split; [reflexivity|]. split; [reflexivity|].
  split.
  - rewrite cleanup_expired_licenses_no_fault. f_equal.
    + unfold count_expired_active. simpl licenses.
      now rewrite count_expired_active_after.
    + unfold deactivate_expired, set_licenses. simpl.
      now rewrite (deactivate_expired_idempotent now (licenses d)).
  - intros fault. rewrite <- cleanup_expired_licenses_no_fault.
    apply cleanup_expired_licenses_cases.
Qed.

(** Whatever the two clock values and the fault, a sweep changes no
    [expires_at], no other column than [is_active], and no other table. *)
Lemma sweep_keeps_expiry (d : DB) (fault : option nat) (count_now update_now : Z) :
  let d' := snd (cleanup_expired_licenses d fault count_now update_now) in
  map License.expires_at (licenses d') = map License.expires_at (licenses d)
  /\ users d' = users d /\ transactions d' = transactions d
  /\ admin_logs d' = admin_logs d.
Proof.
  destruct (cleanup_expired_licenses_cases d fault count_now update_now) as [-> | ->];
    [|repeat split].
  rewrite cleanup_expired_licenses_no_fault. cbn [snd].
  split; [|repeat split].
  simpl. rewrite map_map. apply map_ext. intros r.
  now destruct (License.expires_at r <=? update_now)%Z.
Qed.

(** C8, at a failing input.  One active license expires half a second after
    the clock value 1000000 (one second).  The [SELECT COUNT] of the sweep
    reads [CURRENT_TIMESTAMP] within that second and counts no row; its
    [UPDATE] reads it within the next second and sets the license inactive.
    The sweep returns 0 and one license went from active to inactive; its
    [expires_at] is as before, and a second sweep returns 0 and changes
    nothing. *)
Theorem sweep_counts_before_it_flips :
  let '(count, d') := cleanup_expired_licenses sample_expiring_db None 1000000 2000000 in
  map License.is_active (licenses sample_expiring_db) = [true]
  /\ map License.expires_at (licenses sample_expiring_db) = [1500000%Z]
  /\ count = 0%Z
  /\ map License.is_active (licenses d') = [false]
  /\ transitioned (licenses sample_expiring_db) (licenses d') = 1%Z
  /\ map License.expires_at (licenses d') = [1500000%Z]
  /\ cleanup_expired_licenses d' None 2000000 2000000 = (0%Z, d').
Proof. vm_compute. repeat split. Qed.

(** ** The ledger *)

Lemma select_user_user_id u d r : select_user u d = Some r -> User.user_id r = u.
Proof.
  unfold select_user. intros H. apply find_some in H as [_ H]. lia.
Qed.

Lemma select_user_update_user u user_id f d :
  (forall r, User.user_id (f r) = User.user_id r) ->
  select_user u (update_user user_id f d)
  = (fun r => if (User.user_id r =? user_id)%Z then f r else r) <$> select_user u d.
Proof.
  intros Hf. unfold select_user, update_user, set_users. simpl users.
  induction (users d) as [|a l IH]; [reflexivity|].
  simpl map. simpl find.
  assert (E : User.user_id (if (User.user_id a =? user_id)%Z then f a else a)
              = User.user_id a).
  { destruct (User.user_id a =? user_id)%Z; [apply Hf | reflexivity]. }
  rewrite E. destruct (User.user_id a =? u)%Z; [reflexivity | exact IH].
Qed.

(** What one [update_balance] without a fault does to the row of the user
    and to the transaction log. *)
Lemma update_balance_row d now user_id amount transaction_type description r :
  fits_sqlite_integer user_id = true ->
  select_user user_id d = Some r ->
  select_user user_id
    (snd (update_balance d None now user_id amount transaction_type description))
  = Some (if Qltb 0 amount then add_total_earned amount (add_balance amount r)
          else add_total_spent (Qabs amount) (add_balance amount r)).
Proof.
  intros Hfits Hr. pose proof (select_user_user_id _ _ _ Hr) as Hid.
  rewrite update_balance_no_fault by exact Hfits. simpl snd.
  destruct (Qltb 0 amount);
    rewrite select_user_update_user by reflexivity;
    change (select_user user_id (insert_transaction ?a ?b ?c ?e ?f ?g))
      with (select_user user_id g);
    rewrite select_user_update_user by reflexivity;
    rewrite Hr; simpl; rewrite Hid, Z.eqb_refl;
    change (User.user_id (add_balance amount r)) with (User.user_id r);
    rewrite Hid, Z.eqb_refl; reflexivity.
Qed.

Lemma update_balance_log d now user_id amount transaction_type description :
  fits_sqlite_integer user_id = true ->
  transactions (snd (update_balance d None now user_id amount transaction_type description))
  = (transactions d ++
     [transaction_row (transactions d) now user_id amount transaction_type description])%list.
Proof.
  intros Hfits. rewrite update_balance_no_fault by exact Hfits.
  destruct (Qltb 0 amount); reflexivity.
Qed.

Lemma update_balance_other_tables d fault now user_id amount transaction_type description :
  let d' := snd (update_balance d fault now user_id amount transaction_type description) in
  licenses d' = licenses d /\ admin_logs d' = admin_logs d.
Proof.
  destruct (fits_sqlite_integer user_id) eqn:Hfits;
    [|rewrite update_balance_unbound by exact Hfits; split; reflexivity].
  destruct (update_balance_cases d fault now user_id amount transaction_type description)
    as [-> | ->]; [|split; reflexivity].
  rewrite update_balance_no_fault by exact Hfits.
  destruct (Qltb 0 amount); split; reflexivity.
Qed.

(** *** The listing of transactions *)

Lemma order_by_created_at_desc_snoc l t :
  order_by_created_at_desc (l ++ [t])%list = insert_desc t (order_by_created_at_desc l).
Proof. unfold order_by_created_at_desc. now rewrite fold_left_app. Qed.

Lemma elem_of_insert_desc x t l : x ∈ insert_desc t l <-> x = t \/ x ∈ l.
Proof.
  induction l as [|y l IH]; simpl.
  - rewrite list_elem_of_singleton, elem_of_nil. tauto.
  - destruct (Transaction.created_at y <? Transaction.created_at t)%Z.
    + now rewrite elem_of_cons.
    + rewrite !elem_of_cons, IH. tauto.
Qed.

Lemma elem_of_order_by_created_at_desc x l :
  x ∈ order_by_created_at_desc l <-> x ∈ l.
Proof.
  induction l as [|t l IH] using rev_ind; [reflexivity|].
  rewrite order_by_created_at_desc_snoc, elem_of_insert_desc, elem_of_app, IH.
  rewrite list_elem_of_singleton. tauto.
Qed.

(** A row newer than every row listed goes first. *)
Lemma insert_desc_newest t l :
  (forall x, x ∈ l -> (Transaction.created_at x < Transaction.created_at t)%Z) ->
  insert_desc t l = t :: l.
Proof.
  destruct l as [|y l]; [reflexivity|]. intros H. simpl.
  assert (Transaction.created_at y < Transaction.created_at t)%Z as ->%Z.ltb_lt
    by (apply H; now left).
  reflexivity.
Qed.

Lemma get_user_transactions_no_fault d user_id limit :
  get_user_transactions d None user_id limit
  = sql_limit limit (order_by_created_at_desc
      (filter (fun t => Transaction.user_id t = user_id) (transactions d))).
Proof. reflexivity. Qed.

(** *** Two adjustments in a row *)

(** [update_balance(u, +10)] and then [update_balance(u, -3)], both without
    a database error, for a user who has a row: the balance is up by 7,
    [total_earned] by 10 and [total_spent] by 3, and the log has two more
    rows.  When the second call reads a later clock value than the first,
    and the earlier rows of the user are older, the listing has the two new
    rows first, the newer one before the older one. *)
Lemma adjust_plus_10_minus_3 d user_id r now1 now2 ty1 desc1 ty2 desc2 :
  fits_sqlite_integer user_id = true ->
  select_user user_id d = Some r ->
  let d1 := snd (update_balance d None now1 user_id 10 ty1 desc1) in
  let d2 := snd (update_balance d1 None now2 user_id (-3) ty2 desc2) in
  let t1 := transaction_row (transactions d) now1 user_id 10 ty1 desc1 in
  let t2 := transaction_row (transactions d1) now2 user_id (-3) ty2 desc2 in
  (exists r', select_user user_id d2 = Some r'
     /\ User.balance r' == User.balance r + 7
     /\ User.total_earned r' == User.total_earned r + 10
     /\ User.total_spent r' == User.total_spent r + 3)
  /\ transactions d2 = (transactions d ++ [t1; t2])%list
  /\ ((now1 < now2)%Z ->
      (forall t, t ∈ transactions d -> Transaction.user_id t = user_id ->
                 (Transaction.created_at t < now1)%Z) ->
      forall limit,
        get_user_transactions d2 None user_id limit
        = sql_limit limit (t2 :: t1 :: get_user_transactions d None user_id (-1))).
Proof.
  intros Hfits Hr d1 d2 t1 t2.
  assert (Hlog : transactions d2 = (transactions d ++ [t1; t2])%list).
  { unfold d2. rewrite update_balance_log by exact Hfits. unfold d1 at 1.
    rewrite update_balance_log by exact Hfits. now rewrite <- app_assoc. }
  split; [|split; [exact Hlog|]].
  - eexists. split.
    + unfold d2. apply update_balance_row; [exact Hfits|]. unfold d1.
      apply update_balance_row; [exact Hfits|].
      exact Hr.
    + simpl. repeat split; ring.
  - intros Hlt Hold limit. rewrite !get_user_transactions_no_fault, Hlog.
    f_equal. change (sql_limit (-1) ?l) with l.
    rewrite filter_app.
    assert (Hnew : filter (fun t => Transaction.user_id t = user_id) [t1; t2] = [t1; t2]).
    { rewrite !filter_cons, filter_nil. now rewrite !decide_True by reflexivity. }
    rewrite Hnew.
    change [t1; t2] with ([t1] ++ [t2])%list.
    rewrite app_assoc, !order_by_created_at_desc_snoc.
    rewrite (insert_desc_newest t1).
    + apply insert_desc_newest.
      intros x [->|Hx]%elem_of_cons; [exact Hlt|].
      apply elem_of_order_by_created_at_desc, list_elem_of_filter in Hx as [Hu Hx].
      specialize (Hold x Hx Hu). simpl. lia.
    + intros x Hx.
      apply elem_of_order_by_created_at_desc, list_elem_of_filter in Hx as [Hu Hx].
      exact (Hold x Hx Hu).
Qed.

(** C3, at a failing input.  Two adjustments made within the same second
    get the same [created_at], and the listing then has the older one, the
    +10, before the newer one, the -3. *)
Theorem adjustments_in_the_same_second_are_listed_oldest_first :
  let d1 := snd (update_balance sample_db None 5 7 10 "admin_add" None) in
  let d2 := snd (update_balance d1 None 5 7 (-3) "admin_remove" None) in
  map Transaction.amount (get_user_transactions d2 None 7 10) = [10%Q; (-3)%Q]
  /\ map Transaction.id (get_user_transactions d2 None 7 10) = [1%Z; 2%Z]
  /\ map Transaction.created_at (get_user_transactions d2 None 7 10) = [5%Z; 5%Z].
Proof. vm_compute. repeat split. Qed.

(** The same two adjustments made at one clock reading: the listing has the
    older row first. *)
Lemma adjust_same_second_oldest_first d user_id now ty1 desc1 ty2 desc2 :
  let d1 := snd (update_balance d None now user_id 10 ty1 desc1) in
  let d2 := snd (update_balance d1 None now user_id (-3) ty2 desc2) in
  let t1 := transaction_row (transactions d) now user_id 10 ty1 desc1 in
  let t2 := transaction_row (transactions d1) now user_id (-3) ty2 desc2 in
  fits_sqlite_integer user_id = true ->
  (forall t, t ∈ transactions d -> Transaction.user_id t = user_id ->
             (Transaction.created_at t < now)%Z) ->
  forall limit,
    get_user_transactions d2 None user_id limit
    = sql_limit limit (t1 :: t2 :: get_user_transactions d None user_id (-1)).
Proof.
  intros d1 d2 t1 t2 Hfits Hold limit.
  assert (Hlog : transactions d2 = (transactions d ++ [t1; t2])%list).
  { unfold d2. rewrite update_balance_log by exact Hfits. unfold d1 at 1.
    rewrite update_balance_log by exact Hfits. now rewrite <- app_assoc. }
  rewrite !get_user_transactions_no_fault, Hlog.
  f_equal. change (sql_limit (-1) ?l) with l.
  rewrite filter_app.
  assert (Hnew : filter (fun t => Transaction.user_id t = user_id) [t1; t2] = [t1; t2]).
  { rewrite !filter_cons, filter_nil. now rewrite !decide_True by reflexivity. }
  rewrite Hnew.
  change [t1; t2] with ([t1] ++ [t2])%list.
  rewrite app_assoc, !order_by_created_at_desc_snoc.
  assert (Hnewest : forall x,
    x ∈ order_by_created_at_desc
          (filter (fun t => Transaction.user_id t = user_id) (transactions d)) ->
    (Transaction.created_at x < now)%Z).
  { intros x Hx.
    apply elem_of_order_by_created_at_desc, list_elem_of_filter in Hx as [Hu Hx].
    exact (Hold x Hx Hu). }
  rewrite (insert_desc_newest t1) by exact Hnewest.
  simpl insert_desc. rewrite Z.ltb_irrefl. f_equal.
  apply insert_desc_newest. exact Hnewest.
Qed.

(** ** Licenses *)

Lemma find_app_None {A} (f : A -> bool) (l l' : list A) :
  find f l = None -> find f (l ++ l')%list = find f l'.
Proof.
  induction l as [|a l IH]; [reflexivity|]. simpl.
  destruct (f a); [discriminate | exact IH].
Qed.

Lemma select_license_of_deleted license_id user_id d :
  select_license_of license_id user_id (delete_license_row license_id user_id d) = None.
Proof.
  unfold select_license_of, delete_license_row, set_licenses. simpl licenses.
  induction (licenses d) as [|r l IH]; [reflexivity|].
  rewrite filter_cons. destruct (decide _) as [Hkeep|Hdrop]; [|exact IH].
  simpl find. rewrite IH.
  destruct (String.eqb_spec (License.license_id r) license_id) as [E1|];
    [|reflexivity].
  destruct (Z.eqb_spec (License.user_id r) user_id) as [E2|]; [|reflexivity].
  exfalso. apply Hkeep. now split.
Qed.

(** The two ways [create_license] ends when the pool is not empty: the row
    is inserted and the key stays out of the pool, or nothing is inserted
    and [return_key] is called with the key that was taken. *)
Lemma create_license_cases s fault now datetime_now user_id p duration_days created_by
    hwid_limit product_name k ks :
  pool (fs s) p = k :: ks ->
  exists fs1,
    get_available_key (fs s) p = (Some k, fs1) /\ pool fs1 p = ks /\
    ((select_license k (db s) = None /\
      expiry datetime_now duration_days
        = Some (datetime_now + microseconds_per_day * duration_days)%Z /\
      fits_sqlite_integer user_id && fits_sqlite_integer hwid_limit
        && fits_sqlite_integer created_by = true /\
      create_license s fault now datetime_now user_id p duration_days created_by hwid_limit
        product_name
      = (Some k,
         {| fs := fs1;
            db := set_licenses (fun ls =>
                    ls ++ [license_row now k user_id p product_name hwid_limit
                             (datetime_now + microseconds_per_day * duration_days)
                             created_by])%list
                    (db s) |}))
     \/ create_license s fault now datetime_now user_id p duration_days created_by
          hwid_limit product_name
        = (None, {| fs := snd (return_key fs1 p k); db := db s |})).
Proof.
  intros Hpool.
  assert (Hk : truthy k = true).
  { assert (Hwf : well_formed_key k = true)
      by (apply (pool_well_formed (fs s) p); rewrite Hpool; now left).
    apply well_formed_key_spec in Hwf as [Hne _]. destruct k; [congruence | reflexivity]. }
  destruct (get_available_key_head _ _ _ _ Hpool) as (fs1 & Htake & Hks & _).
  exists fs1. split; [exact Htake|]. split; [exact Hks|].
  unfold create_license. rewrite Htake, Hk. simpl negb. cbv iota.
  destruct (return_key fs1 p k) as [ok fs2] eqn:Hret. simpl snd.
  assert (Hexp : expiry datetime_now duration_days = None
                 \/ expiry datetime_now duration_days
                    = Some (datetime_now + microseconds_per_day * duration_days)%Z).
  { unfold expiry. destruct (Z.abs duration_days <=? 999999999)%Z; [|now left].
    cbv zeta. destruct (_ && _); [now right | now left]. }
  destruct Hexp as [Hexp | Hexp]; rewrite Hexp.
  { right. fault_cases fault; run_sql; reflexivity. }
  unfold binding.
  destruct (fits_sqlite_integer user_id);
    [|right; fault_cases fault; run_sql; reflexivity].
  destruct (fits_sqlite_integer hwid_limit);
    [|right; fault_cases fault; run_sql; reflexivity].
  destruct (fits_sqlite_integer created_by);
    [|right; fault_cases fault; run_sql; reflexivity].
  destruct (select_license k (db s)) eqn:Hsel.
  - right. fault_cases fault; run_sql; try unfold insert_license; rewrite ?Hsel;
      reflexivity.
  - fault_cases fault; run_sql; try unfold insert_license; rewrite ?Hsel;
      first [ right; reflexivity | left; repeat split; reflexivity ].
Qed.

Lemma delete_license_cases s fault license_id user_id :
  (exists row, select_license_of license_id user_id (db s) = Some row /\
     delete_license s fault license_id user_id
     = (true, {| fs := snd (return_key (fs s) (License.product_type row) license_id);
                 db := delete_license_row license_id user_id (db s) |}))
  \/ delete_license s fault license_id user_id = (false, s).
Proof.
  unfold delete_license.
  destruct (select_license_of license_id user_id (db s)) as [row|] eqn:Hsel.
  - destruct (return_key (fs s) (License.product_type row) license_id) as [ok fs'] eqn:Hret.
    fault_cases fault; run_sql; rewrite ?Hsel;
      first [ right; destruct s; reflexivity
            | left; exists row; split; [reflexivity|]; rewrite Hret; reflexivity ].
  - right. fault_cases fault; run_sql; rewrite ?Hsel; destruct s; reflexivity.
Qed.

Lemma delete_license_no_fault s license_id user_id row :
  select_license_of license_id user_id (db s) = Some row ->
  delete_license s None license_id user_id
  = (true, {| fs := snd (return_key (fs s) (License.product_type row) license_id);
              db := delete_license_row license_id user_id (db s) |}).
Proof.
  intros Hsel. unfold delete_license. run_sql. rewrite Hsel.
  now destruct (return_key (fs s) (License.product_type row) license_id).
Qed.

(** A pool whose head key occurs twice and an [INSERT] that raises:
    [create_license] returns [None] and the count is one less than before. *)
Lemma create_license_duplicate_head :
  let s0 := {| fs := val1week_files ("K1" ++ NL ++ "K1" ++ NL); db := sample_db |} in
  let r := create_license s0 (Some 1%nat) 100 100 7 "val1week" 7 7 1 None in
  fst r = None
  /\ get_key_count (fs s0) "val1week" = 2%Z
  /\ get_key_count (fs (snd r)) "val1week" = 1%Z.
Proof. vm_compute. repeat split. Qed.

(** C10, amended.  On an empty pool [create_license] returns [None] and
    changes nothing.  On a pool whose head key does not occur again in the
    pool it either returns that key, which has left the pool (the count is
    one less) and is the [license_id] of a row of the table, or returns
    [None] with the pool, the count and the database as before the call. *)
Theorem create_license_all_or_nothing (s : state) (fault : option nat)
    (now datetime_now user_id : Z) (p : string) (duration_days created_by hwid_limit : Z)
    (product_name : option string) :
  (pool (fs s) p = [] ->
   create_license s fault now datetime_now user_id p duration_days created_by hwid_limit
     product_name
   = (None, s))
  /\ (forall k ks, pool (fs s) p = k :: ks -> k ∉ ks ->
      exists s',
        (create_license s fault now datetime_now user_id p duration_days created_by
           hwid_limit product_name = (Some k, s')
         /\ pool (fs s') p = ks
         /\ get_key_count (fs s') p = (get_key_count (fs s) p - 1)%Z
         /\ exists row, select_license k (db s') = Some row
                        /\ License.license_id row = k)
        \/ (create_license s fault now datetime_now user_id p duration_days created_by
              hwid_limit product_name = (None, s')
            /\ pool (fs s') p = pool (fs s) p
            /\ get_key_count (fs s') p = get_key_count (fs s) p
            /\ db s' = db s)).
Proof.
  split.
  - apply create_license_empty_pool.
  - intros k ks Hpool Hk.
    destruct (create_license_cases s fault now datetime_now user_id p duration_days
                created_by hwid_limit product_name k ks Hpool)
      as (fs1 & Htake & Hks & [(Hsel & _ & _ & ->) | ->]); eexists.
    + left. split; [reflexivity|]. simpl fs. simpl db. split; [exact Hks|]. split.
      * rewrite !get_key_count_pool, Hks, Hpool. simpl length. lia.
      * eexists. split.
        -- unfold select_license, set_licenses in *. simpl licenses.
           rewrite (find_app_None _ _ _ Hsel). simpl. rewrite String.eqb_refl.
           reflexivity.
        -- reflexivity.
    + right. split; [reflexivity|]. simpl fs. simpl db.
      assert (Hwf : well_formed_key k = true)
        by (apply (pool_well_formed (fs s) p); rewrite Hpool; now left).
      assert (Hcfg : exists cfg, dict_get KEYS_CONFIG p = Some cfg).
      { unfold pool in Hpool. destruct (dict_get KEYS_CONFIG p); [eauto | discriminate]. }
      destruct Hcfg as [cfg Hcfg].
      destruct (return_key_absent fs1 p cfg k Hcfg) as (fs2 & Hret & Hpool2 & _);
        [now rewrite Hks | exact Hwf |].
      rewrite Hret. simpl snd. rewrite Hks in Hpool2.
      split; [congruence|]. split; [|reflexivity].
      rewrite !get_key_count_pool. congruence.
Qed.

Lemma create_license_all_or_nothing_witness :
  pool (fs sample_state) "val1week" = ["K1"; "K2"]
  /\ exists s',
       (create_license sample_state None 100 100 7 "val1week" 7 7 1 None = (Some "K1", s')
        /\ pool (fs s') "val1week" = ["K2"]
        /\ get_key_count (fs s') "val1week"
           = (get_key_count (fs sample_state) "val1week" - 1)%Z
        /\ exists row, select_license "K1" (db s') = Some row
                       /\ License.license_id row = "K1")
       \/ (create_license sample_state None 100 100 7 "val1week" 7 7 1 None = (None, s')
           /\ pool (fs s') "val1week" = pool (fs sample_state) "val1week"
           /\ get_key_count (fs s') "val1week" = get_key_count (fs sample_state) "val1week"
           /\ db s' = db sample_state).
Proof.
  assert (Hpool : pool (fs sample_state) "val1week" = ["K1"; "K2"])
    by (vm_compute; reflexivity).
  split; [exact Hpool|].
  apply (proj2 (create_license_all_or_nothing sample_state None 100 100 7 "val1week" 7 7 1
                  None)
           "K1" ["K2"] Hpool).
  apply (bool_decide_unpack _). vm_compute. exact I.
Defined.

(** Deleting the license of key ["K9"]: the pool of its product, which held
    ["K1"], holds ["K9"] and ["K1"] afterwards. *)
Lemma delete_license_changes_the_pool :
  let r := delete_license sample_issued_state None "K9" 7 in
  fst r = true
  /\ pool (fs sample_issued_state) "val1week" = ["K1"]
  /\ pool (fs (snd r)) "val1week" = ["K9"; "K1"]
  /\ get_key_count (fs sample_issued_state) "val1week" = 1%Z
  /\ get_key_count (fs (snd r)) "val1week" = 2%Z.
Proof. vm_compute. repeat split. Qed.

(** C5, amended.  [delete_license] returns the key itself: when it returns
    [True] the row it found is gone and the key files are what [return_key],
    called with the product of that row and the license id, leaves; when it
    returns [False] nothing has changed.  The handler of the Delete button
    calls [delete_license] and no [return_key] of its own: the key files
    after it are the key files after [delete_license]. *)
Theorem delete_license_returns_the_key (s : state) (fault : option nat)
    (license_id : string) (user_id : Z) :
  (let '(ok, s') := delete_license s fault license_id user_id in
   if ok then
     exists row, select_license_of license_id user_id (db s) = Some row
       /\ fs s' = snd (return_key (fs s) (License.product_type row) license_id)
       /\ select_license_of license_id user_id (db s') = None
   else s' = s)
  /\ (forall view button_user_id log_fault now,
       DeleteConfirmView.license_id view = license_id ->
       License.user_id (DeleteConfirmView.license_data view) = user_id ->
       fs (snd (DeleteConfirmView_confirm_delete s view button_user_id fault log_fault now))
       = if (button_user_id =? DeleteConfirmView.interaction_user_id view)%Z
         then fs (snd (delete_license s fault license_id user_id))
         else fs s).
Proof.
  split.
  - destruct (delete_license_cases s fault license_id user_id) as [(row & Hsel & ->) | ->];
      [|reflexivity].
    exists row. split; [exact Hsel|]. split; [reflexivity|].
    apply select_license_of_deleted.
  - intros view button_user_id log_fault now <- <-.
    unfold DeleteConfirmView_confirm_delete.
    destruct (button_user_id =? DeleteConfirmView.interaction_user_id view)%Z;
      [|reflexivity].
    simpl negb. cbv iota.
    destruct (delete_license s fault _ _) as [[|] s1]; [|reflexivity].
    now destruct (log_admin_action _ _ _ _ _ _ _ _).
Qed.

Lemma delete_license_returns_the_key_witness :
  let view := {| DeleteConfirmView.interaction_user_id := 1091441605430493185;
                 DeleteConfirmView.license_id := "K9";
                 DeleteConfirmView.license_data :=
                   license_row 50 "K9" 7 "val1week" None 1 604850 7;
                 DeleteConfirmView.reason := "Deleted by admin" |} in
  pool (fs (snd (DeleteConfirmView_confirm_delete sample_issued_state view
                   1091441605430493185 None None 200))) "val1week"
  = ["K9"; "K1"].
Proof.
  intros view.
  rewrite (proj2 (delete_license_returns_the_key sample_issued_state None "K9" 7)
             view 1091441605430493185%Z None 200%Z eq_refl eq_refl).
  vm_compute. reflexivity.
Defined.

(** ** The purchase flow *)

Lemma Qltb_lt (a b : Q) : Qltb a b = true <-> (a < b)%Q.
Proof.
  unfold Qltb. rewrite negb_true_iff, <- not_true_iff_false, Qle_bool_iff.
  split; [apply Qnot_le_lt | apply Qlt_not_le].
Qed.

(** For a user who has a row, [ensure_user_exists] changes at most the
    [last_activity] of that row. *)
Lemma ensure_user_exists_existing d faults clocks user_id username r :
  select_user user_id d = Some r ->
  ensure_user_exists d faults clocks user_id username = d
  \/ ensure_user_exists d faults clocks user_id username
     = update_user user_id (set_last_activity (update_user_activity_now clocks)) d.
Proof.
  intros Hr. unfold ensure_user_exists.
  assert (Hins : insert_or_ignore_user (create_user_now clocks) user_id username d = d)
    by (unfold insert_or_ignore_user; now rewrite Hr).
  destruct (create_user_cases d (create_user_fault faults) (create_user_now clocks)
              user_id username)
    as [-> | ->]; rewrite ?Hins;
  destruct (update_user_activity_cases d (update_user_activity_fault faults)
              (update_user_activity_now clocks) user_id)
    as [-> | ->]; auto.
Qed.

Section PurchaseFlow.

Variable int_of_str : string -> option Z.
Variable str_of_int : Z -> string.
Variable format_money : Q -> string.
Variable cached_display_name : Z -> option string.
Variable float_mul : Q -> Q -> Q.
Variable float_sub : Q -> Q -> Q.
Variable float_lt : Q -> Q -> bool.

(** Whatever it replies, the [/purchase] command touches the state through
    [ensure_user_exists] only. *)
Lemma purchase_state s faults get_user_fault clocks user_id display_name p target :
  snd (purchase int_of_str str_of_int cached_display_name float_mul float_sub float_lt
         s faults get_user_fault clocks user_id display_name p target)
  = {| fs := fs s; db := ensure_user_exists (db s) faults clocks user_id display_name |}.
Proof.
  unfold purchase.
  destruct (get_user _ _ _) as [user_data|]; [|reflexivity].
  destruct (User.is_reseller user_data); [|reflexivity]. simpl negb. cbv iota.
  destruct (dict_get PRODUCTS p) as [prod|]; [|reflexivity].
  destruct (_ <=? 0)%Z; [reflexivity|].
  destruct (float_lt _ _); [reflexivity|].
  destruct target as [[|c rest]|]; try reflexivity.
  destruct (int_of_str _); reflexivity.
Qed.

(** When the test [user_data['balance'] < reseller_price] of the command
    holds for the row of the buyer, the [/purchase] command sends no
    confirmation: the key files (hence every count), the licenses and the
    transactions are as before, and the row of the buyer has the same
    balance and totals. *)
Lemma purchase_refuses_a_balance_below_the_price
    (s : state) (faults : ensure_faults) (get_user_fault : option nat)
    (clocks : ensure_clocks) (user_id : Z) (display_name p : string)
    (target : option string) (r : User.row) (prod : product) :
  select_user user_id (db s) = Some r ->
  dict_get PRODUCTS p = Some prod ->
  float_lt (User.balance r) (float_mul (price prod) (float_sub 1 (User.commission_rate r)))
    = true ->
  let '(reply, s') :=
    purchase int_of_str str_of_int cached_display_name float_mul float_sub float_lt
      s faults get_user_fault clocks user_id display_name p target in
  (forall view, reply <> Purchase_Confirmation view)
  /\ fs s' = fs s
  /\ get_key_count (fs s') p = get_key_count (fs s) p
  /\ licenses (db s') = licenses (db s)
  /\ transactions (db s') = transactions (db s)
  /\ exists r', select_user user_id (db s') = Some r'
       /\ User.balance r' = User.balance r
       /\ User.total_spent r' = User.total_spent r
       /\ User.total_earned r' = User.total_earned r.
Proof.
  intros Hr Hprod Hlt.
  pose proof (purchase_state s faults get_user_fault clocks user_id display_name p target)
    as Hstate.
  destruct (purchase _ _ _ _ _ _ s faults get_user_fault clocks user_id display_name p
              target)
    as [reply s'] eqn:Hrun.
  simpl in Hstate. subst s'. simpl fs. simpl db.
  pose proof (select_user_user_id _ _ _ Hr) as Hid.
  assert (Hrow : exists r', select_user user_id
                   (ensure_user_exists (db s) faults clocks user_id display_name) = Some r'
              /\ User.balance r' = User.balance r
              /\ User.total_spent r' = User.total_spent r
              /\ User.total_earned r' = User.total_earned r
              /\ User.commission_rate r' = User.commission_rate r).
  { destruct (ensure_user_exists_existing (db s) faults clocks user_id display_name r Hr)
      as [-> | ->].
    - exists r. auto.
    - rewrite select_user_update_user by reflexivity. rewrite Hr. simpl.
      rewrite Hid, Z.eqb_refl. eexists. split; [reflexivity|]. auto. }
  assert (Hlic : licenses (ensure_user_exists (db s) faults clocks user_id display_name)
                 = licenses (db s)
              /\ transactions (ensure_user_exists (db s) faults clocks user_id display_name)
                 = transactions (db s)).
  { destruct (ensure_user_exists_existing (db s) faults clocks user_id display_name r Hr)
      as [-> | ->]; split; reflexivity. }
  destruct Hrow as (r' & Hr' & Hb & Hs & He & Hc). destruct Hlic as [Hl Ht].
  split; [|split; [reflexivity|]; split; [reflexivity|]; split; [exact Hl|];
           split; [exact Ht|]; exists r'; auto].
  intros view Hview. revert Hrun. unfold purchase.
  destruct (get_user_cases (ensure_user_exists (db s) faults clocks user_id display_name)
              get_user_fault user_id) as [-> | ->]; [rewrite Hr'|discriminate || idtac].
  - destruct (User.is_reseller r'); simpl negb; cbv iota; [|rewrite Hview; discriminate].
    rewrite Hprod.
    destruct (_ <=? 0)%Z; [rewrite Hview; discriminate|].
    rewrite Hb, Hc, Hlt.
    rewrite Hview. discriminate.
  - rewrite Hview. discriminate.
Qed.

End PurchaseFlow.

(** C6, at a failing input.  A reseller with a balance of 100 and a
    commission rate of 25% runs [/purchase val1week] twice and gets two
    confirmations at the price of 75.  The first click on Purchase issues
    ["K1"] and leaves a balance of 25.  At the second click the balance is
    below the price; the handler does not test it: it issues ["K2"], the
    count goes from 1 to 0, a second transaction is recorded and the balance
    is -50. *)
Theorem purchase_below_the_price_goes_through :
  let command s :=
    purchase (fun _ => None) (fun _ => EmptyString) (fun _ => None) Qmult Qminus Qltb
      s no_faults None (ensure_at 100) 7 "Admin" "val1week" None in
  let click s view now :=
    PurchaseView_purchase (fun _ => EmptyString) (fun _ => EmptyString) s view 7
      no_faults None None None (ensure_at now) now now now now in
  let balance s := Qred <$> (User.balance <$> select_user 7 (db s)) in
  let first_command := command sample_tight_state in
  let second_command := command (snd first_command) in
  match fst first_command, fst second_command with
  | Purchase_Confirmation view1, Purchase_Confirmation view2 =>
      let first_click := click (snd second_command) view1 101%Z in
      let second_click := click (snd first_click) view2 102%Z in
      Qred (PurchaseView.reseller_price view1) = 75%Q
      /\ Qred (PurchaseView.reseller_price view2) = 75%Q
      /\ balance (snd second_command) = Some 100%Q
      /\ get_key_count (fs (snd second_command)) "val1week" = 2%Z
      /\ fst first_click = Purchase_Successful "K1"
      /\ balance (snd first_click) = Some 25%Q
      /\ get_key_count (fs (snd first_click)) "val1week" = 1%Z
      /\ Qltb 25 (PurchaseView.reseller_price view2) = true
      /\ fst second_click = Purchase_Successful "K2"
      /\ map License.license_id (licenses (db (snd second_click))) = ["K1"; "K2"]
      /\ get_key_count (fs (snd second_click)) "val1week" = 0%Z
      /\ map (fun t => Qred (Transaction.amount t)) (transactions (db (snd second_click)))
         = [(-75)%Q; (-75)%Q]
      /\ balance (snd second_click) = Some (-50)%Q
  | _, _ => False
  end.
Proof. vm_compute. repeat split. Qed.

Section PaymentFailure.

Variable str_of_int : Z -> string.
Variable format_money : Q -> string.

(** Whenever the handler of the Purchase button ends with "Payment Failed",
    there is a key that is the [license_id] of a row of the table, issued to
    the target user, and that is in the pool of the product as well. *)
Lemma payment_failed_leaves_the_license s view button_user_id faults
    create_license_fault update_balance_fault log_fault clocks create_license_now
    datetime_now update_balance_now log_now s' :
  PurchaseView_purchase str_of_int format_money s view button_user_id faults
    create_license_fault update_balance_fault log_fault clocks create_license_now
    datetime_now update_balance_now log_now = (Payment_Failed, s') ->
  exists k row,
    select_license k (db s') = Some row
    /\ License.license_id row = k
    /\ License.user_id row = PurchaseView.target_user_id view
    /\ k ∈ pool (fs s') (PurchaseView.product_type view).
Proof.
  unfold PurchaseView_purchase.
  destruct (button_user_id =? PurchaseView.interaction_user_id view)%Z;
    simpl negb; cbv iota; [|discriminate].
  set (d1 := ensure_user_exists (db s) faults clocks (PurchaseView.target_user_id view)
               (PurchaseView.target_username view)).
  set (p := PurchaseView.product_type view).
  set (s1 := {| fs := fs s; db := d1 |}).
  destruct (pool (fs s1) p) as [|k ks] eqn:Hpool.
  { rewrite (create_license_empty_pool s1 create_license_fault create_license_now
               datetime_now _ p _ _ _ _ Hpool).
    discriminate. }
  destruct (create_license_cases s1 create_license_fault create_license_now datetime_now
              (PurchaseView.target_user_id view) p
              (duration (PurchaseView.product view))
              (PurchaseView.interaction_user_id view) 1
              (Some (name (PurchaseView.product view))) k ks Hpool)
    as (fs1 & Htake & Hks & [(Hsel & _ & _ & ->) | ->]); [|discriminate].
  assert (Hk : truthy k = true).
  { assert (Hwf : well_formed_key k = true)
      by (apply (pool_well_formed (fs s1) p); rewrite Hpool; now left).
    apply well_formed_key_spec in Hwf as [Hne _]. destruct k; [congruence | reflexivity]. }
  rewrite Hk. simpl negb. cbv iota. simpl db. simpl fs.
  match goal with
  | |- context [update_balance ?d ?f ?n ?u ?a ?t ?e] =>
      destruct (update_balance d f n u a t e) as [[|] d3] eqn:Hpay
  end; simpl negb; cbv iota.
  { destruct (log_admin_action _ _ _ _ _ _ _ _). discriminate. }
  match type of Hpay with
  | update_balance ?d ?f ?n ?u ?a ?t ?e = _ =>
      assert (Hd3 : d3 = d);
      [destruct (fits_sqlite_integer u) eqn:Hfits;
       [destruct (update_balance_cases d f n u a t e) as [E | E];
        [rewrite E, update_balance_no_fault in Hpay by exact Hfits; discriminate
        |rewrite E in Hpay; now injection Hpay as <-]
       |rewrite update_balance_unbound in Hpay by exact Hfits; now injection Hpay as <-]
      |subst d3]
  end.
  destruct (return_key fs1 p k) as [ok fs4] eqn:Hret.
  intros [= <-]. simpl db. simpl fs.
  exists k. eexists. split.
  { unfold select_license, set_licenses in *. simpl licenses.
    rewrite (find_app_None _ _ _ Hsel). simpl. now rewrite String.eqb_refl. }
  split; [reflexivity|]. split; [reflexivity|].
  - destruct (decide (k ∈ ks)) as [Hin|Hout].
    + rewrite return_key_present in Hret by now rewrite Hks.
      injection Hret as _ <-. now rewrite Hks.
    + assert (Hwf : well_formed_key k = true)
        by (apply (pool_well_formed (fs s1) p); rewrite Hpool; now left).
      assert (Hcfg : exists cfg, dict_get KEYS_CONFIG p = Some cfg).
      { unfold pool in Hpool. destruct (dict_get KEYS_CONFIG p); [eauto | discriminate]. }
      destruct Hcfg as [cfg Hcfg].
      destruct (return_key_absent fs1 p cfg k Hcfg) as (fs2 & Hret2 & Hpool2 & _);
        [now rewrite Hks | exact Hwf |].
      rewrite Hret2 in Hret. injection Hret as _ <-. rewrite Hpool2. now left.
Qed.

(** C1, at a failing input.  The sample reseller confirms the purchase of a
    ["val1week"] license and the connection of [update_balance] cannot be
    opened.  The handler reports "Payment Failed"; the key ["K1"] is back at
    the head of the pool, the count, the balance and the transactions are as
    before, and the license ["K1"] is still there, active, retrievable by
    its id. *)
Theorem payment_failure_keeps_the_license :
  let '(click, s') :=
    PurchaseView_purchase str_of_int format_money sample_state sample_view 7 no_faults
      None (Some 0%nat) None (ensure_at 101) 101 101 101 101 in
  click = Payment_Failed
  /\ pool (fs s') "val1week" = ["K1"; "K2"]
  /\ get_key_count (fs s') "val1week" = get_key_count (fs sample_state) "val1week"
  /\ User.balance <$> get_user (db s') None 7 = Some 1000%Q
  /\ transactions (db s') = []
  /\ get_license_by_id (db s') None "K1"
     = Some (license_row 101 "K1" 7 "val1week" (Some "Valorant 1 Week License") 1
               (101 + 7 * microseconds_per_day) 7).
Proof. vm_compute. repeat split. Qed.

End PaymentFailure.

(** The view of the failing input is the one the command builds. *)
Lemma sample_view_from_purchase int_of_str str_of_int cached_display_name :
  fst (purchase int_of_str str_of_int cached_display_name Qmult Qminus Qltb sample_state
         no_faults None (ensure_at 100) 7 "Admin" "val1week" None)
  = Purchase_Confirmation sample_view.
Proof. vm_compute. reflexivity. Qed.

(** ** Takes one after the other *)

(** As many takes as the pool has keys return the keys of the pool in its
    order, so different keys when the pool has no duplicate, and empty it;
    one more take returns [None]. *)
Lemma take_many_pool fs p :
  exists fs', take_many (length (pool fs p)) fs p = (map Some (pool fs p), fs')
    /\ (NoDup (pool fs p) -> NoDup (fst (take_many (length (pool fs p)) fs p)))
    /\ pool fs' p = []
    /\ get_available_key fs' p = (None, fs').
Proof.
  assert (H : exists fs', take_many (length (pool fs p)) fs p = (map Some (pool fs p), fs')
                /\ pool fs' p = [] /\ get_available_key fs' p = (None, fs')).
  { remember (pool fs p) as ks eqn:Hks. revert fs Hks.
    induction ks as [|k ks IH]; intros fs Hks.
    - exists fs. split; [reflexivity|]. split; [now symmetry|].
      now apply get_available_key_empty.
    - destruct (get_available_key_head fs p k ks) as (fs1 & Htake & Hpool1 & _);
        [now symmetry|].
      destruct (IH fs1) as (fs' & Hmany & Hempty & Hnone); [now symmetry|].
      exists fs'. split; [|split; assumption].
      simpl take_many. rewrite Htake, Hmany. reflexivity. }
  destruct H as (fs' & Hmany & Hempty & Hnone).
  exists fs'. split; [exact Hmany|]. split; [|split; assumption].
  intros Hnd. rewrite Hmany. simpl fst.
  apply (NoDup_fmap_2 Some). exact Hnd.
Qed.

(** ** After a failed payment *)

(** While the key at the head of the pool is the [license_id] of a row of
    the table, [create_license] returns [None], whatever the fault: the
    [INSERT] is refused and the key goes back to the head. *)
Lemma issued_key_at_head_blocks_create_license s fault now datetime_now user_id p
    duration_days created_by hwid_limit product_name k ks row :
  pool (fs s) p = k :: ks -> k ∉ ks ->
  select_license k (db s) = Some row ->
  exists s',
    create_license s fault now datetime_now user_id p duration_days created_by hwid_limit
      product_name
    = (None, s')
    /\ pool (fs s') p = k :: ks /\ db s' = db s.
Proof.
  intros Hpool Hk Hsel.
  destruct (create_license_cases s fault now datetime_now user_id p duration_days
              created_by hwid_limit product_name k ks Hpool)
    as (fs1 & Htake & Hks & [[Hnone _] | ->]); [congruence|].
  eexists. split; [reflexivity|]. split; [|reflexivity]. simpl fs.
  assert (Hwf : well_formed_key k = true)
    by (apply (pool_well_formed (fs s) p); rewrite Hpool; now left).
  assert (Hcfg : exists cfg, dict_get KEYS_CONFIG p = Some cfg).
  { unfold pool in Hpool. destruct (dict_get KEYS_CONFIG p); [eauto | discriminate]. }
  destruct Hcfg as [cfg Hcfg].
  destruct (return_key_absent fs1 p cfg k Hcfg) as (fs2 & Hret & Hpool2 & _);
    [now rewrite Hks | exact Hwf |].
  rewrite Hret. simpl snd. now rewrite Hpool2, Hks.
Qed.

(** The handler of the Purchase button works from what the command
    captured and does not read the balance again: confirmed when the
    balance has gone down to 50, the purchase at 80 goes through. *)
Lemma confirmation_does_not_read_the_balance_again str_of_int format_money :
  let '(click, s') :=
    PurchaseView_purchase str_of_int format_money sample_poor_state sample_view 7
      no_faults None None None (ensure_at 101) 101 101 101 101 in
  click = Purchase_Successful "K1"
  /\ (User.balance <$> get_user (db s') None 7) = Some (50 + - (100 * (1 - (1 # 5))))%Q.
Proof. vm_compute. repeat split. Qed.

(* ------------------------------------------------------------------ *)
(** ** Key files at start-up *)

Lemma ensure_key_files_lookup (config : list (string * key_config)) (fs : files)
    (path : string) :
  fold_left
    (fun (fs : files) entry =>
       match fs !! file (snd entry) with
       | Some _ => fs
       | None => <[file (snd entry) := EmptyString]> fs
       end) config fs !! path
  = match fs !! path with
    | Some content => Some content
    | None => if decide (path ∈ map (fun entry => file (snd entry)) config)
              then Some EmptyString else None
    end.
Proof.
  revert fs. induction config as [|[p cfg] config IH]; intros fs.
  - cbn [fold_left map]. destruct (fs !! path); [reflexivity|].
    destruct (decide _) as [H|]; [inversion H | reflexivity].
  - cbn [fold_left]. rewrite IH. cbn [map snd].
    destruct (decide (path = file cfg)) as [->|Hne].
    + destruct (fs !! file cfg) as [c|] eqn:E.
      * now rewrite E.
      * rewrite lookup_insert_eq, decide_True; [reflexivity | now left].
    + assert (Hl : (match fs !! file cfg with
                    | Some _ => fs
                    | None => <[file cfg := EmptyString]> fs
                    end) !! path = fs !! path).
      { destruct (fs !! file cfg); [reflexivity | now rewrite lookup_insert_ne]. }
      rewrite Hl. destruct (fs !! path); [reflexivity|].
      destruct (decide (path ∈ map _ config)) as [Hin|Hout].
      * rewrite decide_True; [reflexivity | now right].
      * rewrite decide_False; [reflexivity|].
        intros [?|?]%elem_of_cons; [congruence | contradiction].
Qed.

Lemma dict_get_KEYS_CONFIG_file p cfg :
  dict_get KEYS_CONFIG p = Some cfg ->
  file cfg ∈ map (fun entry => file (snd entry)) KEYS_CONFIG.
Proof.
  unfold KEYS_CONFIG. simpl dict_get. intros H.
  repeat match type of H with
         | (if String.eqb ?a ?b then _ else _) = _ =>
             destruct (String.eqb a b)
         end;
  try discriminate; injection H as <-; simpl;
  repeat (first [ now left | right ]).
Qed.

(** X1.  [ensure_key_files] loses and adds no stock: afterwards the file of
    every configured product exists, a file that existed has its content,
    every pool and every count is what it was, and a second call changes
    nothing. *)
Theorem ensure_key_files_keeps_the_stock (fs : files) :
  (forall p cfg, dict_get KEYS_CONFIG p = Some cfg ->
                 is_Some (ensure_key_files fs !! file cfg))
  /\ (forall path content, fs !! path = Some content ->
                           ensure_key_files fs !! path = Some content)
  /\ (forall p, pool (ensure_key_files fs) p = pool fs p
                /\ get_key_count (ensure_key_files fs) p = get_key_count fs p)
  /\ ensure_key_files (ensure_key_files fs) = ensure_key_files fs.
Proof.
  assert (Hkeep : forall fs path content, fs !! path = Some content ->
                    ensure_key_files fs !! path = Some content).
  { intros fs0 path content H. unfold ensure_key_files.
    now rewrite ensure_key_files_lookup, H. }
  assert (Hall : forall fs p cfg, dict_get KEYS_CONFIG p = Some cfg ->
                   is_Some (ensure_key_files fs !! file cfg)).
  { intros fs0 p cfg Hcfg. unfold ensure_key_files. rewrite ensure_key_files_lookup.
    destruct (fs0 !! file cfg); [eauto|].
    rewrite decide_True; [eauto | exact (dict_get_KEYS_CONFIG_file _ _ Hcfg)]. }
  assert (Hpool : forall p, pool (ensure_key_files fs) p = pool fs p).
  { intros p. unfold pool.
    destruct (dict_get KEYS_CONFIG p) as [cfg|] eqn:Hcfg; [|reflexivity].
    unfold ensure_key_files. rewrite ensure_key_files_lookup.
    destruct (fs !! file cfg); [reflexivity|].
    rewrite decide_True; [reflexivity | exact (dict_get_KEYS_CONFIG_file _ _ Hcfg)]. }
  split; [apply Hall|]. split; [apply Hkeep|]. split.
  - intros p. split; [apply Hpool|]. now rewrite !get_key_count_pool, Hpool.
  - apply map_eq. intros path.
    destruct (ensure_key_files fs !! path) as [c|] eqn:E; [now apply Hkeep|].
    unfold ensure_key_files at 1. rewrite ensure_key_files_lookup, E.
    destruct (decide _) as [Hin|]; [|reflexivity].
    exfalso. revert E. unfold ensure_key_files. rewrite ensure_key_files_lookup.
    destruct (fs !! path); [discriminate|]. now rewrite decide_True.
Qed.

(* ------------------------------------------------------------------ *)
(** ** More on the key pool *)

Lemma writes_only_file_of_other p q fs fs' :
  writes_only_file_of p fs fs' -> q <> p -> pool fs' q = pool fs q.
Proof.
  intros [->|(cfg & content & Hcfg & ->)] Hne; [reflexivity|].
  now apply (pool_write_other fs p q cfg).
Qed.

Lemma get_available_key_writes p fs :
  writes_only_file_of p fs (snd (get_available_key fs p)).
Proof.
  unfold get_available_key.
  destruct (dict_get KEYS_CONFIG p) as [cfg|] eqn:Hcfg; [|now left].
  destruct (fs !! file cfg); [|now left].
  destruct (read_keys _); [now left|]. right. eauto.
Qed.

Lemma return_key_writes p k fs : writes_only_file_of p fs (snd (return_key fs p k)).
Proof.
  unfold return_key.
  destruct (dict_get KEYS_CONFIG p) as [cfg|] eqn:Hcfg; [|now left].
  destruct (decide _); [now left|]. right. eauto.
Qed.

Lemma add_key_writes p k fs : writes_only_file_of p fs (snd (add_key fs p k)).
Proof.
  unfold add_key.
  destruct (dict_get KEYS_CONFIG p) as [cfg|] eqn:Hcfg; [|now left].
  destruct (decide _); [now left|]. right. eauto.
Qed.

Lemma create_license_fs s fault now datetime_now user_id p duration_days created_by
    hwid_limit product_name :
  let fs1 := snd (get_available_key (fs s) p) in
  let s' := snd (create_license s fault now datetime_now user_id p duration_days
                   created_by hwid_limit product_name) in
  fs s' = fs1 \/ exists k, fs s' = snd (return_key fs1 p k).
Proof.
  unfold create_license.
  destruct (get_available_key (fs s) p) as [[k|] fs1]; [|now left]. simpl snd.
  destruct (truthy k); simpl negb; cbv iota; [|now left].
  destruct (connect _ _ _) as [[id|] d']; [now left|].
  right. exists k. now destruct (return_key fs1 p k).
Qed.

(** X5.  The stock of one product is out of reach of the operations on
    another: a take, a return, a stocking or a license creation for [p],
    with any key and whatever the files hold, leaves the pool and the count
    of every other product [q] as they were. *)
Theorem other_products_keep_their_stock (s : state) (p q k : string) :
  q <> p ->
  pool (snd (get_available_key (fs s) p)) q = pool (fs s) q
  /\ pool (snd (return_key (fs s) p k)) q = pool (fs s) q
  /\ pool (snd (add_key (fs s) p k)) q = pool (fs s) q
  /\ (forall fault now datetime_now user_id duration_days created_by hwid_limit
             product_name,
        let s' := snd (create_license s fault now datetime_now user_id p duration_days
                         created_by hwid_limit product_name) in
        pool (fs s') q = pool (fs s) q
        /\ get_key_count (fs s') q = get_key_count (fs s) q).
Proof.
  intros Hne.
  assert (Htake := writes_only_file_of_other p q _ _ (get_available_key_writes p (fs s)) Hne).
  split; [exact Htake|].
  split; [exact (writes_only_file_of_other p q _ _ (return_key_writes p k (fs s)) Hne)|].
  split; [exact (writes_only_file_of_other p q _ _ (add_key_writes p k (fs s)) Hne)|].
  intros fault now datetime_now user_id duration_days created_by hwid_limit product_name s'.
  assert (Hpool : pool (fs s') q = pool (fs s) q).
  { destruct (create_license_fs s fault now datetime_now user_id p duration_days created_by
                hwid_limit product_name) as [E | [k' E]]; fold s' in E; rewrite E.
    - exact Htake.
    - rewrite (writes_only_file_of_other p q _ _ (return_key_writes p k' _) Hne).
      exact Htake. }
  split; [exact Hpool|]. now rewrite !get_key_count_pool, Hpool.
Qed.

Lemma other_products_keep_their_stock_witness :
  pool (snd (add_key (fs sample_state) "val1month" "M1")) "val1week" = ["K1"; "K2"].
Proof.
  rewrite (proj1 (proj2 (proj2
             (other_products_keep_their_stock sample_state "val1month" "val1week" "M1"
                ltac:(discriminate))))).
  vm_compute. reflexivity.
Defined.

(** The closed form of [n] takes in a row. *)
Lemma take_many_closed_form n : forall fs p,
  exists fs',
    take_many n fs p
    = ((map Some (firstn n (pool fs p)) ++ repeat None (n - length (pool fs p)))%list, fs')
    /\ pool fs' p = skipn n (pool fs p).
Proof.
  induction n as [|n IH]; intros fs p.
  - exists fs. split; reflexivity.
  - simpl take_many. destruct (pool fs p) as [|k ks] eqn:Hpool.
    + rewrite (get_available_key_empty _ _ Hpool).
      destruct (IH fs p) as (fs' & -> & Hrest). rewrite Hpool in *.
      exists fs'. split; [|now rewrite Hrest; destruct n].
      rewrite !firstn_nil. simpl length. rewrite !Nat.sub_0_r. reflexivity.
    + destruct (get_available_key_head _ _ _ _ Hpool) as (fs1 & -> & Hks & _).
      destruct (IH fs1 p) as (fs' & -> & Hrest). rewrite Hks in *.
      exists fs'. split; [reflexivity | exact Hrest].
Qed.

(** X3.  [get_key_count] is the number of takes that succeed: [n] takes in
    a row return the first [n] keys of the pool in its order and [None] from
    then on, and leave a count lower by [n], or zero. *)
Theorem takes_follow_the_pool_order (fs : files) (p : string) (n : nat) :
  fst (take_many n fs p)
  = (map Some (firstn n (pool fs p)) ++ repeat None (n - length (pool fs p)))%list
  /\ length (filter (fun r => r <> None) (fst (take_many n fs p)))
     = Nat.min n (Z.to_nat (get_key_count fs p))
  /\ get_key_count (snd (take_many n fs p)) p
     = Z.max 0 (get_key_count fs p - Z.of_nat n).
Proof.
  destruct (take_many_closed_form n fs p) as (fs' & E & Hrest).
  rewrite E. simpl fst. simpl snd. split; [reflexivity|]. split.
  - rewrite filter_app, length_app.
    assert (H1 : forall l : list string,
               filter (fun r : option string => r <> None) (map Some l) = map Some l).
    { induction l as [|x l IHl]; [reflexivity|]. simpl map.
      rewrite filter_cons_True by discriminate. now rewrite IHl. }
    assert (H2 : forall m, filter (fun r : option string => r <> None) (repeat None m) = []).
    { induction m as [|m IHm]; [reflexivity|]. simpl repeat.
      rewrite filter_cons_False by (intros H; now apply H). exact IHm. }
    rewrite H1, H2, length_map, length_firstn, get_key_count_pool, Nat2Z.id. simpl. lia.
  - rewrite !get_key_count_pool, Hrest, length_skipn. lia.
Qed.

(** X2.  First in, first out: a key stocked behind the keys of a pool is
    taken after all of them. *)
Theorem stocked_key_is_taken_last (fs : files) (p k : string) (cfg : key_config) :
  dict_get KEYS_CONFIG p = Some cfg ->
  key_file_terminated fs p ->
  well_formed_key k = true ->
  k ∉ pool fs p ->
  let fs1 := snd (add_key fs p k) in
  fst (take_many (S (length (pool fs p))) fs1 p)
  = (map Some (pool fs p) ++ [Some k])%list
  /\ fst (get_available_key (snd (take_many (S (length (pool fs p))) fs1 p)) p) = None.
Proof.
  intros Hcfg Hterm Hwf Hk fs1.
  destruct (add_key_absent fs p cfg k Hcfg Hk Hwf Hterm) as (fs' & Hadd & Hpool & _).
  assert (E : fs1 = fs') by (unfold fs1; now rewrite Hadd). rewrite E.
  assert (Hlen : S (length (pool fs p)) = length (pool fs' p))
    by (rewrite Hpool, length_app; simpl; lia).
  rewrite Hlen.
  destruct (take_many_pool fs' p) as (fs2 & -> & _ & _ & Hnone).
  simpl fst. simpl snd. rewrite Hnone, Hpool, map_app. split; reflexivity.
Qed.

Lemma stocked_key_is_taken_last_witness :
  fst (take_many 3 (snd (add_key (fs sample_state) "val1week" "K3")) "val1week")
  = [Some "K1"; Some "K2"; Some "K3"].
Proof.
  apply (stocked_key_is_taken_last (fs sample_state) "val1week" "K3" _ eq_refl).
  - vm_compute. reflexivity.
  - vm_compute. reflexivity.
  - apply (bool_decide_unpack _). vm_compute. exact I.
Defined.

(** X7.  Writing keys and reading them back: well-formed keys come back as
    written, in their order, and the file written ends with a newline; and
    whatever a file holds, writing the keys read from it and reading again
    gives the same keys. *)
Theorem key_file_round_trip (content : string) (keys : list string) :
  read_keys (write_keys (read_keys content)) = read_keys content
  /\ ends_with_newline (write_keys keys) = true
  /\ ((forall k, k ∈ keys -> well_formed_key k = true) ->
      read_keys (write_keys keys) = keys).
Proof.
  split; [|split].
  - apply read_write_keys. intros k. apply read_keys_well_formed.
  - apply ends_with_newline_write_keys.
  - apply read_write_keys.
Qed.

Lemma key_file_round_trip_witness :
  read_keys (write_keys ["VAL-1W-0001"; "VAL-1W-0002"]) = ["VAL-1W-0001"; "VAL-1W-0002"].
Proof.
  apply (proj2 (proj2 (key_file_round_trip EmptyString ["VAL-1W-0001"; "VAL-1W-0002"]))).
  intros k Hk. apply (bool_decide_unpack _) .
  revert k Hk. apply Forall_forall. apply (bool_decide_unpack _). vm_compute. exact I.
Defined.

(** X6.  A key file that is missing: a take returns [None] and the count is
    zero, and neither creates the file; returning or stocking a well-formed
    key creates the file with that key alone in it. *)
Theorem missing_key_file (fs : files) (p k : string) (cfg : key_config) :
  dict_get KEYS_CONFIG p = Some cfg ->
  fs !! file cfg = None ->
  get_available_key fs p = (None, fs)
  /\ get_key_count fs p = 0%Z
  /\ (well_formed_key k = true ->
      fst (return_key fs p k) = true
      /\ pool (snd (return_key fs p k)) p = [k]
      /\ fst (add_key fs p k) = true
      /\ pool (snd (add_key fs p k)) p = [k]).
Proof.
  intros Hcfg Hmiss.
  assert (Hpool : pool fs p = []) by (unfold pool; now rewrite Hcfg, Hmiss).
  split; [now apply get_available_key_empty|].
  split; [now rewrite get_key_count_pool, Hpool|].
  intros Hwf.
  destruct (return_key_absent fs p cfg k Hcfg) as (fs1 & -> & H1 & _);
    [rewrite Hpool; apply not_elem_of_nil | exact Hwf |].
  destruct (add_key_absent fs p cfg k Hcfg) as (fs2 & -> & H2 & _);
    [rewrite Hpool; apply not_elem_of_nil | exact Hwf
    | unfold key_file_terminated; now rewrite Hcfg, Hmiss |].
  simpl. rewrite H1, H2, Hpool. repeat split.
Qed.

Lemma missing_key_file_witness :
  get_available_key ∅ "val1week" = (None, ∅)
  /\ pool (snd (return_key ∅ "val1week" "K1")) "val1week" = ["K1"].
Proof.
  pose proof (missing_key_file ∅ "val1week" "K1" _ eq_refl eq_refl) as (H1 & _ & H2).
  split; [exact H1|]. apply H2. vm_compute. reflexivity.
Defined.

(* ------------------------------------------------------------------ *)
(** ** The [/addkeys] command *)

Lemma split_LF_cons c s :
  split_LF (String c s) =
  if Ascii.eqb c LF then EmptyString :: split_LF s
  else match split_LF s with
       | [] => [String c EmptyString]
       | piece :: pieces => String c piece :: pieces
       end.
Proof. reflexivity. Qed.

Lemma split_LF_pieces P s piece :
  piece ∈ split_LF s ->
  string_forall not_LF piece = true
  /\ (string_forall P s = true -> string_forall P piece = true).
Proof.
  revert piece. induction s as [|c s IH]; intros piece Hin.
  - apply list_elem_of_singleton in Hin as ->. split; reflexivity.
  - rewrite split_LF_cons in Hin. rewrite string_forall_cons.
    destruct (Ascii.eqb c LF) eqn:Ec.
    + apply elem_of_cons in Hin as [->|Hin]; [split; reflexivity|].
      destruct (IH piece Hin) as [H1 H2]. split; [exact H1|].
      intros [_ H]%andb_true_iff. auto.
    + assert (Hc : not_LF c = true) by (unfold not_LF; now rewrite Ec).
      destruct (split_LF s) as [|p0 ps] eqn:Es.
      * apply list_elem_of_singleton in Hin as ->. split.
        -- now rewrite string_forall_cons, Hc.
        -- intros [H _]%andb_true_iff. now rewrite string_forall_cons, H.
      * apply elem_of_cons in Hin as [->|Hin].
        -- destruct (IH p0) as [H1 H2]; [now left|]. split.
           ++ now rewrite string_forall_cons, Hc, H1.
           ++ intros [Ha Hb]%andb_true_iff. now rewrite string_forall_cons, Ha, H2.
        -- destruct (IH piece) as [H1 H2]; [now right|]. split; [exact H1|].
           intros [_ H]%andb_true_iff. auto.
Qed.

(** The keys the command hands to [add_key] are well formed, unless the
    text holds a carriage return. *)
Lemma addkeys_key_list_well_formed keys k :
  string_forall not_CR keys = true ->
  k ∈ addkeys_key_list keys -> well_formed_key k = true.
Proof.
  intros Hcr Hk. unfold addkeys_key_list in Hk.
  apply list_elem_of_In, in_map_iff in Hk as (piece & <- & Hp).
  apply list_elem_of_In, list_elem_of_filter in Hp as [Ht Hp].
  destruct (split_LF_pieces not_CR keys piece Hp) as [Hlf Hcr'].
  apply well_formed_key_spec.
  split; [destruct (strip piece); [discriminate | discriminate]|].
  split; [apply lstrip_strip|]. split; [apply rstrip_strip|].
  split; apply string_forall_strip; auto.
Qed.

(** What the loop of [/addkeys] does to a pool whose file is empty or ends
    with a newline, for well-formed keys. *)
Lemma addkeys_loop_spec p cfg key_list :
  dict_get KEYS_CONFIG p = Some cfg ->
  (forall k, k ∈ key_list -> well_formed_key k = true) ->
  forall fs added_count duplicate_count,
    key_file_terminated fs p ->
    exists fs' new,
      addkeys_loop fs p key_list added_count duplicate_count
      = (fs', (added_count + Z.of_nat (length new))%Z,
         (duplicate_count + Z.of_nat (length key_list - length new))%Z)
      /\ (length new <= length key_list)%nat
      /\ pool fs' p = (pool fs p ++ new)%list
      /\ key_file_terminated fs' p
      /\ (forall k, k ∈ new -> k ∈ key_list /\ k ∉ pool fs p)
      /\ (forall k, k ∈ key_list -> k ∈ pool fs' p)
      /\ (NoDup (pool fs p) -> NoDup (pool fs' p))
      /\ (forall q, q <> p -> pool fs' q = pool fs q).
Proof.
  intros Hcfg. induction key_list as [|k rest IH]; intros Hwf fs added dup Hterm.
  - exists fs, []. simpl addkeys_loop. simpl length. rewrite !Z.add_0_r, app_nil_r.
    split; [reflexivity|]. split; [lia|]. split; [reflexivity|].
    split; [exact Hterm|]. split; [intros k0 Hk0; inversion Hk0|].
    split; [intros k0 Hk0; inversion Hk0|]. split; auto.
  - simpl addkeys_loop.
    assert (Hwf' : forall k', k' ∈ rest -> well_formed_key k' = true)
      by (intros k' Hk'; apply Hwf; now right).
    destruct (decide (k ∈ pool fs p)) as [Hin|Hout].
    + rewrite (add_key_present _ _ _ Hin).
      destruct (IH Hwf' fs added (dup + 1)%Z Hterm)
        as (fs' & new & -> & Hlen & Hpool & Ht & Hnew & Hall & Hnd & Hother).
      exists fs', new. split.
      { replace (dup + Z.of_nat (length (k :: rest) - length new))%Z
          with (dup + 1 + Z.of_nat (length rest - length new))%Z by (simpl length; lia).
        reflexivity. }
      split; [simpl; lia|]. split; [exact Hpool|]. split; [exact Ht|].
      split; [intros k' Hk'; destruct (Hnew k' Hk'); split; [now right | assumption]|].
      split; [|split; assumption].
      intros k' [->|Hk']%elem_of_cons; [|now apply Hall].
      rewrite Hpool. apply elem_of_app. now left.
    + destruct (add_key_absent fs p cfg k Hcfg Hout (Hwf k ltac:(now left)) Hterm)
        as (fs1 & -> & Hpool1 & Hterm1 & Hother1).
      destruct (IH Hwf' fs1 (added + 1)%Z dup Hterm1)
        as (fs' & new & -> & Hlen & Hpool & Ht & Hnew & Hall & Hnd & Hother).
      exists fs', (k :: new). split.
      { replace (added + 1 + Z.of_nat (length new))%Z
          with (added + Z.of_nat (length (k :: new)))%Z by (simpl length; lia).
        replace (length (k :: rest) - length (k :: new))%nat
          with (length rest - length new)%nat by (simpl length; lia).
        reflexivity. }
      split; [simpl; lia|].
      split; [now rewrite Hpool, Hpool1, <- app_assoc|]. split; [exact Ht|].
      split; [|split; [|split]].
      * intros k' [->|Hk']%elem_of_cons; [split; [now left | exact Hout]|].
        destruct (Hnew k' Hk') as [H1 H2]. split; [now right|].
        intros H. apply H2. rewrite Hpool1. apply elem_of_app. now left.
      * intros k' [->|Hk']%elem_of_cons; [|now apply Hall].
        rewrite Hpool, Hpool1. apply elem_of_app. left. apply elem_of_app. right.
        now left.
      * intros Hnd0. apply Hnd. rewrite Hpool1. apply NoDup_app.
        split; [exact Hnd0|]. split; [|apply NoDup_singleton].
        intros x Hx ->%list_elem_of_singleton. contradiction.
      * intros q Hq. now rewrite (Hother q Hq), (Hother1 q Hq).
Qed.

Section AddKeysCommand.

Variable str_of_int : Z -> string.

(** X4.  [/addkeys] by an admin, for a product of the catalogue whose key
    file is empty or ends with a newline, with a text that holds a key and
    no carriage return: the new stock it reports is the old stock plus the
    number of keys it reports as added; added and duplicate keys together
    are the non-blank lines of the text; the new keys stand behind the old
    ones, every key of the text is in the pool, and a pool without
    duplicates stays without. *)
Theorem addkeys_reports_the_growth_of_the_stock
    (s : state) (log_fault : option nat) (now admin : Z) (p keys : string)
    (cfg : key_config) (prod : product) :
  admin ∈ ADMIN_IDS ->
  dict_get KEYS_CONFIG p = Some cfg ->
  dict_get PRODUCTS p = Some prod ->
  key_file_terminated (fs s) p ->
  string_forall not_CR keys = true ->
  addkeys_key_list keys <> [] ->
  exists added_count duplicate_count new_stock s',
    addkeys str_of_int s log_fault now admin p keys
    = (Key_Addition_Complete added_count duplicate_count new_stock, s')
    /\ new_stock = get_key_count (fs s') p
    /\ new_stock = (get_key_count (fs s) p + added_count)%Z
    /\ (0 <= added_count)%Z /\ (0 <= duplicate_count)%Z
    /\ (added_count + duplicate_count)%Z = Z.of_nat (length (addkeys_key_list keys))
    /\ (exists new, pool (fs s') p = (pool (fs s) p ++ new)%list)
    /\ (forall k, k ∈ addkeys_key_list keys -> k ∈ pool (fs s') p)
    /\ (NoDup (pool (fs s) p) -> NoDup (pool (fs s') p))
    /\ licenses (db s') = licenses (db s)
    /\ users (db s') = users (db s)
    /\ transactions (db s') = transactions (db s).
Proof.
  intros Hadmin Hcfg Hprod Hterm Hcr Hne.
  destruct (addkeys_loop_spec p cfg (addkeys_key_list keys) Hcfg
              (fun k => addkeys_key_list_well_formed keys k Hcr) (fs s) 0%Z 0%Z Hterm)
    as (fs' & new & Hloop & Hlen & Hpool & _ & _ & Hall & Hnd & _).
  unfold addkeys. rewrite (bool_decide_eq_true_2 _ Hadmin). simpl negb. cbv iota.
  destruct (addkeys_key_list keys) as [|k0 rest] eqn:Hlist; [congruence|].
  rewrite Hloop.
  assert (Hdb : forall f a b c e g,
            licenses (snd (log_admin_action (db s) f now a b c e g)) = licenses (db s)
            /\ users (snd (log_admin_action (db s) f now a b c e g)) = users (db s)
            /\ transactions (snd (log_admin_action (db s) f now a b c e g))
               = transactions (db s)).
  { intros. destruct (log_admin_action_cases (db s) f now a b c e g) as [-> | ->];
      repeat split. }
  match goal with
  | |- context [log_admin_action ?d ?f ?n ?a ?b ?c ?e ?g] =>
      specialize (Hdb f a b c e g);
      destruct (log_admin_action d f n a b c e g) as [ok d']
  end.
  simpl snd in Hdb. destruct Hdb as (Hl & Hu & Ht).
  rewrite Hprod. do 4 eexists. split; [reflexivity|]. simpl fs. simpl db.
  split; [reflexivity|].
  split; [rewrite !get_key_count_pool, Hpool, length_app; lia|].
  split; [lia|]. split; [lia|]. split; [lia|].
  split; [eauto|]. split; [exact Hall|]. split; [exact Hnd|]. auto.
Qed.

End AddKeysCommand.

Lemma addkeys_reports_the_growth_of_the_stock_witness :
  fst (addkeys (fun _ => EmptyString) sample_state None 300 1091441605430493185
         "val1week" (" K3 " ++ NL ++ NL ++ "K1" ++ NL ++ "K4"))
  = Key_Addition_Complete 2 1 4.
Proof.
  destruct (addkeys_reports_the_growth_of_the_stock (fun _ => EmptyString) sample_state
              None 300 1091441605430493185 "val1week"
              (" K3 " ++ NL ++ NL ++ "K1" ++ NL ++ "K4") _ _
              ltac:(apply (bool_decide_unpack _); vm_compute; exact I)
              eq_refl eq_refl
              ltac:(vm_compute; reflexivity) ltac:(vm_compute; reflexivity)
              ltac:(vm_compute; discriminate))
    as (a & d & n & s' & E & _).
  rewrite E. revert E. vm_compute. intros [= <- <- <- _]. reflexivity.
Defined.

(* ------------------------------------------------------------------ *)
(** ** Listings *)

Lemma insert_by_desc_perm {A} (col : A -> Z) x l : insert_by_desc col x l ≡ₚ x :: l.
Proof.
  induction l as [|y l IH]; [reflexivity|]. simpl.
  destruct (col y <? col x)%Z; [reflexivity|].
  rewrite IH. apply perm_swap.
Qed.

Lemma fold_insert_by_desc_perm {A} (col : A -> Z) l : forall acc,
  fold_left (fun sorted x => insert_by_desc col x sorted) l acc ≡ₚ (acc ++ l)%list.
Proof.
  induction l as [|x l IH]; intros acc; simpl.
  - now rewrite app_nil_r.
  - rewrite IH, insert_by_desc_perm. apply Permutation_middle.
Qed.

Lemma order_by_desc_perm {A} (col : A -> Z) l : order_by_desc col l ≡ₚ l.
Proof. unfold order_by_desc. now rewrite fold_insert_by_desc_perm. Qed.

Lemma insert_by_desc_sorted {A} (col : A -> Z) x l :
  newest_first col l -> newest_first col (insert_by_desc col x l).
Proof.
  unfold newest_first. induction l as [|y l IH]; intros Hs; simpl.
  - repeat constructor.
  - destruct (Z.ltb_spec (col y) (col x)) as [Hlt|Hge].
    + constructor; [exact Hs|]. constructor. lia.
    + apply Sorted_inv in Hs as [Hs Hhd]. constructor; [now apply IH|].
      destruct l as [|z l]; simpl.
      * constructor. exact Hge.
      * destruct (col z <? col x)%Z; constructor; [exact Hge|].
        now apply HdRel_inv in Hhd.
Qed.

Lemma order_by_desc_sorted {A} (col : A -> Z) l : newest_first col (order_by_desc col l).
Proof.
  unfold order_by_desc.
  assert (H : forall acc, newest_first col acc ->
            newest_first col (fold_left (fun sorted x => insert_by_desc col x sorted) l acc)).
  { induction l as [|x l IH]; intros acc Hacc; simpl; [exact Hacc|].
    apply IH. now apply insert_by_desc_sorted. }
  apply H. constructor.
Qed.

Lemma newest_first_firstn {A} (col : A -> Z) n l :
  newest_first col l -> newest_first col (firstn n l).
Proof.
  unfold newest_first. revert l. induction n as [|n IH]; intros l Hs; [constructor|].
  destruct l as [|x l]; [constructor|]. simpl.
  apply Sorted_inv in Hs as [Hs Hhd]. constructor; [now apply IH|].
  destruct l as [|y l]; [destruct n; constructor|].
  destruct n; simpl; constructor. now apply HdRel_inv in Hhd.
Qed.

Lemma newest_first_sql_limit {A} (col : A -> Z) limit l :
  newest_first col l -> newest_first col (sql_limit limit l).
Proof.
  intros H. unfold sql_limit. destruct (limit <? 0)%Z; [exact H|].
  now apply newest_first_firstn.
Qed.

Lemma elem_of_sql_limit {A} limit (l : list A) x : x ∈ sql_limit limit l -> x ∈ l.
Proof.
  unfold sql_limit. destruct (limit <? 0)%Z; [auto|].
  apply (subseteq_take (Z.to_nat limit) l x).
Qed.

Lemma length_sql_limit {A} limit (l : list A) :
  (0 <= limit)%Z -> (length (sql_limit limit l) <= Z.to_nat limit)%nat.
Proof.
  intros H. unfold sql_limit.
  destruct (Z.ltb_spec limit 0); [lia|]. rewrite length_firstn. lia.
Qed.







Lemma get_user_licenses_no_fault d now user_id include_expired :
  get_user_licenses d None now user_id include_expired
  = order_by_desc License.created_at
      (filter (fun r => License.user_id r = user_id
                        /\ (include_expired = true \/ (now < License.expires_at r)%Z))
              (licenses d)).
Proof.
  unfold get_user_licenses. destruct include_expired; run_sql; f_equal.
  - apply list_filter_iff. intros r. intuition.
  - apply list_filter_iff. intros r. intuition discriminate.
Qed.

Lemma get_user_licenses_cases d fault now user_id include_expired :
  get_user_licenses d fault now user_id include_expired
    = get_user_licenses d None now user_id include_expired
  \/ get_user_licenses d fault now user_id include_expired = [].
Proof.
  unfold get_user_licenses.
  destruct include_expired; fault_cases fault; run_sql; auto.
Qed.

Lemma filter_map_unchanged {A} (P : A -> Prop) `{forall x, Decision (P x)}
    (g : A -> A) (l : list A) :
  (forall x, P (g x) <-> P x) -> (forall x, P x -> g x = x) ->
  filter P (map g l) = filter P l.
Proof.
  intros Hiff Hfix. induction l as [|x l IH]; [reflexivity|].
  simpl map. rewrite !filter_cons.
  destruct (decide (P x)) as [Hx|Hx].
  - rewrite decide_True by now apply Hiff. now rewrite IH, (Hfix x Hx).
  - rewrite decide_False by (intros Hg; now apply Hx, Hiff). exact IH.
Qed.

(** X9.  The listing of [get_user_licenses]: its rows are licenses of the
    user, newest first; without [include_expired] none of them has expired,
    whether the sweep has run or not, and they are among the rows listed
    with [include_expired]; a sweep that ran before, whatever its two clock
    readings up to that of the listing, changes nothing in that listing. *)
Theorem license_listing (d : DB) (fault sweep_fault : option nat) (now user_id : Z)
    (include_expired : bool) :
  let rows := get_user_licenses d fault now user_id include_expired in
  (forall r, r ∈ rows ->
     r ∈ licenses d /\ License.user_id r = user_id
     /\ (include_expired = false -> (now < License.expires_at r)%Z)
     /\ r ∈ get_user_licenses d None now user_id true)
  /\ newest_first License.created_at rows
  /\ (forall count_now update_now, (update_now <= now)%Z ->
      get_user_licenses (snd (cleanup_expired_licenses d sweep_fault count_now update_now))
        None now user_id false
      = get_user_licenses d None now user_id false).
Proof.
  intros rows. split; [|split].
  - intros r Hr.
    assert (Hr' : r ∈ get_user_licenses d None now user_id include_expired).
    { destruct (get_user_licenses_cases d fault now user_id include_expired) as [E|E];
        fold rows in E; rewrite E in Hr; [exact Hr | inversion Hr]. }
    rewrite get_user_licenses_no_fault, order_by_desc_perm in Hr'.
    apply list_elem_of_filter in Hr' as [[Hu He] Hin].
    split; [exact Hin|]. split; [exact Hu|]. split.
    + intros ->. destruct He; [discriminate | assumption].
    + rewrite get_user_licenses_no_fault, order_by_desc_perm.
      apply list_elem_of_filter. auto.
  - destruct (get_user_licenses_cases d fault now user_id include_expired) as [E|E];
      fold rows in E; rewrite E; [|constructor].
    rewrite get_user_licenses_no_fault. apply order_by_desc_sorted.
  - intros count_now update_now Hle.
    destruct (cleanup_expired_licenses_cases d sweep_fault count_now update_now)
      as [-> | ->]; [|reflexivity].
    rewrite cleanup_expired_licenses_no_fault, !get_user_licenses_no_fault.
    simpl snd. f_equal. unfold deactivate_expired, set_licenses. simpl licenses.
    apply filter_map_unchanged.
    + intros r. destruct (License.expires_at r <=? update_now)%Z; reflexivity.
    + intros r [_ [?|Hlt]]; [discriminate|].
      destruct (Z.leb_spec (License.expires_at r) update_now); [lia | reflexivity].
Qed.

(** A sweep that counted at one second and updated at the next, before a
    listing at that second. *)
Lemma license_listing_witness :
  get_user_licenses
    (snd (cleanup_expired_licenses sample_expiring_db None 1000000 2000000)) None
    2000000 7 false
  = get_user_licenses sample_expiring_db None 2000000 7 false.
Proof.
  apply (proj2 (proj2 (license_listing sample_expiring_db None None 2000000 7 false))
           1000000%Z 2000000%Z).
  lia.
Defined.

Lemma log_admin_action_no_fault d now admin_id action target_user target_license details :
  log_admin_action d None now admin_id action target_user target_license details
  = (true, insert_admin_log now admin_id action target_user target_license details d).
Proof. reflexivity. Qed.

Lemma next_id_fresh ids i : i ∈ ids -> (i < next_id ids)%Z.
Proof.
  unfold next_id. induction ids as [|j ids IH]; [inversion 1|].
  intros [->|Hi]%elem_of_cons; simpl; [lia|]. specialize (IH Hi). lia.
Qed.

Lemma get_admin_logs_listing d read_fault limit :
  (forall e, e ∈ get_admin_logs d read_fault limit -> e ∈ admin_logs d)
  /\ newest_first AdminLog.created_at (get_admin_logs d read_fault limit)
  /\ ((0 <= limit)%Z ->
      (length (get_admin_logs d read_fault limit) <= Z.to_nat limit)%nat)
  /\ get_admin_logs d None (-1) ≡ₚ admin_logs d.
Proof.
  assert (Hread : get_admin_logs d read_fault limit
                    = sql_limit limit (order_by_desc AdminLog.created_at (admin_logs d))
                  \/ get_admin_logs d read_fault limit = []).
  { unfold get_admin_logs. fault_cases read_fault; run_sql; auto. }
  split; [|split; [|split]].
  - intros e He. destruct Hread as [E|E]; rewrite E in He; [|inversion He].
    apply elem_of_sql_limit in He. now rewrite order_by_desc_perm in He.
  - destruct Hread as [-> | ->]; [|constructor].
    apply newest_first_sql_limit, order_by_desc_sorted.
  - intros Hl. destruct Hread as [-> | ->]; [now apply length_sql_limit | simpl; lia].
  - change (get_admin_logs d None (-1))
      with (order_by_desc AdminLog.created_at (admin_logs d)).
    apply order_by_desc_perm.
Qed.

(** X10.  The audit log only grows: whatever the fault, [log_admin_action]
    returns [True] with one entry added behind the earlier ones, its [id]
    above all of theirs, or returns [False] and changes nothing; it touches
    no other table.  [get_admin_logs] lists entries of the log, newest
    first, no more than a limit that is not negative, and without limit all
    of them, the new one included. *)
Theorem admin_log_is_append_only (d : DB) (fault read_fault : option nat) (now admin_id : Z)
    (action : string) (target_user : option Z) (target_license details : option string)
    (limit : Z) :
  let '(ok, d') :=
    log_admin_action d fault now admin_id action target_user target_license details in
  users d' = users d /\ licenses d' = licenses d /\ transactions d' = transactions d
  /\ (if ok then
        exists entry,
          admin_logs d' = (admin_logs d ++ [entry])%list
          /\ AdminLog.admin_id entry = admin_id /\ AdminLog.action entry = action
          /\ AdminLog.created_at entry = now
          /\ (forall e, e ∈ admin_logs d -> (AdminLog.id e < AdminLog.id entry)%Z)
          /\ entry ∈ get_admin_logs d' None (-1)
      else d' = d)
  /\ (forall e, e ∈ get_admin_logs d' read_fault limit -> e ∈ admin_logs d')
  /\ newest_first AdminLog.created_at (get_admin_logs d' read_fault limit)
  /\ ((0 <= limit)%Z ->
      (length (get_admin_logs d' read_fault limit) <= Z.to_nat limit)%nat)
  /\ get_admin_logs d' None (-1) ≡ₚ admin_logs d'.
Proof.
  destruct (log_admin_action_cases d fault now admin_id action target_user target_license
              details) as [-> | ->].
  - split; [reflexivity|]. split; [reflexivity|]. split; [reflexivity|].
    split; [|apply get_admin_logs_listing].
    eexists. split; [reflexivity|]. simpl.
    split; [reflexivity|]. split; [reflexivity|]. split; [reflexivity|]. split.
    + intros e He. apply next_id_fresh. apply list_elem_of_In, in_map, list_elem_of_In.
      exact He.
    + rewrite (proj2 (proj2 (proj2 (get_admin_logs_listing _ None 0)))).
      simpl admin_logs. apply elem_of_app. right. now left.
  - split; [reflexivity|]. split; [reflexivity|]. split; [reflexivity|].
    split; [reflexivity|]. apply get_admin_logs_listing.
Qed.

(* ------------------------------------------------------------------ *)
(** ** Resellers *)

Lemma count_where_zero {A} (P : A -> Prop) `{forall x, Decision (P x)} (l : list A) :
  count_where P l = 0%Z <-> forall x, x ∈ l -> ~ P x.
Proof.
  unfold count_where. split.
  - intros Hz x Hx HP.
    assert (Hin : x ∈ filter P l) by (apply list_elem_of_filter; auto).
    destruct (filter P l); [inversion Hin | simpl in Hz; lia].
  - intros Hall. induction l as [|x l IH]; [reflexivity|].
    rewrite filter_cons_False by (apply Hall; now left).
    apply IH. intros y Hy. apply Hall. now right.
Qed.

Lemma count_where_nonzero {A} (P : A -> Prop) `{forall x, Decision (P x)} (l : list A) :
  count_where P l <> 0%Z -> exists x, x ∈ l /\ P x.
Proof.
  unfold count_where. intros Hnz.
  destruct (filter P l) as [|x l'] eqn:Hf; [now destruct Hnz|].
  assert (Hx : x ∈ filter P l) by (rewrite Hf; now left).
  apply list_elem_of_filter in Hx. exists x. tauto.
Qed.

(** The loop reads only; the code it ends with is one of the codes drawn
    and is held by no user. *)
Lemma unique_reseller_code_spec rng attempts : forall pos c,
  let '(r, c') := unique_reseller_code rng attempts pos c in
  work c' = work c /\ durable c' = durable c
  /\ match r with
     | Returned (Some code) =>
         (exists i, (i < attempts)%nat /\ code = generate_reseller_code rng (pos + 8 * i))
         /\ (forall u, u ∈ users (work c) -> User.reseller_code u <> Some code)
     | Returned None =>
         calls_left c' = Nat.iter attempts (fmap Nat.pred) (calls_left c)
         /\ forall i, (i < attempts)%nat ->
              exists u, u ∈ users (work c)
                /\ User.reseller_code u = Some (generate_reseller_code rng (pos + 8 * i))
     | Raised => calls_left c <> None
     end.
Proof.
  induction attempts as [|attempts IH]; intros pos c.
  - simpl. split; [reflexivity|]. split; [reflexivity|]. split; [reflexivity|]. lia.
  - cbn [unique_reseller_code]. unfold sql_bind at 1. unfold execute at 1.
    destruct (calls_left c) as [[|n]|] eqn:Hcl.
    + split; [reflexivity|]. split; [reflexivity|]. congruence.
    + unfold query at 1. cbv iota beta.
      destruct (count_where _ (users (work c)) =? 0)%Z eqn:Hcount.
      * split; [reflexivity|]. split; [reflexivity|]. split.
        -- exists 0%nat. split; [lia|]. now rewrite Nat.mul_0_r, Nat.add_0_r.
        -- apply Z.eqb_eq in Hcount. exact (proj1 (count_where_zero _ _) Hcount).
      * specialize (IH (pos + 8)%nat
                       {| calls_left := Nat.pred <$> Some (S n); work := work c;
                          durable := durable c |}).
        destruct (unique_reseller_code rng attempts (pos + 8) _) as [r c'].
        simpl in IH. destruct IH as (Hw & Hd & Hr).
        split; [exact Hw|]. split; [exact Hd|].
        destruct r as [[code|]|]; [| |discriminate].
        -- destruct Hr as [(i & Hi & ->) Hfree]. split; [|exact Hfree].
           exists (S i). split; [lia|]. f_equal. lia.
        -- destruct Hr as [Hleft Htaken]. split.
           { rewrite Hleft. now rewrite Nat.iter_succ_r. }
           intros [|i] Hi.
           ++ apply Z.eqb_neq in Hcount. rewrite Nat.mul_0_r, Nat.add_0_r.
              exact (count_where_nonzero _ _ Hcount).
           ++ destruct (Htaken i ltac:(lia)) as (u & Hu & Hcode).
              exists u. split; [exact Hu|]. rewrite Hcode. do 2 f_equal. lia.
    + unfold query at 1. cbv iota beta.
      destruct (count_where _ (users (work c)) =? 0)%Z eqn:Hcount.
      * split; [reflexivity|]. split; [reflexivity|]. split.
        -- exists 0%nat. split; [lia|]. now rewrite Nat.mul_0_r, Nat.add_0_r.
        -- apply Z.eqb_eq in Hcount. exact (proj1 (count_where_zero _ _) Hcount).
      * specialize (IH (pos + 8)%nat
                       {| calls_left := Nat.pred <$> None; work := work c;
                          durable := durable c |}).
        destruct (unique_reseller_code rng attempts (pos + 8) _) as [r c'].
        simpl in IH. destruct IH as (Hw & Hd & Hr).
        split; [exact Hw|]. split; [exact Hd|].
        destruct r as [[code|]|]; [| |congruence].
        -- destruct Hr as [(i & Hi & ->) Hfree]. split; [|exact Hfree].
           exists (S i). split; [lia|]. f_equal. lia.
        -- destruct Hr as [Hleft Htaken]. split.
           { rewrite Hleft. now rewrite Nat.iter_succ_r. }
           intros [|i] Hi.
           ++ apply Z.eqb_neq in Hcount. rewrite Nat.mul_0_r, Nat.add_0_r.
              exact (count_where_nonzero _ _ Hcount).
           ++ destruct (Htaken i ltac:(lia)) as (u & Hu & Hcode).
              exists u. split; [exact Hu|]. rewrite Hcode. do 2 f_equal. lia.
Qed.

Lemma random_choice_upper_or_digit draw :
  is_upper_or_digit (random_choice reseller_code_chars draw) = true.
Proof.
  unfold random_choice.
  assert (Hlt : (draw mod String.length reseller_code_chars < 36)%nat)
    by (apply Nat.mod_upper_bound; discriminate).
  remember (draw mod String.length reseller_code_chars)%nat as i eqn:Hi. clear Hi.
  do 36 (destruct i as [|i]; [reflexivity|]). lia.
Qed.

Lemma random_chars_spec rng n : forall pos,
  String.length (random_chars rng pos n) = n
  /\ string_forall is_upper_or_digit (random_chars rng pos n) = true.
Proof.
  induction n as [|n IH]; intros pos; [now split|].
  destruct (IH (S pos)) as [Hlen Hall]. cbn [random_chars]. split.
  - simpl. now rewrite Hlen.
  - rewrite string_forall_cons, random_choice_upper_or_digit. exact Hall.
Qed.

Lemma generate_reseller_code_format rng pos :
  String.length (generate_reseller_code rng pos) = 11%nat
  /\ String.prefix "RSL" (generate_reseller_code rng pos) = true
  /\ string_forall is_upper_or_digit (generate_reseller_code rng pos) = true.
Proof.
  destruct (random_chars_spec rng 8 pos) as [Hlen Hall].
  unfold generate_reseller_code.
  change ("RSL" ++ random_chars rng pos 8)
    with (String "R" (String "S" (String "L" (random_chars rng pos 8)))).
  split; [cbn [String.length]; now rewrite Hlen|]. split; [reflexivity|].
  rewrite !string_forall_cons, Hall. reflexivity.
Qed.

Lemma update_reseller_free user_id rate code d :
  (forall u, u ∈ users d -> User.reseller_code u <> Some code) ->
  update_reseller user_id rate code d
  = Some (tt, update_user user_id (set_reseller rate code) d).
Proof.
  intros Hfree. unfold update_reseller.
  destruct (existsb (fun r => negb _ && _) (users d)) eqn:Hex;
    [|now rewrite andb_false_r].
  apply existsb_exists in Hex. destruct Hex as (u & Hu & Hb).
  apply andb_true_iff in Hb. destruct Hb as [_ Hb].
  apply bool_decide_eq_true in Hb.
  exfalso. apply (Hfree u); [now apply list_elem_of_In|exact Hb].
Qed.

Lemma users_update_user user_id f d :
  users (update_user user_id f d)
  = map (fun r => if (User.user_id r =? user_id)%Z then f r else r) (users d).
Proof. reflexivity. Qed.

(** What [make_reseller] returns and leaves, case by case. *)
Lemma make_reseller_cases d fault rng attempts user_id commission_rate :
  match make_reseller d fault rng attempts user_id commission_rate with
  | Some ((true, Some code), d') =>
      String.length code = 11%nat
      /\ String.prefix "RSL" code = true
      /\ string_forall is_upper_or_digit code = true
      /\ (forall u, u ∈ users d -> User.reseller_code u <> Some code)
      /\ d' = update_user user_id (set_reseller commission_rate code) d
      /\ (forall u, u ∈ users d' -> User.reseller_code u = Some code ->
            User.user_id u = user_id /\ User.is_reseller u = true
            /\ User.commission_rate u = commission_rate)
  | Some ((true, None), _) => False
  | Some ((false, code), d') => code = None /\ d' = d
  | None =>
      forall i, (i < attempts)%nat ->
        exists u, u ∈ users d
          /\ User.reseller_code u = Some (generate_reseller_code rng (8 * i))
  end.
Proof.
  unfold make_reseller, connect.
  destruct fault as [[|n]|]; [now split| |].
  all: match goal with
       | |- context [sql_bind _ _ ?c] =>
           pose proof (unique_reseller_code_spec rng attempts 0 c) as Hloop;
           unfold sql_bind at 1;
           destruct (unique_reseller_code rng attempts 0 c) as [r c1]
       end.
  all: destruct Hloop as (Hw & Hd & Hr); cbn [work durable] in Hw, Hd.
  all: destruct r as [[code|]|]; [| |now split].
  all: try (cbn [sql_ret]; destruct Hr as [_ Htaken]; exact Htaken).
  all: destruct Hr as [(i & Hi & Hcode) Hfree]; cbn [work] in Hfree.
  all: destruct c1 as [cl w du]; cbn [work durable] in Hw, Hd; subst w du.
  all: unfold sql_bind, execute, binding; cbn [calls_left work durable].
  all: destruct (fits_sqlite_integer user_id);
       [|destruct cl as [[|[|m]]|]; run_sql; now split].
  all: rewrite (update_reseller_free user_id commission_rate code d Hfree).
  all: destruct cl as [[|[|m]]|]; run_sql; try now split.
  all: destruct (generate_reseller_code_format rng (0 + 8 * i)) as (Hlen & Hpre & Hall).
  all: rewrite <- Hcode in Hlen, Hpre, Hall.
  all: repeat (split; [assumption || reflexivity|]).
  all: intros u Hu Hucode; rewrite users_update_user in Hu.
  all: apply list_elem_of_fmap in Hu; destruct Hu as (r & -> & Hr).
  all: destruct (User.user_id r =? user_id)%Z eqn:Hid;
       [apply Z.eqb_eq in Hid; now repeat split
       |exfalso; exact (Hfree r Hr Hucode)].
Qed.

(** X11. [make_reseller] gives a code that no user holds.  When it returns
    [(True, code)], the code is [RSL] followed by eight upper-case letters or
    digits, no user held it before the call, the database is the one before
    the call with the row of [user_id] turned into a reseller row with this
    code and rate, and afterwards only that user holds the code.  When it
    returns [False] the code is [None] and the database is unchanged.  The
    loop goes on only as long as every code drawn is already taken. *)
Theorem make_reseller_gives_a_fresh_code d fault rng attempts user_id commission_rate :
  match make_reseller d fault rng attempts user_id commission_rate with
  | Some ((true, Some code), d') =>
      String.length code = 11%nat
      /\ String.prefix "RSL" code = true
      /\ string_forall is_upper_or_digit code = true
      /\ (forall u, u ∈ users d -> User.reseller_code u <> Some code)
      /\ d' = update_user user_id (set_reseller commission_rate code) d
      /\ (forall u, u ∈ users d' -> User.reseller_code u = Some code ->
            User.user_id u = user_id /\ User.is_reseller u = true
            /\ User.commission_rate u = commission_rate)
  | Some ((true, None), _) => False
  | Some ((false, code), d') => code = None /\ d' = d
  | None =>
      forall i, (i < attempts)%nat ->
        exists u, u ∈ users d
          /\ User.reseller_code u = Some (generate_reseller_code rng (8 * i))
  end.
Proof. apply make_reseller_cases. Qed.

Lemma unique_reseller_code_no_fault rng attempts : forall pos c,
  calls_left c = None ->
  calls_left (snd (unique_reseller_code rng attempts pos c)) = None.
Proof.
  induction attempts as [|attempts IH]; intros pos c Hcl; [exact Hcl|].
  cbn [unique_reseller_code]. unfold sql_bind at 1, execute at 1.
  rewrite Hcl. unfold query. cbv iota beta zeta.
  match goal with |- context [if ?b then _ else _] => destruct b end;
    [reflexivity|]. now apply IH.
Qed.

(** X12. Without a database error, and for a [user_id] that fits the 64
    bits of an SQLite integer, [make_reseller] succeeds as soon as a code
    that no user holds is drawn: when one of the first [attempts] codes is
    free, the loop ends within [attempts] rounds and the call returns
    [(True, code)].  For a [user_id] that does not fit, the [UPDATE] raises
    and the call returns [(False, None)] with the database unchanged. *)
Theorem make_reseller_ends_on_a_free_code d rng attempts user_id commission_rate i
    (Hi : (i < attempts)%nat)
    (Hfree : forall u, u ∈ users d ->
       User.reseller_code u <> Some (generate_reseller_code rng (8 * i))) :
  if fits_sqlite_integer user_id
  then exists code d',
         make_reseller d None rng attempts user_id commission_rate
         = Some ((true, Some code), d')
  else make_reseller d None rng attempts user_id commission_rate
       = Some ((false, None), d).
Proof.
  destruct (fits_sqlite_integer user_id) eqn:Hfits;
  unfold make_reseller, connect;
  match goal with
  | |- context [sql_bind _ _ ?c] =>
      pose proof (unique_reseller_code_spec rng attempts 0 c) as Hloop;
      pose proof (unique_reseller_code_no_fault rng attempts 0 c eq_refl) as Hcl;
      unfold sql_bind at 1;
      destruct (unique_reseller_code rng attempts 0 c) as [r c1]
  end;
  destruct Hloop as (Hw & Hd & Hr); cbn [work durable snd] in Hw, Hd, Hcl;
  (destruct r as [[code|]|];
   [ destruct Hr as [_ Hnone]; cbn [work] in Hnone;
     destruct c1 as [cl w du]; cbn [work durable calls_left] in Hw, Hd, Hcl; subst;
     unfold sql_bind, execute, binding; cbn [calls_left work durable];
     rewrite Hfits
   | exfalso; destruct Hr as [_ Htaken]; destruct (Htaken i Hi) as (u & Hu & Hcode);
     exact (Hfree u Hu Hcode)
   | now destruct Hr ]).
  - rewrite (update_reseller_free user_id commission_rate code d Hnone).
    run_sql. eauto.
  - reflexivity.
Qed.

Lemma make_reseller_ends_on_a_free_code_witness :
  (exists code d',
     make_reseller sample_db None (fun _ => 0%nat) 1 7 (1 # 5)
     = Some ((true, Some code), d'))
  /\ make_reseller sample_db None (fun _ => 0%nat) 1 (2 ^ 63) (1 # 5)
     = Some ((false, None), sample_db).
Proof.
  assert (Hfree : forall u, u ∈ users sample_db ->
            User.reseller_code u <> Some (generate_reseller_code (fun _ => 0%nat) (8 * 0))).
  { intros u Hu. vm_compute in Hu. apply list_elem_of_In in Hu.
    destruct Hu as [<-|[]]. vm_compute. discriminate. }
  split.
  - apply (make_reseller_ends_on_a_free_code sample_db (fun _ => 0%nat) 1 7 (1 # 5) 0
             ltac:(lia) Hfree).
  - apply (make_reseller_ends_on_a_free_code sample_db (fun _ => 0%nat) 1 (2 ^ 63) (1 # 5)
             0 ltac:(lia) Hfree).
Defined.

(* ------------------------------------------------------------------ *)
(** ** The ledger, continued *)

Lemma select_user_update_user_row w user_id f d r :
  (forall r, User.user_id (f r) = User.user_id r) ->
  select_user w d = Some r ->
  select_user w (update_user user_id f d)
  = Some (if (w =? user_id)%Z then f r else r).
Proof.
  intros Hf Hr. rewrite select_user_update_user by exact Hf. rewrite Hr.
  simpl. now rewrite (select_user_user_id _ _ _ Hr).
Qed.

Lemma Qle_plus_nonneg (a b : Q) : (0 <= b)%Q -> (a <= a + b)%Q.
Proof.
  intros H. apply Qle_trans with (a + 0)%Q.
  - rewrite Qplus_0_r. apply Qle_refl.
  - now apply Qplus_le_r.
Qed.

Lemma Qle_plus_nonpos (a b : Q) : (b <= 0)%Q -> (a + b <= a)%Q.
Proof.
  intros H. apply Qle_trans with (a + 0)%Q.
  - now apply Qplus_le_r.
  - rewrite Qplus_0_r. apply Qle_refl.
Qed.

(** X13. [update_balance] keeps the books of every user: whatever the
    database error, the row of a user who had one is still there.  It is as
    it was when it is the row of another user or when the call returned
    [False].  When the call returned [True], the row of [user_id] differs in
    its amounts only: for an amount above zero the balance and the total
    earned have not gone down and the total spent is as it was; otherwise
    the balance has not gone up, the total spent has not gone down and the
    total earned is as it was.  The transaction log gains one row, with the
    amount of the call, exactly when the call returns [True]. *)
Theorem update_balance_keeps_the_books d fault now user_id amount transaction_type
    description w r
    (Hr : select_user w d = Some r) :
  let '(ok, d') :=
    update_balance d fault now user_id amount transaction_type description in
  (exists r', select_user w d' = Some r'
     /\ (ok && (w =? user_id)%Z = false -> r' = r)
     /\ (ok && (w =? user_id)%Z = true ->
         same_user_apart_from_amounts r r'
         /\ if Qltb 0 amount
            then (User.balance r <= User.balance r')%Q
                 /\ (User.total_earned r <= User.total_earned r')%Q
                 /\ User.total_spent r' = User.total_spent r
            else (User.balance r' <= User.balance r)%Q
                 /\ (User.total_spent r <= User.total_spent r')%Q
                 /\ User.total_earned r' = User.total_earned r))
  /\ transactions d'
     = (if ok
        then transactions d
             ++ [transaction_row (transactions d) now user_id amount transaction_type
                   description]
        else transactions d)%list.
Proof.
  assert (Hsame : (exists r', select_user w d = Some r'
            /\ (false && (w =? user_id)%Z = false -> r' = r)
            /\ (false && (w =? user_id)%Z = true ->
                same_user_apart_from_amounts r r'
                /\ if Qltb 0 amount
                   then (User.balance r <= User.balance r')%Q
                        /\ (User.total_earned r <= User.total_earned r')%Q
                        /\ User.total_spent r' = User.total_spent r
                   else (User.balance r' <= User.balance r)%Q
                        /\ (User.total_spent r <= User.total_spent r')%Q
                        /\ User.total_earned r' = User.total_earned r))
          /\ transactions d = transactions d).
  { split; [|reflexivity]. exists r. split; [exact Hr|]. split; [reflexivity|].
    cbn [andb]. discriminate. }
  destruct (fits_sqlite_integer user_id) eqn:Hfits;
    [|rewrite update_balance_unbound by exact Hfits; exact Hsame].
  destruct (update_balance_cases d fault now user_id amount transaction_type description)
    as [-> | ->]; [|exact Hsame]. clear Hsame.
  pose proof (update_balance_log d now user_id amount transaction_type description Hfits)
    as Hlog.
  rewrite update_balance_no_fault in * by exact Hfits. simpl snd in Hlog.
  split; [|exact Hlog].
  destruct (Qltb 0 amount) eqn:Hsign.
  - rewrite (select_user_update_user_row w user_id _ _
               (if (w =? user_id)%Z then add_balance amount r else r));
      [|reflexivity|].
    2:{ change (select_user w (insert_transaction ?a ?b ?c ?e ?f ?g))
          with (select_user w g).
        now apply select_user_update_user_row. }
    apply Qltb_lt in Hsign. apply Qlt_le_weak in Hsign.
    eexists. split; [reflexivity|].
    destruct (w =? user_id)%Z; cbn [andb];
      (split; [try discriminate; reflexivity|]); [|discriminate].
    intros _. split; [repeat split|].
    cbn [User.balance User.total_earned User.total_spent add_balance add_total_earned].
    split; [now apply Qle_plus_nonneg|]. split; [now apply Qle_plus_nonneg|reflexivity].
  - rewrite (select_user_update_user_row w user_id _ _
               (if (w =? user_id)%Z then add_balance amount r else r));
      [|reflexivity|].
    2:{ change (select_user w (insert_transaction ?a ?b ?c ?e ?f ?g))
          with (select_user w g).
        now apply select_user_update_user_row. }
    assert (Hneg : (amount <= 0)%Q).
    { apply Qnot_lt_le. intros Hlt. apply Qltb_lt in Hlt. congruence. }
    eexists. split; [reflexivity|].
    destruct (w =? user_id)%Z; cbn [andb];
      (split; [try discriminate; reflexivity|]); [|discriminate].
    intros _. split; [repeat split|].
    cbn [User.balance User.total_earned User.total_spent add_balance add_total_spent].
    split; [now apply Qle_plus_nonpos|].
    split; [apply Qle_plus_nonneg, Qabs_nonneg|reflexivity].
Qed.

Lemma update_balance_keeps_the_books_witness :
  select_user 7 sample_db = Some sample_reseller
  /\ let '(ok, d') := update_balance sample_db None 5 7 (-3) "purchase" None in
     (exists r', select_user 7 d' = Some r'
        /\ (ok && (7 =? 7)%Z = false -> r' = sample_reseller)
        /\ (ok && (7 =? 7)%Z = true ->
            same_user_apart_from_amounts sample_reseller r'
            /\ if Qltb 0 (-3)
               then (User.balance sample_reseller <= User.balance r')%Q
                    /\ (User.total_earned sample_reseller <= User.total_earned r')%Q
                    /\ User.total_spent r' = User.total_spent sample_reseller
               else (User.balance r' <= User.balance sample_reseller)%Q
                    /\ (User.total_spent sample_reseller <= User.total_spent r')%Q
                    /\ User.total_earned r' = User.total_earned sample_reseller))
     /\ transactions d'
        = (if ok
           then transactions sample_db
                ++ [transaction_row (transactions sample_db) 5 7 (-3) "purchase" None]
           else transactions sample_db)%list.
Proof.
  split; [reflexivity|].
  apply (update_balance_keeps_the_books sample_db None 5 7 (-3) "purchase" None 7
           sample_reseller).
  reflexivity.
Defined.

Lemma update_user_unknown user_id f d :
  select_user user_id d = None -> users (update_user user_id f d) = users d.
Proof.
  unfold select_user. rewrite users_update_user.
  induction (users d) as [|a l IH]; [reflexivity|].
  cbn [find map]. destruct (User.user_id a =? user_id)%Z; [discriminate|].
  intros Hl. now rewrite IH.
Qed.

(** X14. [update_balance] does not look for the user: for a user who has no
    row it changes no row of [users], and without a database error, for a
    [user_id] that fits the 64 bits of an SQLite integer, it still returns
    [True] and records the transaction (the foreign key of [transactions] is
    declared, but no [PRAGMA foreign_keys] turns its enforcement on).  For a
    [user_id] that does not fit, the first statement raises: the call
    returns [False] and records nothing. *)
Theorem update_balance_of_an_unknown_user d fault now user_id amount transaction_type
    description
    (Hnone : select_user user_id d = None) :
  users (snd (update_balance d fault now user_id amount transaction_type description))
  = users d
  /\ update_balance d None now user_id amount transaction_type description
     = (fits_sqlite_integer user_id,
        snd (update_balance d None now user_id amount transaction_type description))
  /\ transactions
       (snd (update_balance d None now user_id amount transaction_type description))
     = (if fits_sqlite_integer user_id
        then transactions d
             ++ [transaction_row (transactions d) now user_id amount transaction_type
                   description]
        else transactions d)%list.
Proof.
  destruct (fits_sqlite_integer user_id) eqn:Hfits;
    [|rewrite !update_balance_unbound by exact Hfits; repeat split].
  split; [|split].
  - destruct (update_balance_cases d fault now user_id amount transaction_type
                description) as [-> | ->]; [|reflexivity].
    rewrite update_balance_no_fault by exact Hfits. cbn [snd].
    destruct (Qltb 0 amount).
    + rewrite update_user_unknown.
      * change (users (insert_transaction ?a ?b ?c ?e ?f ?g)) with (users g).
        now apply update_user_unknown.
      * unfold select_user.
        change (users (insert_transaction ?a ?b ?c ?e ?f ?g)) with (users g).
        rewrite update_user_unknown by exact Hnone. exact Hnone.
    + rewrite update_user_unknown.
      * change (users (insert_transaction ?a ?b ?c ?e ?f ?g)) with (users g).
        now apply update_user_unknown.
      * unfold select_user.
        change (users (insert_transaction ?a ?b ?c ?e ?f ?g)) with (users g).
        rewrite update_user_unknown by exact Hnone. exact Hnone.
  - now rewrite update_balance_no_fault by exact Hfits.
  - now apply update_balance_log.
Qed.

Lemma update_balance_of_an_unknown_user_witness :
  select_user 8 sample_db = None
  /\ users (snd (update_balance sample_db None 5 8 10 "admin_add" None))
     = users sample_db
  /\ update_balance sample_db None 5 8 10 "admin_add" None
     = (true, snd (update_balance sample_db None 5 8 10 "admin_add" None))
  /\ transactions (snd (update_balance sample_db None 5 8 10 "admin_add" None))
     = (transactions sample_db
        ++ [transaction_row (transactions sample_db) 5 8 10 "admin_add" None])%list.
Proof.
  split; [reflexivity|].
  apply (update_balance_of_an_unknown_user sample_db None 5 8 10 "admin_add" None).
  reflexivity.
Defined.

(* ------------------------------------------------------------------ *)
(** ** The purchase flow, continued *)

Lemma find_app_Some {A} (f : A -> bool) (l l' : list A) x :
  find f l = Some x -> find f (l ++ l')%list = Some x.
Proof.
  induction l as [|a l IH]; [discriminate|]. simpl.
  destruct (f a); [trivial | exact IH].
Qed.

(** [ensure_user_exists] touches the table [users] only. *)
Lemma ensure_user_exists_tables d faults clocks user_id username :
  licenses (ensure_user_exists d faults clocks user_id username) = licenses d
  /\ transactions (ensure_user_exists d faults clocks user_id username) = transactions d
  /\ admin_logs (ensure_user_exists d faults clocks user_id username) = admin_logs d.
Proof.
  unfold ensure_user_exists.
  destruct (create_user_cases d (create_user_fault faults) (create_user_now clocks)
              user_id username)
    as [-> | ->];
  match goal with
  | |- context [update_user_activity ?d0 ?f ?n ?u] =>
      destruct (update_user_activity_cases d0 f n u) as [-> | ->]
  end;
  unfold insert_or_ignore_user; destruct (select_user user_id d); auto.
Qed.

(** [ensure_user_exists] keeps every row that was there, up to the
    [last_activity] of the row of [user_id]. *)
Lemma ensure_user_exists_row d faults clocks user_id username w r :
  select_user w d = Some r ->
  exists r', select_user w (ensure_user_exists d faults clocks user_id username) = Some r'
    /\ User.user_id r' = User.user_id r
    /\ User.balance r' = User.balance r
    /\ User.total_spent r' = User.total_spent r
    /\ User.total_earned r' = User.total_earned r
    /\ User.is_reseller r' = User.is_reseller r
    /\ User.commission_rate r' = User.commission_rate r
    /\ User.reseller_code r' = User.reseller_code r.
Proof.
  intros Hr. unfold ensure_user_exists.
  assert (Hins : select_user w (insert_or_ignore_user (create_user_now clocks) user_id
                                  username d) = Some r).
  { unfold insert_or_ignore_user. destruct (select_user user_id d); [exact Hr|].
    unfold select_user, set_users. cbn [users]. now apply find_app_Some. }
  destruct (create_user_cases d (create_user_fault faults) (create_user_now clocks)
              user_id username)
    as [-> | ->];
  match goal with
  | |- context [update_user_activity ?d0 ?f ?n ?u] =>
      destruct (update_user_activity_cases d0 f n u) as [-> | ->]
  end;
  try (rewrite (select_user_update_user_row w user_id
                  (set_last_activity (update_user_activity_now clocks)) _ r)
         by (reflexivity || assumption);
       destruct (w =? user_id)%Z);
  eexists; (split; [eassumption || reflexivity|]); repeat split.
Qed.

Section PurchaseOutcome.

Variable int_of_str : string -> option Z.
Variable str_of_int : Z -> string.
Variable format_money : Q -> string.
Variable cached_display_name : Z -> option string.
Variable float_mul : Q -> Q -> Q.
Variable float_sub : Q -> Q -> Q.
Variable float_lt : Q -> Q -> bool.

(** What the [/purchase] command has checked when it confirms. *)
Lemma purchase_confirmation_cases s faults get_user_fault clocks user_id display_name
    p target view s'
    (Hrun : purchase int_of_str str_of_int cached_display_name float_mul float_sub float_lt
              s faults get_user_fault clocks user_id display_name p target
            = (Purchase_Confirmation view, s')) :
  PurchaseView.interaction_user_id view = user_id
  /\ PurchaseView.product_type view = p
  /\ select_user user_id (db s') = Some (PurchaseView.user_data view)
  /\ User.is_reseller (PurchaseView.user_data view) = true
  /\ dict_get PRODUCTS p = Some (PurchaseView.product view)
  /\ PurchaseView.reseller_price view
     = float_mul (price (PurchaseView.product view))
         (float_sub 1 (User.commission_rate (PurchaseView.user_data view)))
  /\ PurchaseView.commission view
     = float_sub (price (PurchaseView.product view)) (PurchaseView.reseller_price view)
  /\ float_lt (User.balance (PurchaseView.user_data view))
       (PurchaseView.reseller_price view) = false
  /\ (0 < get_key_count (fs s) p)%Z
  /\ fs s' = fs s
  /\ licenses (db s') = licenses (db s)
  /\ transactions (db s') = transactions (db s).
Proof.
  pose proof (purchase_state int_of_str str_of_int cached_display_name float_mul float_sub
                float_lt s faults get_user_fault clocks user_id display_name p target)
    as Hstate.
  rewrite Hrun in Hstate. cbn [snd] in Hstate. subst s'. cbn [fs db].
  destruct (ensure_user_exists_tables (db s) faults clocks user_id display_name)
    as (Hl & Ht & _).
  revert Hrun. unfold purchase.
  set (d := ensure_user_exists (db s) faults clocks user_id display_name) in *.
  destruct (get_user_cases d get_user_fault user_id) as [-> | ->]; [|discriminate].
  destruct (select_user user_id d) as [user_data|] eqn:Huser; [|discriminate].
  destruct (User.is_reseller user_data) eqn:Hres; cbn [negb]; [|discriminate].
  destruct (dict_get PRODUCTS p) as [prod|] eqn:Hprod; [|discriminate].
  cbn [fs].
  destruct (get_key_count (fs s) p <=? 0)%Z eqn:Hcount; [discriminate|].
  destruct (float_lt (User.balance user_data) _) eqn:Hbal; [discriminate|].
  apply Z.leb_gt in Hcount.
  assert (Hview : forall target_user_id target_username,
    (Purchase_Confirmation
       {| PurchaseView.interaction_user_id := user_id;
          PurchaseView.user_data := user_data;
          PurchaseView.product_type := p;
          PurchaseView.product := prod;
          PurchaseView.reseller_price :=
            float_mul (price prod) (float_sub 1 (User.commission_rate user_data));
          PurchaseView.commission :=
            float_sub (price prod)
              (float_mul (price prod) (float_sub 1 (User.commission_rate user_data)));
          PurchaseView.target_user_id := target_user_id;
          PurchaseView.target_username := target_username |},
     {| fs := fs s; db := d |})
    = (Purchase_Confirmation view, {| fs := fs s; db := d |}) ->
    PurchaseView.interaction_user_id view = user_id
    /\ PurchaseView.product_type view = p
    /\ Some user_data = Some (PurchaseView.user_data view)
    /\ User.is_reseller (PurchaseView.user_data view) = true
    /\ Some prod = Some (PurchaseView.product view)
    /\ PurchaseView.reseller_price view
       = float_mul (price (PurchaseView.product view))
           (float_sub 1 (User.commission_rate (PurchaseView.user_data view)))
    /\ PurchaseView.commission view
       = float_sub (price (PurchaseView.product view)) (PurchaseView.reseller_price view)
    /\ float_lt (User.balance (PurchaseView.user_data view))
         (PurchaseView.reseller_price view) = false
    /\ (0 < get_key_count (fs s) p)%Z
    /\ fs s = fs s
    /\ licenses d = licenses (db s)
    /\ transactions d = transactions (db s)).
  { intros tid tname [= <-]. cbn.
    repeat (split; [reflexivity || assumption|]). exact Ht. }
  cbv zeta.
  destruct target as [[|c rest]|]; [apply Hview| |apply Hview].
  destruct (int_of_str (String c rest)); [apply Hview|discriminate].
Qed.

(** X15. What a purchase confirmation stands for.  When [/purchase] sends
    its confirmation, the user of the command has a row and is a reseller,
    the product is the configured one, the price shown is what Python's
    [original_price * (1 - commission_rate)] gives for the list price and
    the commission rate of that reseller, the commission shown is what
    [original_price - reseller_price] gives, the test [balance <
    reseller_price] was false for the balance read, and the product has
    stock; no key is taken and no license or transaction is written by the
    command. *)
Theorem purchase_confirmation_is_sound s faults get_user_fault clocks user_id display_name
    p target view s'
    (Hrun : purchase int_of_str str_of_int cached_display_name float_mul float_sub float_lt
              s faults get_user_fault clocks user_id display_name p target
            = (Purchase_Confirmation view, s')) :
  PurchaseView.interaction_user_id view = user_id
  /\ PurchaseView.product_type view = p
  /\ select_user user_id (db s') = Some (PurchaseView.user_data view)
  /\ User.is_reseller (PurchaseView.user_data view) = true
  /\ dict_get PRODUCTS p = Some (PurchaseView.product view)
  /\ PurchaseView.reseller_price view
     = float_mul (price (PurchaseView.product view))
         (float_sub 1 (User.commission_rate (PurchaseView.user_data view)))
  /\ PurchaseView.commission view
     = float_sub (price (PurchaseView.product view)) (PurchaseView.reseller_price view)
  /\ float_lt (User.balance (PurchaseView.user_data view))
       (PurchaseView.reseller_price view) = false
  /\ (0 < get_key_count (fs s) p)%Z
  /\ fs s' = fs s
  /\ licenses (db s') = licenses (db s)
  /\ transactions (db s') = transactions (db s).
Proof. exact (purchase_confirmation_cases _ _ _ _ _ _ _ _ _ _ Hrun). Qed.

End PurchaseOutcome.

Lemma purchase_confirmation_is_sound_witness :
  User.is_reseller (PurchaseView.user_data sample_view) = true
  /\ Qltb (User.balance (PurchaseView.user_data sample_view))
       (PurchaseView.reseller_price sample_view) = false
  /\ (0 < get_key_count (fs sample_state) "val1week")%Z.
Proof.
  assert (Hrun : purchase (fun _ => None) (fun _ => EmptyString) (fun _ => None)
                   Qmult Qminus Qltb
                   sample_state no_faults None (ensure_at 100) 7 "Admin" "val1week" None
                 = (Purchase_Confirmation sample_view,
                    {| fs := fs sample_state;
                       db := update_user 7 (set_last_activity 100) sample_db |}))
    by (vm_compute; reflexivity).
  destruct (purchase_confirmation_is_sound _ _ _ _ _ _ _ _ _ _ _ _ _ _ _ _ Hrun)
    as (_ & _ & _ & Hres & _ & _ & _ & Hbal & Hstock & _).
  exact (conj Hres (conj Hbal Hstock)).
Defined.

Section PurchaseSuccess.

Variable str_of_int : Z -> string.
Variable format_money : Q -> string.

(** X16. What a successful purchase has done.  When the handler of the
    Purchase button ends with "Purchase Successful", the click came from the
    user of the command, the license id is the key that was at the head of
    the pool of the product and the pool is now its tail (the count is one
    lower), the table gained exactly the license row of that key for the
    target user, active, created at the clock reading of the [INSERT] and
    expiring [duration] days after the reading of Python's clock, a date
    within the range of [datetime]; the transaction log gained exactly one
    row of type ["purchase"] with the negated price; and for a price that is
    not negative the balance of the reseller has not gone up and the total
    spent has not gone down. *)
Theorem successful_purchase s view button_user_id faults create_license_fault
    update_balance_fault log_fault clocks create_license_now datetime_now
    update_balance_now log_now license_id s'
    (Hrun : PurchaseView_purchase str_of_int format_money s view button_user_id faults
              create_license_fault update_balance_fault log_fault clocks
              create_license_now datetime_now update_balance_now log_now
            = (Purchase_Successful license_id, s')) :
  let p := PurchaseView.product_type view in
  let reseller := PurchaseView.interaction_user_id view in
  let expires_at :=
    (datetime_now + microseconds_per_day * duration (PurchaseView.product view))%Z in
  button_user_id = reseller
  /\ (exists ks, pool (fs s) p = license_id :: ks /\ pool (fs s') p = ks)
  /\ get_key_count (fs s') p = (get_key_count (fs s) p - 1)%Z
  /\ select_license license_id (db s) = None
  /\ (0 <= expires_at <= datetime_max)%Z
  /\ licenses (db s')
     = (licenses (db s)
        ++ [license_row create_license_now license_id (PurchaseView.target_user_id view) p
              (Some (name (PurchaseView.product view))) 1 expires_at reseller])%list
  /\ (exists description,
        transactions (db s')
        = (transactions (db s)
           ++ [transaction_row (transactions (db s)) update_balance_now reseller
                 (- PurchaseView.reseller_price view) "purchase" description])%list)
  /\ (forall r, select_user reseller (db s) = Some r ->
        exists r', select_user reseller (db s') = Some r'
          /\ ((0 <= PurchaseView.reseller_price view)%Q ->
              (User.balance r' <= User.balance r)%Q
              /\ (User.total_spent r <= User.total_spent r')%Q)).
Proof.
  intros p reseller expires_at. revert Hrun. unfold PurchaseView_purchase.
  fold p. fold reseller.
  destruct (button_user_id =? reseller)%Z eqn:Hbutton; cbn [negb]; [|discriminate].
  apply Z.eqb_eq in Hbutton.
  destruct (ensure_user_exists_tables (db s) faults clocks
              (PurchaseView.target_user_id view) (PurchaseView.target_username view))
    as (Hl & Ht & _).
  set (d1 := ensure_user_exists (db s) faults clocks (PurchaseView.target_user_id view)
               (PurchaseView.target_username view)) in *.
  set (s1 := {| fs := fs s; db := d1 |}).
  destruct (pool (fs s1) p) as [|k ks] eqn:Hpool.
  { rewrite (create_license_empty_pool s1 create_license_fault create_license_now
               datetime_now _ p _ _ _ _ Hpool).
    discriminate. }
  destruct (create_license_cases s1 create_license_fault create_license_now datetime_now
              (PurchaseView.target_user_id view) p
              (duration (PurchaseView.product view)) reseller 1
              (Some (name (PurchaseView.product view))) k ks Hpool)
    as (fs1 & Htake & Hks & [(Hsel & Hexp & Hfits & ->) | ->]); [|discriminate].
  assert (Hrange : (0 <= expires_at <= datetime_max)%Z).
  { revert Hexp. unfold expiry. fold expires_at.
    destruct (Z.abs _ <=? 999999999)%Z; [|discriminate]. cbv zeta.
    destruct (0 <=? expires_at)%Z eqn:H0; [|discriminate].
    destruct (expires_at <=? datetime_max)%Z eqn:H1; [|discriminate].
    intros _. apply Z.leb_le in H0, H1. lia. }
  assert (Hfr : fits_sqlite_integer reseller = true)
    by (now apply andb_true_iff in Hfits as [_ Hfits]).
  assert (Hk : truthy k = true).
  { assert (Hwf : well_formed_key k = true)
      by (apply (pool_well_formed (fs s1) p); rewrite Hpool; now left).
    apply well_formed_key_spec in Hwf as [Hne _]. destruct k; [congruence | reflexivity]. }
  rewrite Hk. cbn [negb db fs]. change (db s1) with d1 in *.
  set (d2 := set_licenses _ d1).
  match goal with
  | |- context [update_balance d2 ?f ?n ?u ?a ?t ?e] =>
      pose proof (update_balance_log d2 n u a t e Hfr) as Hlog;
      pose proof (update_balance_other_tables d2 None n u a t e) as Hother;
      pose proof (fun r => update_balance_row d2 n u a t e r Hfr) as Hrow;
      pose proof (update_balance_no_fault d2 n u a t e Hfr) as Hnf;
      destruct (update_balance_cases d2 f n u a t e) as [-> | ->];
      [destruct (update_balance d2 None n u a t e) as [ok d3]|]
  end.
  2:{ cbn [negb]. destruct (return_key fs1 p k). discriminate. }
  injection Hnf as -> _. cbn [negb snd] in *. destruct Hother as [Hl3 _].
  match goal with
  | |- context [log_admin_action d3 ?f ?n ?a ?b ?c ?e ?g] =>
      destruct (log_admin_action_cases d3 f n a b c e g) as [-> | ->]
  end.
  all: intros [= <- <-]; cbn [fs db].
  all: split; [exact Hbutton|].
  all: split; [exists ks; split; [exact Hpool | exact Hks]|].
  all: split; [rewrite !get_key_count_pool; change (fs s1) with (fs s) in Hpool;
               rewrite Hpool, Hks; cbn [length]; lia|].
  all: split; [unfold select_license in *; now rewrite <- Hl|].
  all: split; [exact Hrange|].
  all: split; [change (licenses (insert_admin_log ?a ?b ?c ?e ?f ?g ?h))
                 with (licenses h); rewrite ?Hl3; unfold d2; cbn [licenses set_licenses];
               now rewrite Hl|].
  all: split; [eexists;
               change (transactions (insert_admin_log ?a ?b ?c ?e ?f ?g ?h))
                 with (transactions h);
               rewrite Hlog; unfold d2; cbn [transactions set_licenses];
               rewrite Ht; reflexivity|].
  all: intros r Hr.
  all: destruct (ensure_user_exists_row (db s) faults clocks
                   (PurchaseView.target_user_id view)
                   (PurchaseView.target_username view) reseller r Hr)
         as (r1 & Hr1 & _ & Hb1 & Hs1 & _).
  all: fold d1 in Hr1.
  all: change (select_user reseller d1) with (select_user reseller d2) in Hr1.
  all: specialize (Hrow r1 Hr1).
  all: change (select_user reseller (insert_admin_log ?a ?b ?c ?e ?f ?g ?h))
         with (select_user reseller h).
  all: eexists; (split; [exact Hrow|]).
  all: intros Hprice.
  all: pose proof (Qopp_le_compat 0 _ Hprice) as Hamount.
  all: destruct (Qltb 0 _) eqn:Hsign;
       [apply Qltb_lt in Hsign; exfalso; exact (Qlt_not_le _ _ Hsign Hamount)|].
  all: cbn [User.balance User.total_spent add_balance add_total_spent].
  all: rewrite Hb1, Hs1.
  all: split; [now apply Qle_plus_nonpos | apply Qle_plus_nonneg, Qabs_nonneg].
Qed.

End PurchaseSuccess.

Lemma successful_purchase_witness :
  let run := PurchaseView_purchase (fun _ => EmptyString) (fun _ => EmptyString)
               sample_state sample_view 7 no_faults None None None (ensure_at 101)
               101 150 102 103 in
  fst run = Purchase_Successful "K1"
  /\ get_key_count (fs (snd run)) "val1week"
     = (get_key_count (fs sample_state) "val1week" - 1)%Z
  /\ select_license "K1" (db sample_state) = None
  /\ licenses (db (snd run))
     = [license_row 101 "K1" 7 "val1week" (Some "Valorant 1 Week License") 1
          (150 + microseconds_per_day * 7) 7].
Proof.
  intros run.
  assert (Hrun : run = (Purchase_Successful "K1", snd run)) by (vm_compute; reflexivity).
  destruct (successful_purchase _ _ _ _ _ _ _ _ _ _ _ _ _ _ _ _ Hrun)
    as (_ & _ & Hcount & Hsel & _ & Hlic & _).
  split; [now rewrite Hrun|]. exact (conj Hcount (conj Hsel Hlic)).
Defined.

Section PurchaseCharge.

Variable str_of_int : Z -> string.
Variable format_money : Q -> string.

(** X17. The reseller is charged only by a successful purchase.  Whenever
    the handler of the Purchase button ends otherwise (a click of another
    user, "Purchase Failed", "Payment Failed"), the transaction log is as
    before and the row of the reseller has the balance and the totals it
    had, whatever the database errors. *)
Theorem no_charge_without_success s view button_user_id faults create_license_fault
    update_balance_fault log_fault clocks create_license_now datetime_now
    update_balance_now log_now r
    (Hr : select_user (PurchaseView.interaction_user_id view) (db s) = Some r) :
  let '(click, s') :=
    PurchaseView_purchase str_of_int format_money s view button_user_id faults
      create_license_fault update_balance_fault log_fault clocks create_license_now
      datetime_now update_balance_now log_now in
  match click with
  | Purchase_Successful _ => True
  | _ =>
      transactions (db s') = transactions (db s)
      /\ exists r', select_user (PurchaseView.interaction_user_id view) (db s') = Some r'
           /\ User.balance r' = User.balance r
           /\ User.total_spent r' = User.total_spent r
           /\ User.total_earned r' = User.total_earned r
  end.
Proof.
  unfold PurchaseView_purchase.
  set (p := PurchaseView.product_type view).
  set (reseller := PurchaseView.interaction_user_id view) in *.
  destruct (button_user_id =? reseller)%Z; cbn [negb].
  2:{ split; [reflexivity|]. exists r. auto. }
  destruct (ensure_user_exists_tables (db s) faults clocks
              (PurchaseView.target_user_id view) (PurchaseView.target_username view))
    as (_ & Ht & _).
  destruct (ensure_user_exists_row (db s) faults clocks
              (PurchaseView.target_user_id view) (PurchaseView.target_username view)
              reseller r Hr)
    as (r1 & Hr1 & _ & Hb1 & Hs1 & He1 & _).
  set (d1 := ensure_user_exists (db s) faults clocks (PurchaseView.target_user_id view)
               (PurchaseView.target_username view)) in *.
  set (s1 := {| fs := fs s; db := d1 |}).
  destruct (pool (fs s1) p) as [|k ks] eqn:Hpool.
  { rewrite (create_license_empty_pool s1 create_license_fault create_license_now
               datetime_now _ p _ _ _ _ Hpool).
    cbn [db s1]. split; [exact Ht|]. exists r1. auto. }
  destruct (create_license_cases s1 create_license_fault create_license_now datetime_now
              (PurchaseView.target_user_id view) p
              (duration (PurchaseView.product view)) reseller 1
              (Some (name (PurchaseView.product view))) k ks Hpool)
    as (fs1 & Htake & Hks & [(Hsel & _ & _ & ->) | ->]).
  2:{ cbn [db s1]. split; [exact Ht|]. exists r1. auto. }
  assert (Hk : truthy k = true).
  { assert (Hwf : well_formed_key k = true)
      by (apply (pool_well_formed (fs s1) p); rewrite Hpool; now left).
    apply well_formed_key_spec in Hwf as [Hne _]. destruct k; [congruence | reflexivity]. }
  rewrite Hk. cbn [negb db fs]. change (db s1) with d1 in *.
  set (d2 := set_licenses _ d1).
  match goal with
  | |- context [update_balance d2 ?f ?n ?u ?a ?t ?e] =>
      destruct (update_balance d2 f n u a t e) as [[|] d3] eqn:Hpay
  end.
  - cbn [negb]. now destruct (log_admin_action _ _ _ _ _ _ _ _).
  - apply update_balance_false in Hpay. subst d3.
    cbn [negb]. destruct (return_key fs1 p k). cbn [db].
    split; [exact Ht|]. exists r1. auto.
Qed.

End PurchaseCharge.

Lemma no_charge_without_success_witness :
  let run := PurchaseView_purchase (fun _ => EmptyString) (fun _ => EmptyString)
               sample_state sample_view 7 no_faults None (Some 0%nat) None (ensure_at 101)
               101 101 101 101 in
  select_user 7 (db sample_state) = Some sample_reseller
  /\ fst run = Payment_Failed
  /\ transactions (db (snd run)) = transactions (db sample_state).
Proof.
  intros run.
  pose proof (no_charge_without_success (fun _ => EmptyString) (fun _ => EmptyString)
                sample_state sample_view 7 no_faults None (Some 0%nat) None (ensure_at 101)
                101 101 101 101 sample_reseller eq_refl) as H.
  fold run in H.
  assert (Hrun : run = (Payment_Failed, snd run)) by (vm_compute; reflexivity).
  rewrite Hrun in H. cbn [snd] in H. destruct H as [Ht _].
  split; [reflexivity|]. split; [now rewrite Hrun | exact Ht].
Defined.

(* ------------------------------------------------------------------ *)
(** ** Issuing and deleting a license *)

Lemma select_license_None k d :
  select_license k d = None -> forall r, r ∈ licenses d -> License.license_id r <> k.
Proof.
  unfold select_license. intros Hnone r Hr Hid.
  apply list_elem_of_In in Hr.
  pose proof (find_none _ _ Hnone r Hr) as Hf. cbv beta in Hf.
  rewrite Hid, String.eqb_refl in Hf. discriminate.
Qed.

Lemma filter_unchanged {A} (P : A -> Prop) `{forall x, Decision (P x)} (l : list A) :
  (forall x, x ∈ l -> P x) -> filter P l = l.
Proof.
  induction l as [|a l IH]; intros Hall; [reflexivity|].
  rewrite filter_cons_True by (apply Hall; now left).
  f_equal. apply IH. intros x Hx. apply Hall. now right.
Qed.

(** X18. Issuing a license and deleting it again is a round trip.  When
    [create_license] returns a license id from a pool without duplicates,
    the row it wrote is the one [get_license_by_id] returns: for the user and
    product given, active, without hardware id, created at the clock reading
    of the [INSERT] and expiring [duration_days] days after the reading of
    Python's clock, a date within the range of [datetime].  Deleting that
    license for that user then succeeds and leaves the pool of the product
    and the table of licenses as they were before the license was issued. *)
Theorem issue_then_delete_is_a_round_trip s fault now datetime_now user_id p duration_days
    created_by hwid_limit product_name license_id s1
    (Hissue : create_license s fault now datetime_now user_id p duration_days created_by
                hwid_limit product_name = (Some license_id, s1))
    (Hnodup : NoDup (pool (fs s) p)) :
  get_license_by_id (db s1) None license_id
  = Some {| License.license_id := license_id; License.user_id := user_id;
            License.product_type := p; License.product_name := product_name;
            License.hwid := None; License.hwid_limit := hwid_limit;
            License.created_at := now;
            License.expires_at := datetime_now + microseconds_per_day * duration_days;
            License.created_by := created_by; License.is_active := true |}
  /\ (0 <= datetime_now + microseconds_per_day * duration_days <= datetime_max)%Z
  /\ exists s2,
       delete_license s1 None license_id user_id = (true, s2)
       /\ pool (fs s2) p = pool (fs s) p
       /\ licenses (db s2) = licenses (db s)
       /\ users (db s2) = users (db s)
       /\ transactions (db s2) = transactions (db s).
Proof.
  destruct (pool (fs s) p) as [|k ks] eqn:Hpool.
  { rewrite (create_license_empty_pool s fault now datetime_now _ p _ _ _ _ Hpool)
      in Hissue.
    discriminate. }
  assert (Hwf : well_formed_key k = true)
    by (apply (pool_well_formed (fs s) p); rewrite Hpool; now left).
  assert (Hcfg : exists cfg, dict_get KEYS_CONFIG p = Some cfg).
  { unfold pool in Hpool. destruct (dict_get KEYS_CONFIG p); [eauto | discriminate]. }
  destruct Hcfg as [cfg Hcfg].
  destruct (create_license_cases s fault now datetime_now user_id p duration_days
              created_by hwid_limit product_name k ks Hpool)
    as (fs1 & Htake & Hks & [(Hsel & Hexp & _ & Hrun) | Hrun]);
    rewrite Hrun in Hissue; [|discriminate].
  injection Hissue as <- <-. cbn [db fs].
  set (row := license_row now k user_id p product_name hwid_limit
                (datetime_now + microseconds_per_day * duration_days) created_by).
  pose proof (select_license_None k (db s) Hsel) as Hother.
  assert (Hof : select_license_of k user_id
                  (set_licenses (fun ls => ls ++ [row])%list (db s)) = Some row).
  { unfold select_license_of, set_licenses. cbn [licenses].
    rewrite find_app_None.
    - cbn. now rewrite String.eqb_refl, Z.eqb_refl.
    - destruct (find _ (licenses (db s))) as [x|] eqn:Hx; [|reflexivity].
      apply find_some in Hx as [Hin Hx]. apply andb_true_iff in Hx as [Hx _].
      apply String.eqb_eq in Hx. apply list_elem_of_In in Hin.
      now destruct (Hother x Hin). }
  split; [|split].
  - rewrite get_license_by_id_no_fault. unfold select_license, set_licenses in *.
    cbn [licenses]. rewrite (find_app_None _ _ _ Hsel). cbn.
    now rewrite String.eqb_refl.
  - revert Hexp. unfold expiry.
    destruct (Z.abs _ <=? 999999999)%Z; [|discriminate]. cbv zeta.
    destruct (0 <=? _)%Z eqn:H0; [|discriminate].
    destruct (_ <=? datetime_max)%Z eqn:H1; [|discriminate].
    intros _. apply Z.leb_le in H0, H1. lia.
  - eexists. split; [apply (delete_license_no_fault _ _ _ row); exact Hof|].
    cbn [fs db]. change (License.product_type row) with p.
    destruct (return_key_absent fs1 p cfg k Hcfg) as (fs2 & -> & Hpool2 & _);
      [rewrite Hks; now inversion Hnodup | exact Hwf |].
    cbn [snd]. split; [now rewrite Hpool2, Hks|].
    split; [|split; reflexivity].
    unfold delete_license_row, set_licenses. cbn [licenses].
    rewrite filter_app, filter_unchanged.
    + rewrite filter_cons_False; [apply app_nil_r|]. intros Hkeep. now apply Hkeep.
    + intros x Hx [Hid _]. exact (Hother x Hx Hid).
Qed.

Lemma issue_then_delete_is_a_round_trip_witness :
  let issued := create_license sample_state None 100 150 7 "val1week" 7 7 1 None in
  NoDup (pool (fs sample_state) "val1week")
  /\ fst issued = Some "K1"
  /\ (License.expires_at <$> get_license_by_id (db (snd issued)) None "K1")
     = Some (150 + microseconds_per_day * 7)%Z
  /\ exists s2,
       delete_license (snd issued) None "K1" 7 = (true, s2)
       /\ pool (fs s2) "val1week" = pool (fs sample_state) "val1week"
       /\ licenses (db s2) = licenses (db sample_state).
Proof.
  intros issued.
  assert (Hnodup : NoDup (pool (fs sample_state) "val1week")).
  { apply (bool_decide_unpack _). vm_compute. exact I. }
  assert (Hissue : issued = (Some "K1", snd issued)) by (vm_compute; reflexivity).
  destruct (issue_then_delete_is_a_round_trip _ _ _ _ _ _ _ _ _ _ _ _ Hissue Hnodup)
    as (Hrow & _ & s2 & Hdel & Hpool & Hlic & _).
  split; [exact Hnodup|]. split; [now rewrite Hissue|].
  split; [now rewrite Hrow|].
  exists s2. auto.
Defined.

(* ------------------------------------------------------------------ *)
(** ** Statistics *)

Lemma get_bot_statistics_cases d fault now month_start :
  get_bot_statistics d fault now month_start = get_bot_statistics d None now month_start
  \/ get_bot_statistics d fault now month_start = None.
Proof.
  unfold get_bot_statistics.
  destruct fault as [[|[|[|[|[|[|[|[|[|n]]]]]]]]]|]; run_sql; auto.
Qed.

Lemma count_where_bounds {A} (P : A -> Prop) `{forall x, Decision (P x)} (l : list A) :
  (0 <= count_where P l <= count_where (fun _ => True) l)%Z.
Proof.
  unfold count_where. pose proof (length_filter P l) as Hle.
  rewrite (filter_unchanged (fun _ => True) l) by auto. lia.
Qed.

Lemma sum_abs_amount_nonneg l : (0 <= sum_abs_amount l)%Q.
Proof.
  induction l as [|t l IH]; [apply Qle_refl|]. cbn [sum_abs_amount fold_right].
  change (0 <= Qabs (Transaction.amount t) + sum_abs_amount l)%Q.
  rewrite <- (Qplus_0_r 0). apply Qplus_le_compat; [apply Qabs_nonneg | exact IH].
Qed.

Lemma sum_abs_amount_cons t l :
  sum_abs_amount (t :: l) = (Qabs (Transaction.amount t) + sum_abs_amount l)%Q.
Proof. reflexivity. Qed.

Lemma sum_abs_amount_filter_le (P Q : Transaction.row -> Prop)
    `{forall x, Decision (P x)} `{forall x, Decision (Q x)} l :
  (forall x, Q x -> P x) ->
  (sum_abs_amount (filter Q l) <= sum_abs_amount (filter P l))%Q.
Proof.
  intros HQP. induction l as [|t l IH]; [apply Qle_refl|].
  rewrite !filter_cons.
  destruct (decide (Q t)) as [Hq|Hq].
  - rewrite decide_True by auto. rewrite !sum_abs_amount_cons.
    apply Qplus_le_compat; [apply Qle_refl | exact IH].
  - destruct (decide (P t)); [|exact IH]. rewrite sum_abs_amount_cons.
    rewrite <- (Qplus_0_l (sum_abs_amount (filter Q l))).
    apply Qplus_le_compat; [apply Qabs_nonneg | exact IH].
Qed.

Lemma sum_abs_amount_snoc l t :
  (sum_abs_amount (l ++ [t]) == sum_abs_amount l + Qabs (Transaction.amount t))%Q.
Proof.
  induction l as [|a l IH].
  - cbn. ring.
  - change ((a :: l) ++ [t])%list with (a :: (l ++ [t]))%list.
    rewrite !sum_abs_amount_cons, IH. ring.
Qed.

(** X19. The figures of [get_bot_statistics] are consistent.  A database
    error gives the empty dict; otherwise the users and licenses counted are
    all the rows of their tables, resellers are at most the users, licenses
    that have not expired and licenses of the month are at most the
    licenses, and the revenue of the month is at most the total revenue;
    none of the figures is negative. *)
Theorem statistics_are_consistent d fault now month_start :
  match get_bot_statistics d fault now month_start with
  | None => fault <> None
  | Some stats =>
      Statistics.total_users stats = Z.of_nat (length (users d))
      /\ Statistics.total_licenses stats = Z.of_nat (length (licenses d))
      /\ (0 <= Statistics.total_resellers stats <= Statistics.total_users stats)%Z
      /\ (0 <= Statistics.active_licenses stats <= Statistics.total_licenses stats)%Z
      /\ (0 <= Statistics.monthly_licenses stats <= Statistics.total_licenses stats)%Z
      /\ (0 <= Statistics.monthly_revenue stats)%Q
      /\ (Statistics.monthly_revenue stats <= Statistics.total_revenue stats)%Q
  end.
Proof.
  assert (Hstats : match get_bot_statistics d None now month_start with
                   | None => False
                   | Some stats =>
      Statistics.total_users stats = Z.of_nat (length (users d))
      /\ Statistics.total_licenses stats = Z.of_nat (length (licenses d))
      /\ (0 <= Statistics.total_resellers stats <= Statistics.total_users stats)%Z
      /\ (0 <= Statistics.active_licenses stats <= Statistics.total_licenses stats)%Z
      /\ (0 <= Statistics.monthly_licenses stats <= Statistics.total_licenses stats)%Z
      /\ (0 <= Statistics.monthly_revenue stats)%Q
      /\ (Statistics.monthly_revenue stats <= Statistics.total_revenue stats)%Q
                   end).
  { unfold get_bot_statistics. run_sql. cbn [Statistics.total_users
      Statistics.total_licenses Statistics.total_resellers Statistics.active_licenses
      Statistics.monthly_licenses Statistics.monthly_revenue Statistics.total_revenue].
    split; [unfold count_where; now rewrite filter_unchanged by auto|].
    split; [unfold count_where; now rewrite filter_unchanged by auto|].
    split; [apply count_where_bounds|].
    split; [apply count_where_bounds|].
    split; [apply count_where_bounds|].
    split; [apply sum_abs_amount_nonneg|].
    apply sum_abs_amount_filter_le. tauto. }
  destruct fault as [n|].
  - destruct (get_bot_statistics_cases d (Some n) now month_start) as [-> | ->];
      [|discriminate].
    destruct (get_bot_statistics d None now month_start); [exact Hstats | discriminate].
  - destruct (get_bot_statistics d None now month_start); [exact Hstats | contradiction].
Qed.

Lemma count_where_map {A} (P : A -> Prop) `{forall x, Decision (P x)} (f : A -> A)
    (l : list A) :
  (forall x, P (f x) <-> P x) -> count_where P (map f l) = count_where P l.
Proof.
  intros Hf. unfold count_where. f_equal.
  induction l as [|a l IH]; [reflexivity|]. cbn [map]. rewrite !filter_cons.
  destruct (decide (P a)) as [Ha|Ha].
  - rewrite decide_True by now apply Hf. cbn [length]. now rewrite IH.
  - rewrite decide_False by (intros Hfa; now apply Ha, Hf). exact IH.
Qed.

Lemma get_bot_statistics_no_fault d now month_start :
  get_bot_statistics d None now month_start
  = Some {| Statistics.total_users := count_where (fun _ => True) (users d);
            Statistics.total_resellers :=
              count_where (fun r => User.is_reseller r = true) (users d);
            Statistics.active_licenses :=
              count_where (fun r => (now < License.expires_at r)%Z) (licenses d);
            Statistics.total_licenses := count_where (fun _ => True) (licenses d);
            Statistics.monthly_licenses :=
              count_where (fun r => (month_start <= License.created_at r)%Z) (licenses d);
            Statistics.total_revenue :=
              sum_abs_amount
                (filter (fun t => Transaction.transaction_type t = "purchase")
                        (transactions d));
            Statistics.monthly_revenue :=
              sum_abs_amount
                (filter (fun t => Transaction.transaction_type t = "purchase"
                                  /\ (month_start <= Transaction.created_at t)%Z)
                        (transactions d)) |}.
Proof. reflexivity. Qed.

Lemma update_balance_users d fault now user_id amount transaction_type description :
  exists f, (forall r, User.is_reseller (f r) = User.is_reseller r)
    /\ users (snd (update_balance d fault now user_id amount transaction_type description))
       = map f (users d).
Proof.
  assert (Hsame : exists f, (forall r, User.is_reseller (f r) = User.is_reseller r)
            /\ users d = map f (users d)).
  { exists (fun r => r). split; [reflexivity|]. now rewrite map_id. }
  destruct (fits_sqlite_integer user_id) eqn:Hfits;
    [|rewrite update_balance_unbound by exact Hfits; exact Hsame].
  destruct (update_balance_cases d fault now user_id amount transaction_type description)
    as [-> | ->].
  - rewrite update_balance_no_fault by exact Hfits. cbn [snd].
    destruct (Qltb 0 amount).
    + exists (fun r => (fun r => if (User.user_id r =? user_id)%Z
                                 then add_total_earned amount r else r)
                         (if (User.user_id r =? user_id)%Z then add_balance amount r
                          else r)).
      split; [intros r; destruct (User.user_id r =? user_id)%Z eqn:E; cbn;
              rewrite ?E; reflexivity|].
      rewrite users_update_user.
      change (users (insert_transaction ?a ?b ?c ?e ?f ?g)) with (users g).
      rewrite users_update_user. now rewrite map_map.
    + exists (fun r => (fun r => if (User.user_id r =? user_id)%Z
                                 then add_total_spent (Qabs amount) r else r)
                         (if (User.user_id r =? user_id)%Z then add_balance amount r
                          else r)).
      split; [intros r; destruct (User.user_id r =? user_id)%Z eqn:E; cbn;
              rewrite ?E; reflexivity|].
      rewrite users_update_user.
      change (users (insert_transaction ?a ?b ?c ?e ?f ?g)) with (users g).
      rewrite users_update_user. now rewrite map_map.
  - exact Hsame.
Qed.

(** X20. Only purchases count as revenue.  After an [update_balance] the
    total revenue of [get_bot_statistics] is what it was when the call
    returned [False] or the transaction type is not ["purchase"]; when the
    call returned [True] with the type ["purchase"], the purchases summed
    are those summed before followed by the transaction of the call, and the
    total revenue has not gone down.  The counts of users, resellers and
    licenses do not move. *)
Theorem revenue_counts_purchases_only d fault now user_id amount transaction_type
    description clock month_start stats stats'
    (Hbefore : get_bot_statistics d None clock month_start = Some stats)
    (Hafter : get_bot_statistics
                (snd (update_balance d fault now user_id amount transaction_type
                        description)) None clock month_start = Some stats') :
  let '(ok, d') :=
    update_balance d fault now user_id amount transaction_type description in
  let purchases d := filter (fun t => Transaction.transaction_type t = "purchase")
                            (transactions d) in
  (if ok && bool_decide (transaction_type = "purchase")
   then purchases d'
        = (purchases d
           ++ [transaction_row (transactions d) now user_id amount transaction_type
                 description])%list
        /\ (Statistics.total_revenue stats <= Statistics.total_revenue stats')%Q
   else purchases d' = purchases d
        /\ Statistics.total_revenue stats' = Statistics.total_revenue stats)
  /\ Statistics.total_users stats' = Statistics.total_users stats
  /\ Statistics.total_resellers stats' = Statistics.total_resellers stats
  /\ Statistics.total_licenses stats' = Statistics.total_licenses stats
  /\ Statistics.active_licenses stats' = Statistics.active_licenses stats
  /\ Statistics.monthly_licenses stats' = Statistics.monthly_licenses stats.
Proof.
  rewrite get_bot_statistics_no_fault in Hbefore, Hafter.
  injection Hbefore as <-. injection Hafter as <-.
  destruct (update_balance_users d fault now user_id amount transaction_type description)
    as (f & Hf & Hu).
  destruct (update_balance_other_tables d fault now user_id amount transaction_type
              description) as [Hl _].
  destruct (update_balance d fault now user_id amount transaction_type description)
    as [ok d'] eqn:Hrun.
  cbn [snd] in *.
  cbn [Statistics.total_users Statistics.total_licenses Statistics.total_resellers
       Statistics.active_licenses Statistics.monthly_licenses
       Statistics.monthly_revenue Statistics.total_revenue].
  rewrite Hu, Hl.
  split; [|split; [|split; [|repeat split]]].
  - destruct ok.
    + apply update_balance_true in Hrun as [Hfits Hrun].
      pose proof (update_balance_log d now user_id amount transaction_type description
                    Hfits) as Hlog.
      rewrite Hrun in Hlog. cbn [snd] in Hlog. rewrite Hlog. cbn [andb].
      rewrite filter_app, filter_cons, filter_nil.
      destruct (decide _) as [Hty|Hty]; cbn [Transaction.transaction_type transaction_row]
        in Hty.
      * rewrite bool_decide_eq_true_2 by exact Hty. split; [reflexivity|].
        rewrite sum_abs_amount_snoc. apply Qle_plus_nonneg, Qabs_nonneg.
      * rewrite bool_decide_eq_false_2 by exact Hty. rewrite app_nil_r.
        split; reflexivity.
    + apply update_balance_false in Hrun. subst d'. cbn [andb]. split; reflexivity.
  - apply count_where_map. tauto.
  - apply count_where_map. intros x. now rewrite Hf.
Qed.

Lemma revenue_counts_purchases_only_witness :
  exists stats stats',
    get_bot_statistics sample_db None 200 0 = Some stats
    /\ get_bot_statistics (snd (update_balance sample_db None 100 7 (-80) "purchase" None))
         None 200 0 = Some stats'
    /\ (Statistics.total_revenue stats <= Statistics.total_revenue stats')%Q
    /\ Statistics.total_users stats' = Statistics.total_users stats.
Proof.
  eexists. eexists. split; [reflexivity|]. split; [reflexivity|].
  pose proof (revenue_counts_purchases_only sample_db None 100 7 (-80) "purchase" None
                200 0 _ _ eq_refl eq_refl) as H.
  assert (Hrun : update_balance sample_db None 100 7 (-80) "purchase" None
                 = (true, snd (update_balance sample_db None 100 7 (-80) "purchase" None)))
    by (vm_compute; reflexivity).
  rewrite Hrun in H. destruct H as [[_ Hrev] [Husers _]].
  exact (conj Hrev Husers).
Defined.

(* ------------------------------------------------------------------ *)
(** ** The modals of the admin panel *)

Section ModalProperties.

Variable int_of_str : string -> option Z.
Variable float_of_str : string -> option float_value.
Variable str_of_float : Q -> string.
Variable cached_display_name : Z -> option string.

(** X21. The balance modal moves a balance one way.  For a user who has a
    row and an amount typed that is a number, a successful operation uses
    the absolute value of the number typed, negated when the modal was
    opened with ["remove"], whatever the sign typed and without looking at
    the balance: the balance does not go up for ["remove"] and does not go
    down otherwise, and one transaction of that user is recorded with this
    amount, of type ["admin_add"] when the amount is above zero and
    ["admin_remove"] otherwise.  A failed operation leaves the balance, the
    transactions and the audit log as they were; an amount typed as [nan]
    always fails.  Only an infinite amount has an outcome that is not
    described here. *)
Theorem balance_modal_moves_the_balance_one_way d operation_type user_id_value
    amount_value reason_value interaction_user_id faults update_balance_fault log_fault
    clocks update_balance_now log_now user_id typed r
    (Huser : int_of_str user_id_value = Some user_id)
    (Hamount : float_of_str amount_value = Some typed)
    (Hr : select_user user_id d = Some r) :
  match
    BalanceModal_on_submit int_of_str float_of_str str_of_float cached_display_name d
      operation_type user_id_value amount_value reason_value interaction_user_id faults
      update_balance_fault log_fault clocks update_balance_now log_now
  with
  | None => exists negative, typed = Infinite negative
  | Some (reply, d') =>
      exists r', select_user user_id d' = Some r'
        /\ match reply with
           | Balance_Operation_Successful amount =>
               (exists q, typed = Finite q
                  /\ amount = (if String.eqb operation_type "remove" then - Qabs q
                               else Qabs q)%Q)
               /\ fits_sqlite_integer user_id = true
               /\ (if String.eqb operation_type "remove"
                   then User.balance r' <= User.balance r
                   else User.balance r <= User.balance r')%Q
               /\ exists t,
                    transactions d' = (transactions d ++ [t])%list
                    /\ Transaction.user_id t = user_id
                    /\ Transaction.amount t = amount
                    /\ Transaction.transaction_type t
                       = (if Qltb 0 amount then "admin_add" else "admin_remove")
                    /\ Transaction.created_at t = update_balance_now
           | _ =>
               User.balance r' = User.balance r
               /\ transactions d' = transactions d
               /\ admin_logs d' = admin_logs d
           end
  end.
Proof.
  unfold BalanceModal_on_submit. rewrite Huser, Hamount.
  destruct (ensure_user_exists_tables d faults clocks user_id
              (modal_username cached_display_name user_id)) as (_ & Ht & Ha).
  destruct (ensure_user_exists_row d faults clocks user_id
              (modal_username cached_display_name user_id) user_id r Hr)
    as (r1 & Hr1 & _ & Hb1 & _).
  set (d1 := ensure_user_exists d faults clocks user_id
               (modal_username cached_display_name user_id)) in *.
  destruct typed as [q|negative|]; [|eauto|exists r1; auto].
  set (amount := (if String.eqb operation_type "remove" then - Qabs q
                  else Qabs q)%Q).
  match goal with
  | |- context [update_balance d1 ?f ?n ?u ?a ?t ?e] =>
      pose proof (update_balance_log d1 n u a t e) as Hlog;
      pose proof (fun H => update_balance_row d1 n u a t e r1 H Hr1) as Hrow;
      destruct (update_balance d1 f n u a t e) as [[|] d2] eqn:Hpay
  end.
  2:{ apply update_balance_false in Hpay. subst d2. exists r1. auto. }
  apply update_balance_true in Hpay as [Hfits Hpay].
  specialize (Hlog Hfits). specialize (Hrow Hfits).
  rewrite Hpay in Hlog, Hrow. cbn [snd] in Hlog, Hrow.
  match goal with
  | |- context [log_admin_action d2 ?f ?n ?a ?b ?c ?e ?g] =>
      destruct (log_admin_action_cases d2 f n a b c e g) as [-> | ->]
  end.
  all: eexists; (split; [exact Hrow|]); split; [exists q; split; reflexivity|].
  all: split; [exact Hfits|].
  all: assert (Hbal : User.balance
                        (if Qltb 0 amount
                         then add_total_earned amount (add_balance amount r1)
                         else add_total_spent (Qabs amount) (add_balance amount r1))
                      = (User.balance r + amount)%Q)
         by (destruct (Qltb 0 amount); cbn; now rewrite Hb1).
  all: assert (Hsign : if String.eqb operation_type "remove"
                       then (amount <= 0)%Q else (0 <= amount)%Q)
         by (unfold amount; destruct (String.eqb operation_type "remove");
             [change 0%Q with (- 0)%Q; apply Qopp_le_compat|]; apply Qabs_nonneg).
  all: split;
       [rewrite Hbal; destruct (String.eqb operation_type "remove");
        [now apply Qle_plus_nonpos | now apply Qle_plus_nonneg]|].
  all: eexists;
       change (transactions (insert_admin_log ?a ?b ?c ?e ?f ?g ?h))
         with (transactions h);
       rewrite Hlog, Ht; split; [reflexivity|repeat split].
Qed.

End ModalProperties.

Lemma balance_modal_moves_the_balance_one_way_witness :
  let run := BalanceModal_on_submit (fun _ => Some 7%Z) (fun _ => Some (Finite 10))
               (fun _ => EmptyString) (fun _ => None) sample_db "remove" "7" "10"
               EmptyString 1091441605430493185 no_faults None None (ensure_at 100)
               101 102 in
  select_user 7 sample_db = Some sample_reseller
  /\ exists d',
       run = Some (Balance_Operation_Successful (- Qabs 10), d')
       /\ exists r', select_user 7 d' = Some r'
            /\ (User.balance r' <= User.balance sample_reseller)%Q.
Proof.
  intros run.
  pose proof (balance_modal_moves_the_balance_one_way (fun _ => Some 7%Z)
                (fun _ => Some (Finite 10)) (fun _ => EmptyString) (fun _ => None)
                sample_db "remove" "7" "10" EmptyString 1091441605430493185 no_faults
                None None (ensure_at 100) 101 102 7 (Finite 10) sample_reseller
                eq_refl eq_refl eq_refl) as H.
  fold run in H.
  destruct run as [[reply d']|] eqn:Hrun; [|vm_compute in Hrun; discriminate].
  assert (Hreply : reply = Balance_Operation_Successful (- Qabs 10))
    by (vm_compute in Hrun; now injection Hrun as <- _).
  subst reply. destruct H as (r' & Hr' & _ & _ & Hle & _).
  split; [reflexivity|]. exists d'. split; [reflexivity|].
  exists r'. split; [exact Hr' | exact Hle].
Defined.

Section LicenseModal.

Variable int_of_str : string -> option Z.
Variable str_of_int : Z -> string.
Variable cached_display_name : Z -> option string.

(** X22. A license created from the admin panel is free.  Whatever the
    modal replies, it writes no transaction and every user keeps balance and
    totals.  When it replies "License Created", the user id typed is a
    number that fits the database, the product is the one configured under
    the lower-cased product type, the duration is the number typed or, for
    an empty field, the duration of the product, the license id is the key
    that was at the head of the pool and the pool is now its tail, and the
    table gained exactly that license for that user, created at the clock
    reading of the [INSERT] and expiring that many days after the reading
    of Python's clock, a date within the range of [datetime].  "License
    Creation Failed" leaves the table of licenses as it was, and the other
    replies change nothing at all. *)
Theorem admin_license_is_free s user_id_value product_type_value duration_value
    interaction_user_id faults create_license_fault log_fault clocks create_license_now
    datetime_now log_now :
  let '(reply, s') :=
    LicenseCreateModal_on_submit int_of_str str_of_int cached_display_name
      s user_id_value product_type_value duration_value
      interaction_user_id faults create_license_fault log_fault clocks create_license_now
      datetime_now log_now in
  transactions (db s') = transactions (db s)
  /\ (forall w r, select_user w (db s) = Some r ->
        exists r', select_user w (db s') = Some r'
          /\ User.balance r' = User.balance r
          /\ User.total_spent r' = User.total_spent r
          /\ User.total_earned r' = User.total_earned r)
  /\ match reply with
     | License_Created license_id duration_days =>
         exists user_id product ks,
           int_of_str user_id_value = Some user_id
           /\ fits_sqlite_integer user_id = true
           /\ dict_get PRODUCTS (lower product_type_value) = Some product
           /\ Some duration_days
              = (if truthy (strip duration_value) then int_of_str duration_value
                 else Some (duration product))
           /\ (0 <= datetime_now + microseconds_per_day * duration_days
               <= datetime_max)%Z
           /\ pool (fs s) (lower product_type_value) = license_id :: ks
           /\ pool (fs s') (lower product_type_value) = ks
           /\ licenses (db s')
              = (licenses (db s)
                 ++ [license_row create_license_now license_id user_id
                       (lower product_type_value) (Some (name product)) 1
                       (datetime_now + microseconds_per_day * duration_days)
                       interaction_user_id])%list
     | License_Creation_Failed => licenses (db s') = licenses (db s)
     | _ => s' = s
     end.
Proof.
  unfold LicenseCreateModal_on_submit.
  assert (Hsame : forall w r, select_user w (db s) = Some r ->
            exists r', select_user w (db s) = Some r'
              /\ User.balance r' = User.balance r
              /\ User.total_spent r' = User.total_spent r
              /\ User.total_earned r' = User.total_earned r) by eauto.
  destruct (int_of_str user_id_value) as [user_id|] eqn:Huser; [|auto].
  set (p := lower product_type_value).
  destruct (dict_get PRODUCTS p) as [product|] eqn:Hproduct; [|auto].
  destruct (if truthy (strip duration_value) then int_of_str duration_value
            else Some (duration product)) as [duration_days|] eqn:Hduration; [|auto].
  clear Hsame.
  destruct (ensure_user_exists_tables (db s) faults clocks user_id
              (modal_username cached_display_name user_id)) as (Hl & Ht & _).
  pose proof (fun w r => ensure_user_exists_row (db s) faults clocks
                user_id (modal_username cached_display_name user_id) w r) as Hrows.
  set (d1 := ensure_user_exists (db s) faults clocks user_id
               (modal_username cached_display_name user_id)) in *.
  assert (Hkeep : forall w r, select_user w (db s) = Some r ->
            exists r', select_user w d1 = Some r'
              /\ User.balance r' = User.balance r
              /\ User.total_spent r' = User.total_spent r
              /\ User.total_earned r' = User.total_earned r).
  { intros w r Hr. destruct (Hrows w r Hr) as (r' & Hr' & _ & Hb & Hs & He & _). eauto. }
  clear Hrows.
  set (s1 := {| fs := fs s; db := d1 |}).
  destruct (pool (fs s1) p) as [|k ks] eqn:Hpool.
  { rewrite (create_license_empty_pool s1 create_license_fault create_license_now
               datetime_now _ p _ _ _ _ Hpool).
    cbn [db s1]. auto. }
  destruct (create_license_cases s1 create_license_fault create_license_now datetime_now
              user_id p duration_days interaction_user_id 1 (Some (name product)) k ks
              Hpool)
    as (fs1 & Htake & Hks & [(Hsel & Hexp & Hfits & Hrun) | Hrun]); rewrite Hrun.
  2:{ cbn [db s1]. auto. }
  assert (Hk : truthy k = true).
  { assert (Hwf : well_formed_key k = true)
      by (apply (pool_well_formed (fs s1) p); rewrite Hpool; now left).
    apply well_formed_key_spec in Hwf as [Hne _]. destruct k; [congruence | reflexivity]. }
  rewrite Hk. cbn [negb db fs]. change (db s1) with d1 in *.
  apply expiry_Some in Hexp as (_ & Hrange & _).
  assert (Hfu : fits_sqlite_integer user_id = true).
  { apply andb_true_iff in Hfits as [Hfits _].
    now apply andb_true_iff in Hfits as [Hfits _]. }
  match goal with
  | |- context [log_admin_action ?d0 ?f ?n ?a ?b ?c ?e ?g] =>
      destruct (log_admin_action_cases d0 f n a b c e g) as [-> | ->]
  end.
  all: cbn [db fs]; split; [exact Ht|]; split; [exact Hkeep|].
  all: exists user_id, product, ks.
  all: repeat (split; [reflexivity || assumption|]).
  all: cbn [licenses insert_admin_log set_admin_logs set_licenses]; now rewrite Hl.
Qed.

End LicenseModal.

(** Every row is still there after [ensure_user_exists], with its reseller
    code. *)
Lemma ensure_user_exists_codes d faults clocks user_id username u :
  u ∈ users d ->
  exists u', u' ∈ users (ensure_user_exists d faults clocks user_id username)
    /\ User.reseller_code u' = User.reseller_code u.
Proof.
  intros Hu. unfold ensure_user_exists.
  assert (Hins : u ∈ users (insert_or_ignore_user (create_user_now clocks) user_id
                             username d)).
  { unfold insert_or_ignore_user. destruct (select_user user_id d); [exact Hu|].
    cbn [users set_users]. apply elem_of_app. now left. }
  destruct (create_user_cases d (create_user_fault faults) (create_user_now clocks)
              user_id username)
    as [-> | ->];
  match goal with
  | |- context [update_user_activity ?d0 ?f ?n ?x] =>
      destruct (update_user_activity_cases d0 f n x) as [-> | ->]
  end;
  try (exists u; split; [assumption | reflexivity]).
  all: eexists; split;
    [rewrite users_update_user; apply list_elem_of_fmap; eexists; split;
     [reflexivity | eassumption]|].
  all: cbv beta; destruct (User.user_id u =? user_id)%Z; reflexivity.
Qed.

(** [make_reseller] succeeds only for a [user_id] that SQLite can bind. *)
Lemma make_reseller_fits d fault rng attempts user_id commission_rate code d' :
  make_reseller d fault rng attempts user_id commission_rate = Some ((true, code), d') ->
  fits_sqlite_integer user_id = true.
Proof.
  unfold make_reseller, connect.
  destruct fault as [[|n]|]; [discriminate| |].
  all: unfold sql_bind at 1.
  all: destruct (unique_reseller_code rng attempts 0 _) as [[[c|]|] c1];
       try discriminate.
  all: unfold sql_bind, execute, binding.
  all: destruct (fits_sqlite_integer user_id); [reflexivity|].
  all: destruct (calls_left c1) as [[|?]|]; discriminate.
Qed.

Section ResellerModal.

Variable int_of_str : string -> option Z.
Variable float_of_str : string -> option float_value.
Variable format_percent : Q -> string.
Variable cached_display_name : Z -> option string.
Variable float_div : Q -> Q -> Q.
Variable float_mul : Q -> Q -> Q.
Variable float_lt : Q -> Q -> bool.

(** X23. What the reseller modal grants, for a rate typed that is a number
    or an infinity.  Whatever it replies, it writes no license and no
    transaction and every user keeps the balance.  When it replies "Reseller
    Created", the user id typed is a number that fits the database, the rate
    typed is a number, the commission is what Python's [rate / 100] gives
    for it, both tests [commission < 0] and [commission > 1] were false, the
    code shown is [RSL] and eight more characters that no user held before,
    afterwards only that user holds it, and a user who had a row is now a
    reseller with this commission and this code.  Under every other reply
    each user is a reseller exactly as before, with the commission and the
    code as before; an infinite rate is answered with "Invalid
    Commission". *)
Theorem reseller_modal_grants d user_id_value commission_rate_value interaction_user_id
    faults make_reseller_fault log_fault rng attempts clocks log_now reply d'
    (Hrun : ResellerCreateModal_on_submit int_of_str float_of_str format_percent
              cached_display_name float_div float_mul float_lt d user_id_value
              commission_rate_value interaction_user_id faults make_reseller_fault
              log_fault rng attempts clocks log_now
            = Some (reply, d')) :
  licenses d' = licenses d
  /\ transactions d' = transactions d
  /\ (forall w r, select_user w d = Some r ->
        exists r', select_user w d' = Some r' /\ User.balance r' = User.balance r)
  /\ (forall user_id negative,
        int_of_str user_id_value = Some user_id ->
        float_of_str commission_rate_value = Some (Infinite negative) ->
        reply = Invalid_Commission)
  /\ match reply with
     | Reseller_Created commission reseller_code =>
         exists user_id rate code,
           int_of_str user_id_value = Some user_id
           /\ fits_sqlite_integer user_id = true
           /\ float_of_str commission_rate_value = Some (Finite rate)
           /\ commission = float_div rate 100
           /\ float_lt commission 0 = false /\ float_lt 1 commission = false
           /\ reseller_code = Some code
           /\ String.length code = 11%nat
           /\ String.prefix "RSL" code = true
           /\ (forall u, u ∈ users d -> User.reseller_code u <> Some code)
           /\ (forall u, u ∈ users d' -> User.reseller_code u = Some code ->
                 User.user_id u = user_id)
           /\ (forall r, select_user user_id d = Some r ->
                 exists r', select_user user_id d' = Some r'
                   /\ User.is_reseller r' = true
                   /\ User.commission_rate r' = commission
                   /\ User.reseller_code r' = Some code)
     | _ =>
         forall w r, select_user w d = Some r ->
           exists r', select_user w d' = Some r'
             /\ User.is_reseller r' = User.is_reseller r
             /\ User.commission_rate r' = User.commission_rate r
             /\ User.reseller_code r' = User.reseller_code r
     end.
Proof.
  revert Hrun. unfold ResellerCreateModal_on_submit.
  assert (Hsame : forall w r, select_user w d = Some r ->
            exists r', select_user w d = Some r'
              /\ User.balance r' = User.balance r) by eauto.
  assert (Hsame' : forall w r, select_user w d = Some r ->
            exists r', select_user w d = Some r'
              /\ User.is_reseller r' = User.is_reseller r
              /\ User.commission_rate r' = User.commission_rate r
              /\ User.reseller_code r' = User.reseller_code r) by eauto.
  destruct (int_of_str user_id_value) as [user_id|] eqn:Huser;
    [|intros [= <- <-]; repeat (split; [auto; discriminate|]); auto].
  destruct (float_of_str commission_rate_value) as [[rate|negative|]|] eqn:Hrate;
    [|intros [= <- <-]; repeat (split; [auto|]); auto
     |discriminate
     |intros [= <- <-]; repeat (split; [auto; discriminate|]); auto].
  set (commission := float_div rate 100).
  destruct (float_lt commission 0) eqn:Hlow;
    [intros [= <- <-]; repeat (split; [auto; discriminate|]); auto|].
  destruct (float_lt 1 commission) eqn:Hhigh;
    [intros [= <- <-]; repeat (split; [auto; discriminate|]); auto|].
  cbn [orb]. clear Hsame Hsame'.
  destruct (ensure_user_exists_tables d faults clocks user_id
              (modal_username cached_display_name user_id)) as (Hl & Ht & _).
  pose proof (fun w r => ensure_user_exists_row d faults clocks
                user_id (modal_username cached_display_name user_id) w r) as Hrows.
  pose proof (fun u => ensure_user_exists_codes d faults clocks
                user_id (modal_username cached_display_name user_id) u) as Hcodes.
  set (d1 := ensure_user_exists d faults clocks user_id
               (modal_username cached_display_name user_id)) in *.
  pose proof (make_reseller_cases d1 make_reseller_fault rng attempts user_id commission)
    as Hmake.
  pose proof (make_reseller_fits d1 make_reseller_fault rng attempts user_id commission)
    as Hfits.
  destruct (make_reseller d1 make_reseller_fault rng attempts user_id commission)
    as [[[[|] code] d2]|]; [| |discriminate].
  - specialize (Hfits _ _ eq_refl).
    destruct code as [code|]; [|contradiction].
    destruct Hmake as (Hlen & Hpre & _ & Hfresh & -> & Hown).
    assert (Hgoal : forall d3,
              licenses d3 = licenses d1 -> transactions d3 = transactions d1 ->
              users d3 = users (update_user user_id (set_reseller commission code) d1) ->
              Some (Reseller_Created commission (Some code), d3) = Some (reply, d') ->
              licenses d' = licenses d
              /\ transactions d' = transactions d
              /\ (forall w r, select_user w d = Some r ->
                    exists r', select_user w d' = Some r'
                      /\ User.balance r' = User.balance r)
              /\ (forall user_id0 negative,
                    Some user_id = Some user_id0 ->
                    Some (Finite rate) = Some (Infinite negative) ->
                    reply = Invalid_Commission)
              /\ match reply with
                 | Reseller_Created commission0 reseller_code =>
                     exists user_id0 rate0 code0,
                       Some user_id = Some user_id0
                       /\ fits_sqlite_integer user_id0 = true
                       /\ Some (Finite rate) = Some (Finite rate0)
                       /\ commission0 = float_div rate0 100
                       /\ float_lt commission0 0 = false
                       /\ float_lt 1 commission0 = false
                       /\ reseller_code = Some code0
                       /\ String.length code0 = 11%nat
                       /\ String.prefix "RSL" code0 = true
                       /\ (forall u, u ∈ users d -> User.reseller_code u <> Some code0)
                       /\ (forall u, u ∈ users d' ->
                             User.reseller_code u = Some code0 ->
                             User.user_id u = user_id0)
                       /\ (forall r, select_user user_id0 d = Some r ->
                             exists r', select_user user_id0 d' = Some r'
                               /\ User.is_reseller r' = true
                               /\ User.commission_rate r' = commission0
                               /\ User.reseller_code r' = Some code0)
                 | _ =>
                     forall w r, select_user w d = Some r ->
                       exists r', select_user w d' = Some r'
                         /\ User.is_reseller r' = User.is_reseller r
                         /\ User.commission_rate r' = User.commission_rate r
                         /\ User.reseller_code r' = User.reseller_code r
                 end).
    { intros d3 Hl3 Ht3 Hu3 [= <- <-].
      assert (Hsel : forall w, select_user w d3
                = select_user w (update_user user_id (set_reseller commission code) d1))
        by (intros w; unfold select_user; now rewrite Hu3).
      split; [now rewrite Hl3|]. split; [now rewrite Ht3|]. split.
      { intros w r Hr. destruct (Hrows w r Hr) as (r1 & Hr1 & _ & Hb1 & _).
        rewrite Hsel.
        rewrite (select_user_update_user_row w user_id _ d1 r1) by (reflexivity || exact Hr1).
        eexists. split; [reflexivity|]. now destruct (w =? user_id)%Z. }
      split; [discriminate|].
      exists user_id, rate, code.
      repeat (split; [reflexivity || assumption|]).
      split.
      { intros u Hu Hcode. destruct (Hcodes u Hu) as (u' & Hu' & Hsamecode).
        apply (Hfresh u' Hu'). congruence. }
      split.
      { intros u Hu Hcode. rewrite Hu3 in Hu. now destruct (Hown u Hu Hcode). }
      intros r Hr. destruct (Hrows user_id r Hr) as (r1 & Hr1 & _).
      rewrite Hsel.
      rewrite (select_user_update_user_row user_id user_id _ d1 r1)
        by (reflexivity || exact Hr1).
      rewrite Z.eqb_refl. eexists. split; [reflexivity|]. now repeat split. }
    match goal with
    | |- context [log_admin_action ?d0 ?f ?n ?a ?b ?c ?e ?g] =>
        destruct (log_admin_action_cases d0 f n a b c e g) as [-> | ->]
    end; apply Hgoal; reflexivity.
  - destruct Hmake as [_ ->]. intros [= <- <-].
    split; [exact Hl|]. split; [exact Ht|]. split; [|split; [discriminate|]].
    + intros w r Hr. destruct (Hrows w r Hr) as (r1 & Hr1 & _ & Hb1 & _). eauto.
    + intros w r Hr.
      destruct (Hrows w r Hr) as (r1 & Hr1 & _ & _ & _ & _ & Hres & Hcr & Hrc). eauto.
Qed.

End ResellerModal.

Lemma reseller_modal_grants_witness :
  exists code d',
    ResellerCreateModal_on_submit (fun _ => Some 7%Z) (fun _ => Some (Finite 25))
      (fun _ => EmptyString) (fun _ => None) Qdiv Qmult Qltb sample_db "7" "25"
      1091441605430493185 no_faults None None (fun _ => 0%nat) 1 (ensure_at 100) 101
    = Some (Reseller_Created (25 / 100) (Some code), d')
    /\ licenses d' = licenses sample_db
    /\ transactions d' = transactions sample_db
    /\ Qltb (25 / 100) 0 = false /\ Qltb 1 (25 / 100) = false.
Proof.
  destruct (ResellerCreateModal_on_submit (fun _ => Some 7%Z) (fun _ => Some (Finite 25))
              (fun _ => EmptyString) (fun _ => None) Qdiv Qmult Qltb sample_db "7" "25"
              1091441605430493185 no_faults None None (fun _ => 0%nat) 1 (ensure_at 100)
              101)
    as [[reply d']|] eqn:Hrun; [|vm_compute in Hrun; discriminate].
  destruct (reseller_modal_grants _ _ _ _ _ _ _ _ _ _ _ _ _ _ _ _ _ _ _ _ Hrun)
    as (Hl & Ht & _ & _ & Hreply).
  destruct reply as [commission reseller_code| | |];
    try (vm_compute in Hrun; discriminate).
  destruct Hreply as (user_id & rate & code & _ & _ & Hrate & -> & Hlow & Hhigh & -> & _).
  injection Hrate as <-.
  exists code, d'. split; [reflexivity|].
  exact (conj Hl (conj Ht (conj Hlow Hhigh))).
Defined.

(* ------------------------------------------------------------------ *)
(** ** Hardware id resets, settings and start-up *)

Ltac run_sql_on :=
  cbv [connect_on bind_on ret_on execute_on commit_on update_on query_on
       create_table_if_not_exists fmap option_fmap option_map Nat.pred
       calls_left_on work_on durable_on].

Lemma reset_hwid_cases st fault now license_id user_id reason :
  reset_hwid st fault now license_id user_id reason
  = (true, insert_hwid_reset now license_id user_id reason
             (set_tables (update_hwid_null license_id user_id) st))
  \/ reset_hwid st fault now license_id user_id reason = (false, st).
Proof. unfold reset_hwid. fault_cases fault; run_sql_on; auto. Qed.

Lemma reset_hwid_no_fault st now license_id user_id reason :
  reset_hwid st None now license_id user_id reason
  = (true, insert_hwid_reset now license_id user_id reason
             (set_tables (update_hwid_null license_id user_id) st)).
Proof. reflexivity. Qed.

Lemma get_hwid_reset_count_no_fault st since user_id :
  get_hwid_reset_count st None (Some since) user_id
  = count_where (fun r => HwidReset.user_id r = user_id
                          /\ (since <= HwidReset.created_at r)%Z) (hwid_resets st).
Proof. reflexivity. Qed.

Lemma select_license_update_hwid_null k license_id user_id d :
  select_license k (update_hwid_null license_id user_id d)
  = (fun r => if String.eqb (License.license_id r) license_id
                 && (License.user_id r =? user_id)%Z
              then clear_hwid r else r) <$> select_license k d.
Proof.
  unfold select_license, update_hwid_null, set_licenses. cbn [licenses].
  induction (licenses d) as [|a l IH]; [reflexivity|].
  cbn [map find].
  assert (E : License.license_id
                (if String.eqb (License.license_id a) license_id
                    && (License.user_id a =? user_id)%Z
                 then clear_hwid a else a) = License.license_id a)
    by (destruct (_ && _); reflexivity).
  rewrite E. destruct (String.eqb (License.license_id a) k); [reflexivity | exact IH].
Qed.

Lemma count_where_snoc {A} (P : A -> Prop) `{forall x, Decision (P x)} (l : list A) x :
  count_where P (l ++ [x])
  = (count_where P l + (if decide (P x) then 1 else 0))%Z.
Proof.
  unfold count_where. rewrite filter_app, length_app, filter_cons, filter_nil.
  destruct (decide (P x)); cbn [length]; lia.
Qed.

(** X24. [reset_hwid] records the reset.  Whatever the database error, it
    returns [True] after adding exactly one record of the reset, with the
    license, user, reason and clock reading of the call and an id above all
    the earlier ones, and clearing the hardware id of the license of that id
    and user and nothing else in the table; or it returns [False] and changes
    nothing.  The record is written even when no license matches.  After a
    successful reset [get_hwid_reset_count] is one higher for that user, for
    every period that began before the reset, and as before for any other
    user. *)
Theorem reset_hwid_records_the_reset st fault now license_id user_id reason :
  let '(ok, st') := reset_hwid st fault now license_id user_id reason in
  if ok then
    (exists record,
       hwid_resets st' = (hwid_resets st ++ [record])%list
       /\ HwidReset.license_id record = license_id
       /\ HwidReset.user_id record = user_id
       /\ HwidReset.reason record = reason
       /\ HwidReset.created_at record = now
       /\ forall e, e ∈ hwid_resets st -> (HwidReset.id e < HwidReset.id record)%Z)
    /\ (forall k,
          select_license k (tables st')
          = (fun r => if String.eqb (License.license_id r) license_id
                         && (License.user_id r =? user_id)%Z
                      then clear_hwid r else r) <$> select_license k (tables st))
    /\ length (licenses (tables st')) = length (licenses (tables st))
    /\ users (tables st') = users (tables st)
    /\ transactions (tables st') = transactions (tables st)
    /\ admin_logs (tables st') = admin_logs (tables st)
    /\ settings st' = settings st
    /\ (forall since w, (since <= now)%Z ->
          get_hwid_reset_count st' None (Some since) w
          = (get_hwid_reset_count st None (Some since) w
             + (if (w =? user_id)%Z then 1 else 0))%Z)
  else st' = st.
Proof.
  destruct (reset_hwid_cases st fault now license_id user_id reason) as [-> | ->];
    [|reflexivity].
  cbn [insert_hwid_reset set_hwid_resets set_tables hwid_resets tables settings].
  split.
  { eexists. split; [reflexivity|]. cbn. repeat (split; [reflexivity|]).
    intros e He. apply next_id_fresh. apply list_elem_of_fmap. eauto. }
  split; [intros k; apply select_license_update_hwid_null|].
  split; [unfold update_hwid_null, set_licenses; cbn [licenses]; apply length_map|].
  repeat (split; [reflexivity|]).
  intros since w Hsince. rewrite !get_hwid_reset_count_no_fault.
  cbn [insert_hwid_reset set_hwid_resets set_tables hwid_resets].
  rewrite count_where_snoc. f_equal.
  cbn [HwidReset.user_id HwidReset.created_at].
  destruct (Z.eqb_spec w user_id) as [->|Hne].
  - now rewrite decide_True by auto.
  - rewrite decide_False; [reflexivity|]. intros [Heq _]. congruence.
Qed.

(** X25. [/resethwid] knows no limit.  Whatever its reply, the command
    leaves users, transactions and settings alone.  It replies "HWID Reset"
    only to an admin and for a license that exists, after recording one
    reset for the user of that license and clearing the hardware id of the
    license; under every other reply nothing has changed.  An admin who
    names an existing license gets the reset whenever the database raises no
    error: neither the resets already recorded nor any setting is looked
    at. *)
Theorem resethwid_knows_no_limit st get_license_fault reset_fault log_fault now
    interaction_user_id license_id reason :
  let '(reply, st') :=
    resethwid st get_license_fault reset_fault log_fault now interaction_user_id
      license_id reason in
  users (tables st') = users (tables st)
  /\ transactions (tables st') = transactions (tables st)
  /\ settings st' = settings st
  /\ match reply with
     | HWID_Reset =>
         interaction_user_id ∈ ADMIN_IDS
         /\ exists row record,
              select_license license_id (tables st) = Some row
              /\ select_license license_id (tables st') = Some (clear_hwid row)
              /\ hwid_resets st' = (hwid_resets st ++ [record])%list
              /\ HwidReset.license_id record = license_id
              /\ HwidReset.user_id record = License.user_id row
              /\ HwidReset.reason record = reason
     | _ => st' = st
     end
  /\ (interaction_user_id ∈ ADMIN_IDS ->
      select_license license_id (tables st) <> None ->
      get_license_fault = None -> reset_fault = None ->
      reply = HWID_Reset).
Proof.
  unfold resethwid.
  destruct (bool_decide (interaction_user_id ∈ ADMIN_IDS)) eqn:Hadmin; cbn [negb].
  2:{ apply bool_decide_eq_false in Hadmin. repeat (split; [reflexivity|]).
      intros H. contradiction. }
  apply bool_decide_eq_true in Hadmin.
  assert (Hget : get_license_by_id (tables st) get_license_fault license_id
                 = select_license license_id (tables st)
                 \/ (get_license_by_id (tables st) get_license_fault license_id = None
                     /\ get_license_fault <> None)).
  { unfold get_license_by_id. destruct get_license_fault as [[|[|n]]|]; run_sql; auto;
      right; split; congruence. }
  destruct (get_license_by_id (tables st) get_license_fault license_id)
    as [row|] eqn:Hlicense.
  2:{ repeat (split; [reflexivity|]). intros _ Hsome Hnofault _.
      destruct Hget as [Hget | [_ Hfault]]; [now rewrite <- Hget in Hsome | contradiction]. }
  assert (Hrow : select_license license_id (tables st) = Some row)
    by (destruct Hget as [<- | [Hnone _]]; [reflexivity | discriminate]).
  assert (Hid : License.license_id row = license_id).
  { unfold select_license in Hrow. apply find_some in Hrow as [_ Hrow].
    now apply String.eqb_eq in Hrow. }
  pose proof (reset_hwid_no_fault st now license_id (License.user_id row) reason) as Hnf.
  destruct (reset_hwid_cases st reset_fault now license_id (License.user_id row) reason)
    as [Hreset | Hreset]; rewrite Hreset.
  2:{ repeat (split; [reflexivity|]). intros _ _ _ ->. rewrite Hnf in Hreset.
      discriminate. }
  match goal with
  | |- context [log_admin_action ?d0 ?f ?n ?a ?b ?c ?e ?g] =>
      destruct (log_admin_action_cases d0 f n a b c e g) as [-> | ->]
  end.
  all: cbn [set_tables insert_hwid_reset set_hwid_resets tables hwid_resets settings].
  all: repeat (split; [reflexivity|]).
  all: split; [|reflexivity].
  all: split; [exact Hadmin|].
  all: exists row; eexists.
  all: split; [exact Hrow|].
  all: split;
    [change (select_license license_id (insert_admin_log ?a ?b ?c ?e ?f ?g ?h))
       with (select_license license_id h);
     rewrite select_license_update_hwid_null, Hrow; cbn [fmap option_fmap option_map];
     now rewrite Hid, String.eqb_refl, Z.eqb_refl|].
  all: split; [reflexivity|]. all: now repeat split.
Qed.

Lemma set_setting_cases st fault now key value :
  set_setting st fault now key value
  = (true, set_settings
             (insert key {| Setting.value := value; Setting.updated_at := now |}) st)
  \/ set_setting st fault now key value = (false, st).
Proof. unfold set_setting. fault_cases fault; run_sql_on; auto. Qed.

Lemma get_setting_no_fault st key :
  get_setting st None key = Setting.value <$> settings st !! key.
Proof. reflexivity. Qed.

Lemma get_setting_cases st fault key :
  get_setting st fault key = get_setting st None key \/ get_setting st fault key = None.
Proof. unfold get_setting. fault_cases fault; run_sql_on; auto. Qed.

(** X26. A setting that is set can be read back.  Whatever the database
    error, [set_setting] returns [True] and [get_setting] then gives the new
    value for the key, or it returns [False] and changes nothing; without an
    error it returns [True].  The other keys keep their values and the other
    tables their rows.  A read that meets a database error gives [None]. *)
Theorem setting_round_trip st fault read_fault now key value :
  let '(ok, st') := set_setting st fault now key value in
  (if ok then get_setting st' None key = Some value else st' = st)
  /\ (fault = None -> ok = true)
  /\ (forall k, k <> key -> get_setting st' None k = get_setting st None k)
  /\ tables st' = tables st
  /\ hwid_resets st' = hwid_resets st
  /\ (get_setting st' read_fault key = get_setting st' None key
      \/ get_setting st' read_fault key = None).
Proof.
  assert (Hnf : fault = None -> fst (set_setting st fault now key value) = true)
    by (intros ->; reflexivity).
  destruct (set_setting_cases st fault now key value) as [Hset | Hset];
    rewrite Hset in *; cbn [fst] in Hnf.
  - split.
    { rewrite get_setting_no_fault. cbn [set_settings settings].
      now rewrite lookup_insert_eq. }
    split; [auto|]. split.
    { intros k Hk. rewrite !get_setting_no_fault. cbn [set_settings settings].
      now rewrite lookup_insert_ne by congruence. }
    repeat (split; [reflexivity|]). apply get_setting_cases.
  - split; [reflexivity|]. split; [exact Hnf|]. split; [reflexivity|].
    repeat (split; [reflexivity|]). apply get_setting_cases.
Qed.

Lemma insert_or_ignore_settings_lookup now rows (m : gmap string Setting.row) k :
  insert_or_ignore_settings now rows m !! k
  = match m !! k with
    | Some row => Some row
    | None =>
        (fun row => {| Setting.value := snd row; Setting.updated_at := now |})
          <$> find (fun row => String.eqb (fst row) k) rows
    end.
Proof.
  unfold insert_or_ignore_settings. revert m.
  induction rows as [|[k0 v0] rows IH]; intros m.
  - cbn. now destruct (m !! k).
  - cbn [fold_left fst snd]. rewrite IH. cbn [find fst].
    destruct (String.eqb_spec k0 k) as [->|Hne].
    + destruct (m !! k) as [row|] eqn:E; [now rewrite E|].
      now rewrite lookup_insert_eq.
    + assert (Hl : (match m !! k0 with
                    | Some _ => m
                    | None => <[k0 := {| Setting.value := v0;
                                         Setting.updated_at := now |}]> m
                    end) !! k = m !! k).
      { destruct (m !! k0); [reflexivity | now rewrite lookup_insert_ne]. }
      now rewrite Hl.
Qed.

Lemma ensure_key_files_pool fs p : pool (ensure_key_files fs) p = pool fs p.
Proof.
  unfold pool.
  destruct (dict_get KEYS_CONFIG p) as [cfg|] eqn:Hcfg; [|reflexivity].
  unfold ensure_key_files. rewrite ensure_key_files_lookup.
  destruct (fs !! file cfg); [reflexivity|].
  rewrite decide_True; [reflexivity | exact (dict_get_KEYS_CONFIG_file _ _ Hcfg)].
Qed.

Lemma init_db_cases fs st fault now :
  init_db fs st fault now
  = (Returned tt,
     (ensure_key_files fs,
      set_settings (insert_or_ignore_settings now default_settings) st))
  \/ init_db fs st fault now = (Raised, (fs, st)) /\ fault <> None.
Proof.
  unfold init_db.
  destruct fault as [[|[|[|[|[|[|[|[|[|n]]]]]]]]]|]; run_sql_on; auto;
    right; split; congruence.
Qed.

(** X27. Starting up loses nothing.  [init_db] leaves every table but
    [settings] as it is, keeps the value of every setting that is there, and
    keeps every pool of keys.  When it returns, each of the three default
    settings has a value, the default one if it had none, every configured
    product has its key file, and running it again changes nothing.  When it
    raises, which only a database error makes it do, nothing has changed and
    no key file has been created. *)
Theorem init_db_loses_nothing fs st fault now again :
  let '(r, (fs', st')) := init_db fs st fault now in
  tables st' = tables st
  /\ hwid_resets st' = hwid_resets st
  /\ (forall k v, get_setting st None k = Some v -> get_setting st' None k = Some v)
  /\ (forall p, pool fs' p = pool fs p)
  /\ match r with
     | Returned _ =>
         (forall k v, (k, v) ∈ default_settings ->
            exists v', get_setting st' None k = Some v'
              /\ (get_setting st None k = None -> v' = v))
         /\ (forall p cfg, dict_get KEYS_CONFIG p = Some cfg -> is_Some (fs' !! file cfg))
         /\ (forall p, pool (fst (snd (init_db fs' st' None again))) p = pool fs' p)
         /\ snd (snd (init_db fs' st' None again)) = st'
     | Raised => fs' = fs /\ st' = st /\ fault <> None
     end.
Proof.
  destruct (init_db_cases fs st fault now) as [-> | [-> Hfault]].
  2:{ repeat (split; [reflexivity|]). auto. }
  cbn [set_settings tables hwid_resets settings].
  assert (Hkeep : forall k v, get_setting st None k = Some v ->
            get_setting (set_settings (insert_or_ignore_settings now default_settings) st)
              None k = Some v).
  { intros k v. rewrite !get_setting_no_fault. cbn [set_settings settings].
    rewrite insert_or_ignore_settings_lookup.
    destruct (settings st !! k); [trivial | discriminate]. }
  split; [reflexivity|]. split; [reflexivity|]. split; [exact Hkeep|].
  split; [apply ensure_key_files_pool|].
  split; [|split; [|split]].
  - intros k v Hin. rewrite !get_setting_no_fault. cbn [set_settings settings].
    rewrite insert_or_ignore_settings_lookup.
    destruct (settings st !! k) as [row|]; cbn [fmap option_fmap option_map].
    + eexists. split; [reflexivity|]. discriminate.
    + unfold default_settings in *.
      repeat (apply elem_of_cons in Hin as [[= -> ->] | Hin];
              [cbn; eexists; split; reflexivity|]).
      inversion Hin.
  - intros p cfg Hcfg. unfold ensure_key_files. rewrite ensure_key_files_lookup.
    destruct (fs !! file cfg); [eauto|].
    rewrite decide_True; [eauto | exact (dict_get_KEYS_CONFIG_file _ _ Hcfg)].
  - intros p. destruct (init_db_cases (ensure_key_files fs)
                          (set_settings (insert_or_ignore_settings now default_settings) st)
                          None again) as [-> | [_ Habs]]; [|congruence].
    cbn [fst snd]. apply ensure_key_files_pool.
  - destruct (init_db_cases (ensure_key_files fs)
                (set_settings (insert_or_ignore_settings now default_settings) st)
                None again) as [-> | [_ Habs]]; [|congruence].
    cbn [fst snd]. unfold set_settings. cbn [tables hwid_resets settings].
    assert (Hidem : insert_or_ignore_settings again default_settings
                      (insert_or_ignore_settings now default_settings (settings st))
                    = insert_or_ignore_settings now default_settings (settings st)).
    { apply map_eq. intros k. rewrite !insert_or_ignore_settings_lookup.
      destruct (settings st !! k); [reflexivity|].
      destruct (find _ default_settings); reflexivity. }
    now rewrite Hidem.
Qed.

(* ------------------------------------------------------------------ *)
(** ** Users *)

Lemma select_user_insert_or_ignore_new now user_id username d :
  select_user user_id d = None ->
  select_user user_id (insert_or_ignore_user now user_id username d)
  = Some {| User.user_id := user_id; User.username := username;
            User.balance := 0; User.total_spent := 0; User.total_earned := 0;
            User.is_reseller := false; User.commission_rate := 0;
            User.reseller_code := None; User.created_at := now;
            User.last_activity := now |}.
Proof.
  intros Hnone. unfold insert_or_ignore_user. rewrite Hnone.
  unfold select_user in *. cbn [users set_users].
  rewrite (find_app_None _ _ _ Hnone). cbn. now rewrite Z.eqb_refl.
Qed.

(** X28. [ensure_user_exists] registers a user and harms nobody.  Whatever
    the database errors, licenses, transactions and the audit log are as
    before, every user who had a row keeps it, with the same name, balance,
    totals, reseller status, commission and code, and only the row of
    [user_id] can have a new [last_activity], the clock reading of the
    [UPDATE].  A user who had no row has none afterwards or the row of a new
    user: the name given, a balance of zero, no reseller, created at the
    clock reading of the [INSERT] and last active at that reading or at the
    one of the [UPDATE].  When [create_user] meets no database error and
    [user_id] fits the 64 bits of an SQLite integer, [get_user] finds a row
    afterwards; for a [user_id] that does not fit, both statements raise and
    nothing changes. *)
Theorem ensure_user_exists_registers d faults clocks user_id username :
  let d' := ensure_user_exists d faults clocks user_id username in
  licenses d' = licenses d
  /\ transactions d' = transactions d
  /\ admin_logs d' = admin_logs d
  /\ (forall w r, select_user w d = Some r ->
        select_user w d' = Some r
        \/ (w = user_id
            /\ select_user w d'
               = Some (set_last_activity (update_user_activity_now clocks) r)))
  /\ (select_user user_id d = None ->
        select_user user_id d' = None
        \/ exists last_activity,
             (last_activity = create_user_now clocks
              \/ last_activity = update_user_activity_now clocks)
             /\ select_user user_id d'
                = Some {| User.user_id := user_id; User.username := username;
                          User.balance := 0; User.total_spent := 0;
                          User.total_earned := 0;
                          User.is_reseller := false; User.commission_rate := 0;
                          User.reseller_code := None;
                          User.created_at := create_user_now clocks;
                          User.last_activity := last_activity |})
  /\ (create_user_fault faults = None -> fits_sqlite_integer user_id = true ->
      get_user d' None user_id <> None)
  /\ (fits_sqlite_integer user_id = false -> d' = d).
Proof.
  cbv zeta.
  destruct (ensure_user_exists_tables d faults clocks user_id username) as (Hl & Ht & Ha).
  split; [exact Hl|]. split; [exact Ht|]. split; [exact Ha|].
  unfold ensure_user_exists.
  set (now1 := create_user_now clocks). set (now2 := update_user_activity_now clocks).
  assert (Hold : forall w r, select_user w d = Some r ->
            select_user w (insert_or_ignore_user now1 user_id username d) = Some r).
  { intros w r Hr. unfold insert_or_ignore_user.
    destruct (select_user user_id d); [exact Hr|].
    unfold select_user in *. cbn [users set_users]. now apply find_app_Some. }
  pose proof (select_user_insert_or_ignore_new now1 user_id username d) as Hnew.
  split; [|split; [|split]].
  - intros w r Hr. specialize (Hold w r Hr).
    destruct (create_user_cases d (create_user_fault faults) now1 user_id username)
      as [-> | ->];
    match goal with
    | |- context [update_user_activity ?d0 ?f ?n ?u] =>
        destruct (update_user_activity_cases d0 f n u) as [-> | ->]
    end; auto.
    all: rewrite (select_user_update_user_row w user_id (set_last_activity now2) _ r)
           by (reflexivity || assumption).
    all: destruct (Z.eqb_spec w user_id); auto.
  - intros Hnone. specialize (Hnew Hnone).
    destruct (create_user_cases d (create_user_fault faults) now1 user_id username)
      as [-> | ->];
    match goal with
    | |- context [update_user_activity ?d0 ?f ?n ?u] =>
        destruct (update_user_activity_cases d0 f n u) as [-> | ->]
    end; auto.
    + right. exists now2. split; [now right|].
      erewrite (select_user_update_user_row user_id user_id (set_last_activity now2))
        by (reflexivity || exact Hnew).
      now rewrite Z.eqb_refl.
    + right. exists now1. split; [now left | exact Hnew].
    + left. rewrite select_user_update_user by reflexivity. now rewrite Hnone.
  - intros Hfault Hfits. rewrite Hfault. rewrite get_user_no_fault by exact Hfits.
    assert (Hcreate : create_user d None now1 user_id username
                      = (true, insert_or_ignore_user now1 user_id username d))
      by (unfold create_user, binding; now rewrite Hfits).
    rewrite Hcreate.
    assert (Hrow : exists r,
              select_user user_id (insert_or_ignore_user now1 user_id username d)
              = Some r).
    { destruct (select_user user_id d) as [r|] eqn:Hr; [eauto using Hold|].
      rewrite Hnew by reflexivity. eauto. }
    destruct Hrow as [r Hrow].
    match goal with
    | |- context [update_user_activity ?d0 ?f ?n ?u] =>
        destruct (update_user_activity_cases d0 f n u) as [-> | ->]
    end.
    + rewrite (select_user_update_user_row user_id user_id (set_last_activity now2) _ r)
        by (reflexivity || assumption). discriminate.
    + rewrite Hrow. discriminate.
  - intros Hfits. unfold create_user, update_user_activity, binding. rewrite Hfits.
    destruct faults as [create_fault update_fault].
    cbn [create_user_fault update_user_activity_fault].
    fault_cases create_fault; run_sql; fault_cases update_fault; run_sql; reflexivity.
Qed.

Lemma ensure_user_exists_registers_witness :
  let clocks := {| create_user_now := 100; update_user_activity_now := 101 |} in
  select_user 8 sample_db = None
  /\ select_user 8 (ensure_user_exists sample_db no_faults clocks 8 "Buyer")
     = Some {| User.user_id := 8; User.username := "Buyer";
               User.balance := 0; User.total_spent := 0; User.total_earned := 0;
               User.is_reseller := false; User.commission_rate := 0;
               User.reseller_code := None; User.created_at := 100;
               User.last_activity := 101 |}
  /\ get_user (ensure_user_exists sample_db no_faults clocks 8 "Buyer") None 8 <> None
  /\ ensure_user_exists sample_db no_faults clocks (2 ^ 63) "Buyer" = sample_db.
Proof.
  intros clocks.
  destruct (ensure_user_exists_registers sample_db no_faults clocks 8 "Buyer")
    as (_ & _ & _ & _ & _ & Hfound & _).
  destruct (ensure_user_exists_registers sample_db no_faults clocks (2 ^ 63) "Buyer")
    as (_ & _ & _ & _ & _ & _ & Hunbound).
  split; [reflexivity|]. split; [vm_compute; reflexivity|].
  split; [apply Hfound; reflexivity | apply Hunbound; reflexivity].
Defined.

(* ------------------------------------------------------------------ *)
(** ** The price list *)

Section PriceList.

Variable int_of_str : string -> option Z.
Variable str_of_int : Z -> string.
Variable cached_display_name : Z -> option string.
Variable float_mul : Q -> Q -> Q.
Variable float_sub : Q -> Q -> Q.
Variable float_lt : Q -> Q -> bool.

Lemma prices_fields_spec fs is_reseller commission_rate product_ids f :
  f ∈ prices_fields float_mul float_sub fs is_reseller commission_rate product_ids ->
  PriceField.product_id f ∈ product_ids
  /\ dict_get PRODUCTS (PriceField.product_id f) = Some (PriceField.product f)
  /\ PriceField.key_count f = get_key_count fs (PriceField.product_id f)
  /\ PriceField.your_price f
     = if is_reseller
       then Some (float_mul (price (PriceField.product f)) (float_sub 1 commission_rate),
                  float_sub (price (PriceField.product f))
                    (float_mul (price (PriceField.product f))
                       (float_sub 1 commission_rate)))
       else None.
Proof.
  unfold prices_fields. intros Hf. apply list_elem_of_In, in_flat_map in Hf.
  destruct Hf as (product_id & Hid & Hf). apply list_elem_of_In in Hid.
  destruct (dict_get PRODUCTS product_id) as [product|] eqn:Hproduct; [|destruct Hf].
  destruct Hf as [<-|[]]. cbn. split; [exact Hid|]. split; [exact Hproduct|].
  split; [reflexivity|]. now destruct is_reseller.
Qed.

(** X29. The price list and the purchase agree.  [/prices] takes no key and
    writes no license or transaction; it lists the six products of the
    catalogue, each with its configured entry and the count of its key
    file.  The price and the commission it shows to a reseller are the ones
    a [/purchase] of that product by that reseller then confirms, computed
    by the same operations from the same list price and commission rate,
    and such a confirmation is sent only for a product shown with stock. *)
Theorem prices_agree_with_purchase s faults get_user_fault clocks user_id display_name :
  let '(fields, footer, s1) :=
    prices float_mul float_sub s faults get_user_fault clocks user_id display_name in
  fs s1 = fs s
  /\ licenses (db s1) = licenses (db s)
  /\ transactions (db s1) = transactions (db s)
  /\ map PriceField.product_id fields
     = ["vallifetime"; "val1month"; "val1week"; "wooflifetime"; "woof1month"; "woof1week"]
  /\ (forall f, f ∈ fields ->
        dict_get PRODUCTS (PriceField.product_id f) = Some (PriceField.product f)
        /\ PriceField.key_count f = get_key_count (fs s) (PriceField.product_id f))
  /\ (forall f your_price your_commission faults' get_user_fault' clocks' display_name'
             target view s2,
        f ∈ fields ->
        PriceField.your_price f = Some (your_price, your_commission) ->
        purchase int_of_str str_of_int cached_display_name float_mul float_sub float_lt
          s1 faults' get_user_fault' clocks' user_id display_name'
          (PriceField.product_id f) target
        = (Purchase_Confirmation view, s2) ->
        PurchaseView.reseller_price view = your_price
        /\ PurchaseView.commission view = your_commission
        /\ (0 < PriceField.key_count f)%Z).
Proof.
  unfold prices.
  destruct (ensure_user_exists_tables (db s) faults clocks user_id display_name)
    as (Hl & Ht & _).
  set (d1 := ensure_user_exists (db s) faults clocks user_id display_name) in *.
  set (user_data := get_user d1 get_user_fault user_id).
  set (is_reseller := match user_data with
                      | Some row => User.is_reseller row
                      | None => false
                      end).
  set (commission_rate := match user_data with
                          | Some row => if is_reseller then User.commission_rate row
                                        else 0%Q
                          | None => 0%Q
                          end).
  cbn [fs db].
  assert (Hfields : forall f,
            f ∈ (prices_fields float_mul float_sub (fs s) is_reseller commission_rate
                   ["vallifetime"; "val1month"; "val1week"]
                 ++ prices_fields float_mul float_sub (fs s) is_reseller commission_rate
                      ["wooflifetime"; "woof1month"; "woof1week"])%list ->
            dict_get PRODUCTS (PriceField.product_id f) = Some (PriceField.product f)
            /\ PriceField.key_count f = get_key_count (fs s) (PriceField.product_id f)
            /\ PriceField.your_price f
               = if is_reseller
                 then Some (float_mul (price (PriceField.product f))
                              (float_sub 1 commission_rate),
                            float_sub (price (PriceField.product f))
                              (float_mul (price (PriceField.product f))
                                 (float_sub 1 commission_rate)))
                 else None).
  { intros f [Hf|Hf]%elem_of_app; apply prices_fields_spec in Hf; tauto. }
  split; [reflexivity|]. split; [exact Hl|]. split; [exact Ht|].
  split; [reflexivity|]. split.
  - intros f Hf. destruct (Hfields f Hf) as (Hproduct & Hcount & _).
    split; [exact Hproduct | exact Hcount].
  - intros f your_price your_commission faults' get_user_fault' clocks' display_name'
      target view s2 Hf Hyour Hrun.
    destruct (Hfields f Hf) as (Hproduct & Hcount & Hprice).
    rewrite Hprice in Hyour.
    destruct is_reseller eqn:Hres; [|discriminate]. injection Hyour as <- <-.
    unfold is_reseller, commission_rate in *. clear is_reseller commission_rate.
    destruct user_data as [row|] eqn:Hdata; [|discriminate]. cbv beta iota.
    assert (Hrow : select_user user_id d1 = Some row).
    { unfold user_data in Hdata.
      destruct (get_user_cases d1 get_user_fault user_id) as [E | E];
        rewrite E in Hdata; [exact Hdata | discriminate]. }
    pose proof (purchase_state int_of_str str_of_int cached_display_name float_mul
                  float_sub float_lt
                  {| fs := fs s; db := d1 |} faults' get_user_fault' clocks' user_id
                  display_name' (PriceField.product_id f) target) as Hstate.
    rewrite Hrun in Hstate. cbn [snd fs db] in Hstate.
    destruct (purchase_confirmation_cases int_of_str str_of_int cached_display_name
                float_mul float_sub float_lt _ _ _ _ _ _ _ _ _ _ Hrun)
      as (_ & _ & Hview & _ & Hproduct' & Hrp & Hcm & _ & Hstock & _).
    destruct (ensure_user_exists_row d1 faults' clocks' user_id display_name' user_id row
                Hrow) as (row' & Hrow' & _ & _ & _ & _ & _ & Hrate & _).
    rewrite Hstate in Hview. cbn [db] in Hview. rewrite Hrow' in Hview.
    injection Hview as Hview.
    rewrite Hproduct in Hproduct'. injection Hproduct' as Hproduct'.
    cbn [fs] in Hstock.
    assert (Hrp' : PurchaseView.reseller_price view
                   = float_mul (price (PriceField.product f))
                       (float_sub 1 (User.commission_rate row)))
      by (rewrite Hrp, <- Hview, Hrate, Hproduct'; reflexivity).
    split; [exact Hrp'|]. split; [|now rewrite Hcount].
    rewrite Hcm, Hrp', Hproduct'. reflexivity.
Qed.

End PriceList.

Lemma prices_agree_with_purchase_witness :
  let listing := prices Qmult Qminus sample_state no_faults None (ensure_at 100) 7 "Admin" in
  let field := {| PriceField.product_id := "val1week";
                  PriceField.product :=
                    {| name := "Valorant 1 Week License"; price := 100; duration := 7;
                       description := "Valorant 1 Week Access" |};
                  PriceField.key_count := 2;
                  PriceField.your_price :=
                    Some (100 * (1 - (1 # 5)), 100 - 100 * (1 - (1 # 5)))%Q |} in
  field ∈ fst (fst listing)
  /\ PurchaseView.reseller_price sample_view = (100 * (1 - (1 # 5)))%Q
  /\ PurchaseView.commission sample_view = (100 - 100 * (1 - (1 # 5)))%Q
  /\ (0 < PriceField.key_count field)%Z.
Proof.
  intros listing field.
  assert (Hin : field ∈ fst (fst listing)).
  { apply list_elem_of_In. vm_compute. do 2 right. now left. }
  split; [exact Hin|].
  pose proof (prices_agree_with_purchase (fun _ => None) (fun _ => EmptyString)
                (fun _ => None) Qmult Qminus Qltb sample_state no_faults None
                (ensure_at 100) 7 "Admin") as H.
  fold listing in H. destruct listing as [[fields footer] s1] eqn:Hlisting.
  destruct H as (_ & _ & _ & _ & _ & Hagree).
  assert (Hs1 : s1 = {| fs := fs sample_state;
                        db := update_user 7 (set_last_activity 100) sample_db |})
    by (vm_compute in Hlisting; now injection Hlisting as _ _ <-).
  apply (Hagree field _ _ no_faults None (ensure_at 100) "Admin" None sample_view s1 Hin
           eq_refl).
  rewrite Hs1. vm_compute. reflexivity.
Defined.

(* ------------------------------------------------------------------ *)
(** ** Confirming a deletion *)

(** X30. Confirming a deletion works once.  When the handler of the Delete
    button ends with "License Deleted", the click came from the admin of
    the command, the license of the view was in the table and is no longer,
    the table is shorter, users and transactions are untouched, the key is
    in the pool of its product whenever that product is configured and the
    key is well formed, and a further click on the same view, whoever
    clicks and whatever the database does, deletes nothing more: it ends
    otherwise and changes nothing.  Under every other reply of the first
    click nothing has changed. *)
Theorem deletion_is_confirmed_once s view button_user_id delete_fault log_fault now :
  let license_id := DeleteConfirmView.license_id view in
  let user_id := License.user_id (DeleteConfirmView.license_data view) in
  let '(click, s1) :=
    DeleteConfirmView_confirm_delete s view button_user_id delete_fault log_fault now in
  match click with
  | License_Deleted =>
      button_user_id = DeleteConfirmView.interaction_user_id view
      /\ (exists row,
            select_license_of license_id user_id (db s) = Some row
            /\ (well_formed_key license_id = true ->
                dict_get KEYS_CONFIG (License.product_type row) <> None ->
                license_id ∈ pool (fs s1) (License.product_type row)))
      /\ select_license_of license_id user_id (db s1) = None
      /\ (length (licenses (db s1)) < length (licenses (db s)))%nat
      /\ users (db s1) = users (db s)
      /\ transactions (db s1) = transactions (db s)
      /\ (forall button_user_id' delete_fault' log_fault' now',
            let '(click', s2) :=
              DeleteConfirmView_confirm_delete s1 view button_user_id' delete_fault'
                log_fault' now' in
            click' <> License_Deleted /\ s2 = s1)
  | _ => s1 = s
  end.
Proof.
  cbv zeta. unfold DeleteConfirmView_confirm_delete.
  destruct (button_user_id =? DeleteConfirmView.interaction_user_id view)%Z eqn:Hbutton;
    cbn [negb]; [|reflexivity].
  apply Z.eqb_eq in Hbutton.
  set (license_id := DeleteConfirmView.license_id view).
  set (user_id := License.user_id (DeleteConfirmView.license_data view)).
  destruct (delete_license_cases s delete_fault license_id user_id)
    as [(row & Hsel & ->) | ->]; [|reflexivity].
  assert (Hgone : forall d2,
            licenses d2 = licenses (delete_license_row license_id user_id (db s)) ->
            select_license_of license_id user_id d2 = None).
  { intros d2 Hd2. unfold select_license_of. rewrite Hd2.
    apply (select_license_of_deleted license_id user_id (db s)). }
  assert (Hshorter : (length (licenses (delete_license_row license_id user_id (db s)))
                      < length (licenses (db s)))%nat).
  { unfold delete_license_row, set_licenses. cbn [licenses].
    unfold select_license_of in Hsel. apply find_some in Hsel as [Hin Hrow].
    apply andb_true_iff in Hrow as [Hid Huid].
    apply String.eqb_eq in Hid. apply Z.eqb_eq in Huid.
    apply (length_filter_lt _ _ row); [now apply list_elem_of_In | tauto]. }
  assert (Hpool : well_formed_key license_id = true ->
            dict_get KEYS_CONFIG (License.product_type row) <> None ->
            license_id ∈ pool (snd (return_key (fs s) (License.product_type row)
                                      license_id)) (License.product_type row)).
  { intros Hwf Hcfg.
    destruct (dict_get KEYS_CONFIG (License.product_type row)) as [cfg|] eqn:Ecfg;
      [|contradiction].
    destruct (decide (license_id ∈ pool (fs s) (License.product_type row)))
      as [Hin|Hout].
    - now rewrite return_key_present.
    - destruct (return_key_absent (fs s) _ cfg license_id Ecfg Hout Hwf)
        as (fs' & Hret & Hfs' & _).
      rewrite Hret. cbn [snd]. rewrite Hfs'. now left. }
  assert (Hsecond : forall s1,
            select_license_of license_id user_id (db s1) = None ->
            forall button_user_id' delete_fault' log_fault' now',
              let '(click', s2) :=
                (if negb (button_user_id' =? DeleteConfirmView.interaction_user_id view)%Z
                 then (Only_the_command_admin, s1)
                 else
                   let '(success, s3) :=
                     delete_license s1 delete_fault' license_id user_id in
                   if success then
                     let '(_, d2) :=
                       log_admin_action (db s3) log_fault' now'
                         (DeleteConfirmView.interaction_user_id view) "license_delete"
                         (Some user_id) (Some license_id)
                         (Some ("Reason: " ++ DeleteConfirmView.reason view)) in
                     (License_Deleted, {| fs := fs s3; db := d2 |})
                   else (Deletion_Failed, s3)) in
              click' <> License_Deleted /\ s2 = s1).
  { intros s1 Hnone button' delete_fault' log_fault' now'.
    destruct (button' =? _)%Z; cbn [negb]; [|split; [discriminate | reflexivity]].
    destruct (delete_license_cases s1 delete_fault' license_id user_id)
      as [(row' & Hsel' & _) | ->]; [congruence|].
    split; [discriminate | reflexivity]. }
  match goal with
  | |- context [log_admin_action ?d0 ?f ?n ?a ?b ?c ?e ?g] =>
      destruct (log_admin_action_cases d0 f n a b c e g) as [-> | ->]
  end.
  all: cbn [fs db].
  all: split; [exact Hbutton|].
  all: split; [exists row; split; [exact Hsel | exact Hpool]|].
  all: split; [apply Hgone; reflexivity|].
  all: split; [exact Hshorter|].
  all: split; [reflexivity|]. all: split; [reflexivity|].
  all: apply Hsecond; cbn [db]; apply Hgone; reflexivity.
Qed.
